(** * Six Nations predictor: a shallow embedding and its verified properties

    The development follows the Python sources:
    - [squad_builder.py]   : name normalisation, identity matching, fallback skill;
    - [match_predictor.py] : unit averages, tactical metrics, the fusion model;
    - [optimize_params.py] : lineup resolution, error metrics, the grid search.

    Modelling conventions.
    - Python [str] values are [string]s, the bytes of their UTF-8 encoding.
      [str.lower] and [str.strip] are the interpreter's, with its Unicode
      tables: they are the interface [StrOps], of which only the behaviour
      on ASCII text is fixed ([PyStr.lower], [PyStr.strip]).  Every general
      statement holds for every such pair of functions; closed examples use
      the ASCII instance on ASCII data.
    - Python floats are idealised in the aggregation and in the fusion:
      every quantity up to the fused margin is a rational [Q] (the sources
      only add, subtract, multiply, divide and compare them), and the win
      probability that [simulate_match] returns is the real number of the
      formula, through a real [erf].  The two lines that compute the
      probability are modelled a second time as the interpreter evaluates
      them, in binary64 arithmetic with rounding to nearest
      ([prob_home_double]), for what depends on rounding.  Infinities and
      NaN are outside both models; so is the division by a zero [STD_DEV]
      (in Python an infinity, a NaN or a [ZeroDivisionError], depending on
      the operand types): division is the total division of [Q], and the
      value of the probability is only meaningful for [STD_DEV > 0].
    - A pandas cell that may be missing ([pd.isna]) is an [option]; this is
      done exactly where the sources test for it (player names, the lineup
      number) and for the one column whose presence they test
      ([shirt_number]).  Columns that the sources index unconditionally are
      fields of the row records.
    - A frame is either a table, with its columns, or the frame without
      columns that [pd.DataFrame([])] builds; on the latter
      [get_tactical_metrics] and [simulate_match] raise
      [KeyError('country')] ([get_tactical_metrics_frame],
      [simulate_match_frame]).
    - Exceptions are explicit: a computation that may raise returns an
      [outcome]. *)

From Stdlib Require Import List String Ascii Bool Arith ZArith Lia.
From Stdlib Require Import QArith Qabs Qround Qpower Qreals Reals Psatz.
From Stdlib Require Import Permutation Sorted.
Import ListNotations.

Local Open Scope string_scope.
Local Open Scope Z_scope.
Local Open Scope Q_scope.

(* ================================================================== *)
(** * Python string primitives *)
(* ================================================================== *)

Module PyStr.

(** [str.lower] on one character: A-Z go to a-z. *)
Definition lower_char (c : ascii) : ascii :=
  let n := nat_of_ascii c in
  if (65 <=? n)%nat && (n <=? 90)%nat then ascii_of_nat (n + 32) else c.

Fixpoint lower (s : string) : string :=
  match s with
  | EmptyString => EmptyString
  | String c s' => String (lower_char c) (lower s')
  end.

(** [str.isspace] on one character: tab, line feed, vertical tab, form
    feed, carriage return, the four separators 28-31 and the blank. *)
Definition is_space (c : ascii) : bool :=
  let n := nat_of_ascii c in
  ((9 <=? n)%nat && (n <=? 13)%nat) || ((28 <=? n)%nat && (n <=? 32)%nat).

Fixpoint lstrip (s : string) : string :=
  match s with
  | EmptyString => EmptyString
  | String c s' => if is_space c then lstrip s' else s
  end.

Fixpoint rstrip (s : string) : string :=
  match s with
  | EmptyString => EmptyString
  | String c s' =>
      match rstrip s' with
      | EmptyString => if is_space c then EmptyString else String c EmptyString
      | r => String c r
      end
  end.

Definition strip (s : string) : string := rstrip (lstrip s).

(** [s.startswith(pre)] *)
Fixpoint startswith (pre s : string) : bool :=
  match pre with
  | EmptyString => true
  | String a pre' =>
      match s with
      | EmptyString => false
      | String b s' => Ascii.eqb a b && startswith pre' s'
      end
  end.

(** [sub in s]: [sub] occurs in [s] as a contiguous run. *)
Fixpoint contains (sub s : string) : bool :=
  startswith sub s ||
  match s with
  | EmptyString => false
  | String _ s' => contains sub s'
  end.

(** [s.split(sep)] for a one-character separator. *)
Fixpoint split (sep : ascii) (s : string) : list string :=
  match s with
  | EmptyString => [EmptyString]
  | String c s' =>
      if Ascii.eqb c sep then EmptyString :: split sep s'
      else match split sep s' with
           | [] => [String c EmptyString]
           | p :: ps => String c p :: ps
           end
  end.

(** The string holds ASCII characters only. *)
Fixpoint is_ascii (s : string) : bool :=
  match s with
  | EmptyString => true
  | String c s' => (nat_of_ascii c <? 128)%nat && is_ascii s'
  end.

End PyStr.

(** The interpreter's own [str.lower] and [str.strip].  They follow its
    Unicode tables (an accented capital is folded, a no-break space is white
    space), so they are an interface of the development and not definitions
    of it.  What is fixed is their behaviour on ASCII text, which
    [PyStr.lower] and [PyStr.strip] spell out. *)
Class StrOps := mkStrOps {
  str_lower : string -> string;
  str_strip : string -> string;
  str_lower_ascii :
    forall s, PyStr.is_ascii s = true -> str_lower s = PyStr.lower s;
  str_strip_ascii :
    forall s, PyStr.is_ascii s = true -> str_strip s = PyStr.strip s
}.

(* ================================================================== *)
(** * squad_builder.py: the rating table and the identity resolver *)
(* ================================================================== *)

(** One row of the rating table ([six_nations_squads_FINAL.csv]). *)
Record PlayerRecord := mkPlayerRecord {
  db_name : option string;        (* [None]: the cell is missing *)
  db_country : string;
  db_position_group : string;
  db_skill : Q
}.

Section IdentityResolver.

Context {ops : StrOps}.

(** [normalize_name]: missing names become the empty string, the others are
    trimmed and lower-cased. *)
Definition normalize_name (name : option string) : string :=
  match name with
  | None => EmptyString
  | Some s => str_lower (str_strip s)
  end.

(** [db_df[db_df['country'].str.lower() == country.lower()]] *)
Definition country_rows (country : string) (db_df : list PlayerRecord)
  : list PlayerRecord :=
  filter (fun r => String.eqb (str_lower (db_country r)) (str_lower country))
         db_df.

(** The mask of the exact search. *)
Definition exact_match (clean_name : string) (r : PlayerRecord) : bool :=
  String.eqb (normalize_name (db_name r)) clean_name.

(** The test of the partial search. *)
Definition partial_match (clean_name : string) (r : PlayerRecord) : bool :=
  let db_nm := normalize_name (db_name r) in
  PyStr.contains clean_name db_nm || PyStr.contains db_nm clean_name.

(** The [for idx, row in country_db.iterrows()] loop with its early return. *)
Fixpoint partial_scan (clean_name : string) (country_db : list PlayerRecord)
  : option PlayerRecord :=
  match country_db with
  | [] => None
  | row :: rest =>
      if partial_match clean_name row then Some row
      else partial_scan clean_name rest
  end.

Definition match_player_data (player_name : option string) (country : string)
    (db_df : list PlayerRecord) : option PlayerRecord :=
  let clean_name := normalize_name player_name in
  let country_db := country_rows country db_df in
  let found := filter (exact_match clean_name) country_db in
  match found with
  | first :: _ => Some first                 (* found.iloc[0] *)
  | [] => partial_scan clean_name country_db
  end.

End IdentityResolver.

(** ** The fallback skill: [Series.quantile] with linear interpolation *)

Fixpoint insert_sorted (x : Q) (l : list Q) : list Q :=
  match l with
  | [] => [x]
  | y :: l' => if Qle_bool x y then x :: l else y :: insert_sorted x l'
  end.

Definition sort_values (l : list Q) : list Q := fold_right insert_sorted [] l.

(** pandas' default ([interpolation='linear']): on the sorted values the
    position is [q * (n - 1)]; the result interpolates between the two
    neighbouring order statistics.  Meant for a non-empty list and
    [0 <= q <= 1]. *)
Definition quantile (q : Q) (values : list Q) : Q :=
  let s := sort_values values in
  let pos := q * inject_Z (Z.of_nat (List.length s) - 1) in
  let lower := Qfloor pos in
  let weight := pos - inject_Z lower in
  let a := nth (Z.to_nat lower) s 0 in
  let b := nth (Z.to_nat (lower + 1)) s a in
  a + (b - a) * weight.

Definition get_country_fallback_skill {ops : StrOps} (country : string)
    (db_df : list PlayerRecord) : Q :=
  let country_db := country_rows country db_df in
  match country_db with
  | [] => 70.0
  | _ => quantile 0.25 (map db_skill country_db)
  end.

(* ================================================================== *)
(** * match_predictor.py *)
(* ================================================================== *)

Record ParameterSet := mkParameterSet {
  HOME_ADVANTAGE : Q;
  STD_DEV : Q;
  WEIGHT_MODEL_TACTICAL : Q;
  WEIGHT_MODEL_ELO : Q;
  WEIGHT_PACK : Q;
  WEIGHT_CONTROL : Q;
  WEIGHT_STRIKE : Q;
  WEIGHT_STARTERS : Q;
  WEIGHT_BENCH : Q;
  TACTICAL_SCALING_FACTOR : Q;
  ELO_SCALING : Q;
  MISMATCH_THRESHOLD : Q;
  MISMATCH_BONUS : Q
}.

Definition DEFAULT_CONFIG : ParameterSet := {|
  HOME_ADVANTAGE := 2.0;
  STD_DEV := 13.5;
  WEIGHT_MODEL_TACTICAL := 0.65;
  WEIGHT_MODEL_ELO := 0.35;
  WEIGHT_PACK := 0.40;
  WEIGHT_CONTROL := 0.35;
  WEIGHT_STRIKE := 0.25;
  WEIGHT_STARTERS := 0.80;
  WEIGHT_BENCH := 0.20;
  TACTICAL_SCALING_FACTOR := 0.85;
  ELO_SCALING := 0.7;
  MISMATCH_THRESHOLD := 4.0;
  MISMATCH_BONUS := 5.0
|}.

(** [WR_ELO], a dict read with [.get(team, 75.0)]. *)
Definition WR_ELO : list (string * Q) :=
  [ ("Ireland", 87.97); ("France", 87.24); ("England", 89.41);
    ("Scotland", 80.22); ("Italy", 78.98); ("Wales", 74.23) ].

Fixpoint dict_get (d : list (string * Q)) (key : string) (default : Q) : Q :=
  match d with
  | [] => default
  | (k, v) :: d' => if String.eqb k key then v else dict_get d' key default
  end.

(** One row of the match-ready squad table. *)
Record SquadRow := mkSquadRow {
  country : string;
  name : option string;
  position_group : string;
  skill : Q;
  starting : Z;
  shirt_number : option Z
}.

(** The squad table: its rows, and whether it has a [shirt_number] column
    (when it has none the [shirt_number] fields are never read). *)
Record DataFrame := mkDataFrame {
  has_shirt_number : bool;
  rows : list SquadRow
}.

(** [df[mask]]: the columns are kept, the rows filtered. *)
Definition df_filter (mask : SquadRow -> bool) (df : DataFrame) : DataFrame :=
  {| has_shirt_number := has_shirt_number df; rows := filter mask (rows df) |}.

(** [df.empty] *)
Definition df_empty (df : DataFrame) : bool :=
  match rows df with [] => true | _ => false end.

Definition Qsum (l : list Q) : Q := fold_right Qplus 0 l.

(** [Series.mean] of a non-empty column. *)
Definition Qmean (l : list Q) : Q := Qsum l / inject_Z (Z.of_nat (List.length l)).

(** [df['skill'].mean()] *)
Definition mean_skill (df : DataFrame) : Q := Qmean (map skill (rows df)).

Definition is_forward (r : SquadRow) : bool := String.eqb (position_group r) "Forwards".
Definition is_back (r : SquadRow) : bool := String.eqb (position_group r) "Backs".

(** [df['shirt_number'].isin([9, 10])]; a missing number is in no list. *)
Definition is_halfback (r : SquadRow) : bool :=
  match shirt_number r with
  | Some n => (n =? 9)%Z || (n =? 10)%Z
  | None => false
  end.

Definition get_unit_average (df_subset : DataFrame) (unit_type : string) : Q :=
  if df_empty df_subset then 70.0
  else if String.eqb unit_type "Pack" then
    let pack := df_filter is_forward df_subset in
    if negb (df_empty pack) then mean_skill pack else 70.0
  else if String.eqb unit_type "Control" then
    let by_number :=
      if has_shirt_number df_subset then
        let halfbacks := df_filter is_halfback df_subset in
        if negb (df_empty halfbacks) then Some (mean_skill halfbacks) else None
      else None in
    match by_number with
    | Some v => v
    | None =>
        let backs := df_filter is_back df_subset in
        if negb (df_empty backs) then mean_skill backs else 70.0
    end
  else if String.eqb unit_type "Strike" then
    let backs := df_filter is_back df_subset in
    let by_number :=
      if has_shirt_number df_subset then
        let strike := df_filter (fun r => negb (is_halfback r)) backs in
        if negb (df_empty strike) then Some (mean_skill strike) else None
      else None in
    match by_number with
    | Some v => v
    | None => if negb (df_empty backs) then mean_skill backs else 70.0
    end
  else 70.0.

(** The dict returned by [get_tactical_metrics]. *)
Record TeamMetrics := mkTeamMetrics {
  total_score : Q;
  pack_xv : Q;
  pack_bench : Q
}.

Definition get_tactical_metrics (df : DataFrame) (team : string)
    (params : ParameterSet) : option TeamMetrics :=
  let squad := df_filter (fun r => String.eqb (country r) team) df in
  if df_empty squad then None
  else
    let starters := df_filter (fun r => (starting r =? 1)%Z) squad in
    let bench := df_filter (fun r => (starting r =? 0)%Z) squad in
    let xv_pack := get_unit_average (df_filter is_forward starters) "Pack" in
    let xv_control := get_unit_average (df_filter is_back starters) "Control" in
    let xv_strike := get_unit_average (df_filter is_back starters) "Strike" in
    let score_xv := xv_pack * WEIGHT_PACK params
                    + xv_control * WEIGHT_CONTROL params
                    + xv_strike * WEIGHT_STRIKE params in
    let bn_pack := get_unit_average (df_filter is_forward bench) "Pack" in
    let bn_control := get_unit_average (df_filter is_back bench) "Control" in
    let bn_strike := get_unit_average (df_filter is_back bench) "Strike" in
    let score_bench := bn_pack * WEIGHT_PACK params
                       + bn_control * WEIGHT_CONTROL params
                       + bn_strike * WEIGHT_STRIKE params in
    let total := score_xv * WEIGHT_STARTERS params
                 + score_bench * WEIGHT_BENCH params in
    Some {| total_score := total; pack_xv := xv_pack; pack_bench := bn_pack |}.

(** The [debug] entry of a prediction. *)
Record Debug := mkDebug {
  tactical : Q;
  elo : Q;
  pack_diff : Q
}.

(** The dict returned by [simulate_match]: either the single key [error], or
    a full prediction. *)
Inductive sim_result :=
| SimError (error : string)
| SimPrediction (home away : string) (margin : Q) (prob : R) (debug : Debug).

(** The mismatch bonus: the [if] / [elif] on [pack_diff]. *)
Definition apply_mismatch (params : ParameterSet) (pack_diff margin_tactical : Q) : Q :=
  if Qlt_le_dec (MISMATCH_THRESHOLD params) pack_diff then
    margin_tactical + MISMATCH_BONUS params
  else if Qlt_le_dec pack_diff (- MISMATCH_THRESHOLD params) then
    margin_tactical - MISMATCH_BONUS params
  else margin_tactical.

Section Fusion.

(** [math.erf], a function of the C library. *)
Variable erf : R -> R.

(** [0.5 * (1 + math.erf(z_score / math.sqrt(2)))] *)
Definition prob_home_of (z_score : Q) : R :=
  (0.5 * (1 + erf (Q2R z_score / sqrt 2)))%R.

Definition simulate_match (home away : string) (df : DataFrame)
    (params : ParameterSet) : sim_result :=
  match get_tactical_metrics df home params,
        get_tactical_metrics df away params with
  | Some h_metrics, Some a_metrics =>
      let margin_tactical0 :=
        (total_score h_metrics - total_score a_metrics)
        * TACTICAL_SCALING_FACTOR params in
      let pack_total_home := 0.7 * pack_xv h_metrics + 0.3 * pack_bench h_metrics in
      let pack_total_away := 0.7 * pack_xv a_metrics + 0.3 * pack_bench a_metrics in
      let pack_diff := pack_total_home - pack_total_away in
      let margin_tactical := apply_mismatch params pack_diff margin_tactical0 in
      let elo_h := dict_get WR_ELO home 75.0 in
      let elo_a := dict_get WR_ELO away 75.0 in
      let margin_elo := (elo_h - elo_a) * ELO_SCALING params in
      let final_margin := margin_tactical * WEIGHT_MODEL_TACTICAL params
                          + margin_elo * WEIGHT_MODEL_ELO params
                          + HOME_ADVANTAGE params in
      let z_score := final_margin / STD_DEV params in
      let prob_home := prob_home_of z_score in
      SimPrediction home away final_margin prob_home
        {| tactical := margin_tactical; elo := margin_elo; pack_diff := pack_diff |}
  | _, _ =>
      SimError ("Missing data in CSV for " ++ home ++ " or " ++ away)%string
  end.

End Fusion.

(* ================================================================== *)
(** * Exceptions *)
(* ================================================================== *)

Inductive exn :=
| FileNotFoundError
| KeyError (key : string)
| ValueError
| TypeError
| ZeroDivisionError
| RuntimeError.

Inductive outcome (A : Type) :=
| Ok (a : A)
| Raised (e : exn).
Arguments Ok {A} a.
Arguments Raised {A} e.

Definition bind {A B : Type} (c : outcome A) (k : A -> outcome B) : outcome B :=
  match c with
  | Ok a => k a
  | Raised e => Raised e
  end.

Notation "x <- c ;; k" := (bind c (fun x => k))
  (at level 61, c at next level, right associativity).

(* ================================================================== *)
(** * squad_builder.py (second revision): team names from a file name *)
(* ================================================================== *)

(** [os.path.basename] *)
Definition basename (path : string) : string :=
  last (PyStr.split "/" path) EmptyString.

(** The first component of [os.path.splitext]: the last dot starts the
    extension unless only dots precede it. *)
Definition splitext_root (base : string) : string :=
  let init := removelast (PyStr.split "." base) in
  if existsb (fun p => negb (String.eqb p EmptyString)) init
  then String.concat "." init
  else base.

Definition get_teams_from_filename {ops : StrOps} (filename : string)
  : outcome (string * string) :=
  let base := basename filename in
  let name := splitext_root base in
  match PyStr.split "-" name with
  | [p0; p1] => Ok (str_strip p0, str_strip p1)
  | _ => Raised ValueError
  end.

(* ================================================================== *)
(** * optimize_params.py: resolving a lineup *)
(* ================================================================== *)

Definition _infer_position_group (jersey_number : Z) : string :=
  if existsb (Z.eqb jersey_number) [1; 2; 3; 4; 5; 6; 7; 8; 16; 17; 18; 19; 20]%Z
  then "Forwards" else "Backs".

(** One row of a lineup sheet laid out as [team1, Number, team2]: the
    number as [int] reads it ([None] when the cell is missing or is not a
    number), and the cells of the first and third columns. *)
Record LineupRow := mkLineupRow {
  Number : option Z;
  team1_cell : option string;
  team2_cell : option string
}.

Record Sheet := mkSheet {
  has_Number_column : bool;
  n_columns : nat;
  lineup : list LineupRow
}.

(** What the loader finds on disk: the rating table, if present, and the
    sheets by path. *)
Record FileSystem := mkFileSystem {
  db_csv : option (list PlayerRecord);
  xlsx : string -> option Sheet
}.

Section LineupLoader.

Context {ops : StrOps}.

(** The two branches on [data is not None]. *)
Definition resolve_entry (team : string) (df_db : list PlayerRecord)
    (fallback : Q) (jersey_number is_starting : Z) (player : string) : SquadRow :=
  match match_player_data (Some player) team df_db with
  | Some data =>
      {| country := team; name := db_name data;
         position_group := db_position_group data; skill := db_skill data;
         starting := is_starting; shirt_number := Some jersey_number |}
  | None =>
      let pos := _infer_position_group jersey_number in
      {| country := team; name := Some player;
         position_group := pos; skill := fallback;
         starting := is_starting; shirt_number := Some jersey_number |}
  end.

(** The body of [for _, row in df_match.iterrows()]: the records appended
    for one row. *)
Definition process_row (team1 team2 : string) (df_db : list PlayerRecord)
    (fallback_t1 fallback_t2 : Q) (row : LineupRow) : list SquadRow :=
  match Number row with
  | None => []
  | Some jersey_number =>
      let is_starting := if (jersey_number <=? 15)%Z then 1%Z else 0%Z in
      (match team1_cell row with
       | Some player1 =>
           [resolve_entry team1 df_db fallback_t1 jersey_number is_starting player1]
       | None => []
       end ++
       match team2_cell row with
       | Some player2 =>
           [resolve_entry team2 df_db fallback_t2 jersey_number is_starting player2]
       | None => []
       end)%list
  end.

End LineupLoader.

(** What [pd.DataFrame(match_squad)] builds from a list of records: a
    squad table with all six columns, or, from the empty list, a frame
    with no column at all. *)
Inductive Frame :=
| NoColumns
| Table (df : DataFrame).

Definition pd_DataFrame (records : list SquadRow) : Frame :=
  match records with
  | [] => NoColumns
  | _ => Table {| has_shirt_number := true; rows := records |}
  end.

Definition frame_rows (fr : Frame) : list SquadRow :=
  match fr with
  | NoColumns => []
  | Table df => rows df
  end.

(** [df['country']], the first thing [get_tactical_metrics] reads: a frame
    without columns has no such key. *)
Definition country_column (fr : Frame) : outcome DataFrame :=
  match fr with
  | NoColumns => Raised (KeyError "country")
  | Table df => Ok df
  end.


Definition simulate_match_frame (erf : R -> R) (home away : string) (fr : Frame)
    (params : ParameterSet) : outcome sim_result :=
  df <- country_column fr ;;
  Ok (simulate_match erf home away df params).

(** [os.path.join("data", match_file)] *)
Definition data_path (match_file : string) : string :=
  if PyStr.startswith "/" match_file then match_file
  else ("data/" ++ match_file)%string.

Definition load_match_squads {ops : StrOps} (fs : FileSystem)
    (match_file : string) : outcome Frame :=
  let match_path := data_path match_file in
  match xlsx fs match_path with
  | None => Raised FileNotFoundError
  | Some df_match =>
      match db_csv fs with
      | None => Raised FileNotFoundError
      | Some df_db =>
          teams <- get_teams_from_filename match_path ;;
          let (team1, team2) := teams in
          if negb (has_Number_column df_match) then Raised (KeyError "Number")
          else if (n_columns df_match <? 3)%nat then Raised ValueError
          else
            let fallback_t1 := get_country_fallback_skill team1 df_db in
            let fallback_t2 := get_country_fallback_skill team2 df_db in
            let match_squad :=
              flat_map (process_row team1 team2 df_db fallback_t1 fallback_t2)
                       (lineup df_match) in
            Ok (pd_DataFrame match_squad)
      end
  end.

(* ================================================================== *)
(** * optimize_params.py: the calibrator *)
(* ================================================================== *)

Record HistoricalMatch := mkHistoricalMatch {
  home : string;
  away : string;
  home_score : Z;
  away_score : Z;
  match_file : string
}.

Definition REAL_RESULTS : list HistoricalMatch :=
  [ mkHistoricalMatch "France" "Ireland" 36 14 "France-Ireland.xlsx";
    mkHistoricalMatch "Italy" "Scotland" 18 15 "Italy-Scotland.xlsx";
    mkHistoricalMatch "England" "Wales" 48 7 "England-Wales.xlsx";
    mkHistoricalMatch "Scotland" "England" 31 20 "Scotland-England.xlsx";
    mkHistoricalMatch "Wales" "France" 12 54 "Wales-France.xlsx";
    mkHistoricalMatch "Ireland" "Italy" 20 13 "Ireland-Italy.xlsx" ].

(** The dict returned by [calculate_metrics]. *)
Record Metrics := mkMetrics {
  rmse : R;
  mae : Q;
  max_error : Q;
  correct_winners : Z;
  accuracy : Q
}.

Definition Qlt_bool (x y : Q) : bool := negb (Qle_bool y x).

Definition Qmax (x y : Q) : Q := if Qle_bool x y then y else x.

(** [np.max] of a non-empty array. *)
Definition Qmaximum (l : list Q) : Q :=
  match l with
  | [] => 0
  | x :: l' => fold_left Qmax l' x
  end.

(** The [for pred, real in zip(predictions, real_results)] loop; reading
    [pred["margin"]] raises [KeyError] on an error result. *)
Fixpoint metrics_loop (pairs : list (sim_result * HistoricalMatch))
    (errors : list Q) (correct : Z) : outcome (list Q * Z) :=
  match pairs with
  | [] => Ok (errors, correct)
  | (pred, real) :: rest =>
      let real_margin := inject_Z (home_score real - away_score real) in
      match pred with
      | SimError _ => Raised (KeyError "margin")
      | SimPrediction _ _ pred_margin _ _ =>
          let error := Qabs (pred_margin - real_margin) in
          let credited :=
            (Qlt_bool 0 real_margin && Qlt_bool 0 pred_margin)
            || (Qlt_bool real_margin 0 && Qlt_bool pred_margin 0)
            || (Qeq_bool real_margin 0 && Qlt_bool (Qabs pred_margin) 3) in
          metrics_loop rest (errors ++ [error])%list
                       (if credited then correct + 1 else correct)%Z
      end
  end.

Definition calculate_metrics (predictions : list sim_result)
    (real_results : list HistoricalMatch) : outcome Metrics :=
  match predictions with
  | [] => Raised ValueError
  | _ =>
      r <- metrics_loop (combine predictions real_results) [] 0%Z ;;
      let (errors, correct) := r in
      Ok {| rmse := sqrt (Q2R (Qmean (map (fun e => e * e) errors)));
            mae := Qmean errors;
            max_error := Qmaximum errors;
            correct_winners := correct;
            accuracy := inject_Z correct
                        / inject_Z (Z.of_nat (List.length real_results)) * 100 |}
  end.

(** One row of the ranking. *)
Record GridResult := mkGridResult {
  tactical_weight : Q;
  elo_weight : Q;
  home_advantage : Q;
  res_rmse : R;
  res_mae : Q;
  res_max_error : Q;
  res_correct_winners : Z;
  res_accuracy : Q
}.

(** [round(x, 2)], ties to the even hundredth. *)
Definition round2 (x : Q) : Q :=
  let y := x * 100 in
  let f := Qfloor y in
  let d := y - inject_Z f in
  let n := if Qlt_bool d 0.5 then f
           else if Qlt_bool 0.5 d then (f + 1)%Z
           else if Z.even f then f else (f + 1)%Z in
  inject_Z n / 100.

(** [sort_values("rmse")] *)
Fixpoint insert_by_rmse (x : GridResult) (l : list GridResult) : list GridResult :=
  match l with
  | [] => [x]
  | y :: l' =>
      if Rle_dec (res_rmse x) (res_rmse y) then x :: l
      else y :: insert_by_rmse x l'
  end.

Definition sort_by_rmse (l : list GridResult) : list GridResult :=
  fold_right insert_by_rmse [] l.

Section Calibrator.

Context {ops : StrOps}.

Variable erf : R -> R.

(** The [for match in REAL_RESULTS] loop of [evaluate_params] with its
    [try] / [except Exception: return None]; [None] is that early return,
    taken when the loader or [simulate_match] raises. *)
Fixpoint predict_all (fs : FileSystem) (config : ParameterSet)
    (matches : list HistoricalMatch) (predictions : list sim_result)
  : option (list sim_result) :=
  match matches with
  | [] => Some predictions
  | m :: rest =>
      match load_match_squads fs (match_file m) with
      | Raised _ => None
      | Ok df =>
          match simulate_match_frame erf (home m) (away m) df config with
          | Raised _ => None
          | Ok pred => predict_all fs config rest (predictions ++ [pred])%list
          end
      end
  end.

(** [copy.deepcopy(DEFAULT_CONFIG)] with the three overridden keys. *)
Definition trial_config (tactical_weight home_advantage : Q) : ParameterSet :=
  {| HOME_ADVANTAGE := home_advantage;
     STD_DEV := STD_DEV DEFAULT_CONFIG;
     WEIGHT_MODEL_TACTICAL := tactical_weight;
     WEIGHT_MODEL_ELO := 1.0 - tactical_weight;
     WEIGHT_PACK := WEIGHT_PACK DEFAULT_CONFIG;
     WEIGHT_CONTROL := WEIGHT_CONTROL DEFAULT_CONFIG;
     WEIGHT_STRIKE := WEIGHT_STRIKE DEFAULT_CONFIG;
     WEIGHT_STARTERS := WEIGHT_STARTERS DEFAULT_CONFIG;
     WEIGHT_BENCH := WEIGHT_BENCH DEFAULT_CONFIG;
     TACTICAL_SCALING_FACTOR := TACTICAL_SCALING_FACTOR DEFAULT_CONFIG;
     ELO_SCALING := ELO_SCALING DEFAULT_CONFIG;
     MISMATCH_THRESHOLD := MISMATCH_THRESHOLD DEFAULT_CONFIG;
     MISMATCH_BONUS := MISMATCH_BONUS DEFAULT_CONFIG |}.

Definition evaluate_params (fs : FileSystem) (tactical_weight home_advantage : Q)
  : outcome (option Metrics) :=
  let config := trial_config tactical_weight home_advantage in
  match predict_all fs config REAL_RESULTS [] with
  | None => Ok None
  | Some predictions =>
      metrics <- calculate_metrics predictions REAL_RESULTS ;;
      Ok (Some metrics)
  end.

Definition tactical_weights : list Q := [0.50; 0.55; 0.60; 0.65; 0.70; 0.75; 0.80].
Definition home_advantages : list Q := [0.0; 1.0; 2.0; 3.0; 4.0; 5.0].

(** The nested [for] loops of [grid_search] over the combinations still to
    evaluate.  [best_rmse] starts at [float("inf")], here [None]. *)
Fixpoint grid_loop (fs : FileSystem) (combos : list (Q * Q))
    (results : list GridResult) (best_rmse : option R)
    (best_params : option GridResult)
  : outcome (list GridResult * option GridResult) :=
  match combos with
  | [] => Ok (results, best_params)
  | (tactical, home_adv) :: rest =>
      metrics <- evaluate_params fs tactical home_adv ;;
      match metrics with
      | None => grid_loop fs rest results best_rmse best_params
      | Some metrics =>
          let result :=
            {| tactical_weight := tactical;
               elo_weight := round2 (1.0 - tactical);
               home_advantage := home_adv;
               res_rmse := rmse metrics;
               res_mae := mae metrics;
               res_max_error := max_error metrics;
               res_correct_winners := correct_winners metrics;
               res_accuracy := accuracy metrics |} in
          let improves :=
            match best_rmse with
            | None => true
            | Some b => if Rlt_dec (rmse metrics) b then true else false
            end in
          if improves
          then grid_loop fs rest (results ++ [result])%list
                         (Some (rmse metrics)) (Some result)
          else grid_loop fs rest (results ++ [result])%list best_rmse best_params
      end
  end.

(** [grid_search], without its printing and the CSV it writes: the best
    row and the ranking. *)
Definition grid_search (fs : FileSystem)
  : outcome (option GridResult * list GridResult) :=
  r <- grid_loop fs (list_prod tactical_weights home_advantages) [] None None ;;
  let (results, best_params) := r in
  match results with
  | [] => Raised RuntimeError
  | _ =>
      let results_df := sort_by_rmse results in
      current_metrics <- evaluate_params fs (WEIGHT_MODEL_TACTICAL DEFAULT_CONFIG)
                                            (HOME_ADVANTAGE DEFAULT_CONFIG) ;;
      match current_metrics with
      | None => Raised TypeError
      | Some current =>
          if Req_dec_T (rmse current) 0%R then Raised ZeroDivisionError
          else Ok (best_params, results_df)
      end
  end.

End Calibrator.

(* ================================================================== *)
(** * match_predictor.py: the win probability as the interpreter computes it *)
(* ================================================================== *)

(** The interpreter's floats are binary64 numbers: every operation returns
    the exact result rounded to the nearest number with 53 binary digits,
    ties to the even one, subnormal numbers down to [2^-1074].  A binary64
    number is modelled by the rational it denotes; overflow to an infinity
    and NaN are outside the model. *)

Definition pow2 (e : Z) : Q := 2 ^ e.

(** The magnitude of a number that is not zero: the [e] with
    [2^(e-1) <= |x| < 2^e]. *)
Definition mag (x : Q) : Z :=
  let k := (Z.log2 (Z.abs (Qnum x)) - Z.log2 (Zpos (Qden x)))%Z in
  if Qle_bool (pow2 k) (Qabs x) then (k + 1)%Z else k.

(** The nearest integer, ties to the even one. *)
Definition round_half_even (x : Q) : Z :=
  let f := Qfloor x in
  let d := x - inject_Z f in
  if Qlt_bool d (1 # 2) then f
  else if Qlt_bool (1 # 2) d then (f + 1)%Z
  else if Z.even f then f else (f + 1)%Z.

(** The exponent of the last binary digit of a number of magnitude [e]. *)
Definition fexp (e : Z) : Z := Z.max (e - 53) (-1074).

(** The nearest binary64 number. *)
Definition round64 (x : Q) : Q :=
  if Qeq_bool x 0 then 0
  else
    let e := fexp (mag x) in
    inject_Z (round_half_even (x / pow2 e)) * pow2 e.

(** [x + y], [x * y] and [x / y] on floats. *)
Definition fadd (x y : Q) : Q := round64 (x + y).
Definition fmul (x y : Q) : Q := round64 (x * y).
Definition fdiv (x y : Q) : Q := round64 (x / y).

(** [math.sqrt(2)], the binary64 number nearest to the square root of 2. *)
Definition sqrt2_double : Q := 6369051672525773 # 4503599627370496.

(** [z_score = final_margin / params["STD_DEV"]] and
    [prob_home = 0.5 * (1 + math.erf(z_score / math.sqrt(2)))], on floats;
    [erf64] is [math.erf], a function of the C library from floats to
    floats. *)
Definition prob_home_double (erf64 : Q -> Q) (final_margin std_dev : Q) : Q :=
  let z_score := fdiv final_margin std_dev in
  fmul (1 # 2) (fadd 1 (erf64 (fdiv z_score sqrt2_double))).

(* ================================================================== *)
(** * match_predictor.py: the main block *)
(* ================================================================== *)

(** [Series.unique()]: the values in order of first appearance. *)
Fixpoint unique (l : list string) : list string :=
  match l with
  | [] => []
  | x :: l' => x :: filter (fun y => negb (String.eqb y x)) (unique l')
  end.

(** What the main block prints for a prediction, before number formatting:
    the winner, the margin and probability shown, the two parts of the
    breakdown, and the team named in the pack alert, if any. *)
Record MatchReport := mkMatchReport {
  winner : string;
  shown_margin : Q;
  shown_prob : R;
  shown_tactical : Q;
  shown_elo : Q;
  alert : option string
}.

Inductive main_output :=
| ExpectedTwoTeams (teams_available : list string)
| PrintedError (error : string)
| Printed (report : MatchReport).

Section PredictorMain.

Variable erf : R -> R.

(** The main block on the table read from [match_ready_squads.csv]. *)
Definition predictor_main (df : DataFrame) : main_output :=
  let teams_available := unique (map country (rows df)) in
  match teams_available with
  | [h; a] =>
      match simulate_match erf h a df DEFAULT_CONFIG with
      | SimError error => PrintedError error
      | SimPrediction _ _ margin prob debug =>
          let positive := Qlt_bool 0 margin in
          Printed
          {| winner := if positive then h else a;
             shown_margin := Qabs margin;
             shown_prob := if positive then prob else (1 - prob)%R;
             shown_tactical := tactical debug;
             shown_elo := elo debug;
             alert :=
               if Qlt_bool (MISMATCH_THRESHOLD DEFAULT_CONFIG) (Qabs (pack_diff debug))
               then Some (if Qlt_bool 0 (pack_diff debug) then h else a)
               else None |}
      end
  | _ => ExpectedTwoTeams teams_available
  end.

End PredictorMain.

(* ================================================================== *)
(** * squad_builder.py: the validation of the built table *)
(* ================================================================== *)

(** [len(starters[starters['country'] == country])] with
    [starters = df_ready[df_ready['starting'] == 1]]. *)
Definition n_start (df_ready : DataFrame) (team : string) : nat :=
  List.length (filter (fun r => String.eqb (country r) team)
                      (filter (fun r => (starting r =? 1)%Z) (rows df_ready))).

Inductive starters_check :=
| StartersWarning (team : string) (n : nat)
| StartersOk (team : string).

(** The [for country in df_ready['country'].unique()] loop. *)
Definition check_starters (df_ready : DataFrame) : list starters_check :=
  map (fun team =>
         let n := n_start df_ready team in
         if negb (n =? 15)%nat then StartersWarning team n else StartersOk team)
      (unique (map country (rows df_ready))).

Definition option_Z_eqb (x y : option Z) : bool :=
  match x, y with
  | Some a, Some b => (a =? b)%Z
  | None, None => true
  | _, _ => false
  end.

(** Two rows share their [country] and [shirt_number]. *)
Definition same_key (r r' : SquadRow) : bool :=
  String.eqb (country r) (country r')
  && option_Z_eqb (shirt_number r) (shirt_number r').

(** [df_ready[df_ready.duplicated(['country', 'shirt_number'], keep=False)]]:
    every row whose key occurs more than once. *)
Definition duplicates (df_ready : DataFrame) : list SquadRow :=
  filter (fun r => (1 <? List.length (filter (same_key r) (rows df_ready)))%nat)
         (rows df_ready).

(* ================================================================== *)
(** * Vocabulary of the statements and sample data *)
(* ================================================================== *)

(** [sub] occurs in [s]. *)
Definition Substring (sub s : string) : Prop :=
  exists pre post, s = (pre ++ sub ++ post)%string.

(** Every character of [s] satisfies [P]. *)
Fixpoint all_chars (P : ascii -> Prop) (s : string) : Prop :=
  match s with
  | EmptyString => True
  | String c s' => P c /\ all_chars P s'
  end.

(** The white space of ASCII: tab, line feed, vertical tab, form feed,
    carriage return, the separators 28 to 31 and the blank. *)
Definition blank (c : ascii) : Prop :=
  In (nat_of_ascii c) [9; 10; 11; 12; 13; 28; 29; 30; 31; 32]%nat.

(** Neither the first nor the last character of [s] is white space. *)
Definition clean_ends (s : string) : Prop :=
  (forall c t, s = String c t -> ~ blank c)
  /\ (forall c t, s = (t ++ String c EmptyString)%string -> ~ blank c).

(** [s] without the white space before and after it is [core]. *)
Definition trimmed_to (s core : string) : Prop :=
  exists pre post,
    s = (pre ++ core ++ post)%string
    /\ all_chars blank pre /\ all_chars blank post /\ clean_ends core.

(** A capital letter, A to Z. *)
Definition capital (c : ascii) : Prop := (65 <= nat_of_ascii c <= 90)%nat.

(** The same letter up to case: equal characters, or a capital and its
    small letter, 32 places further. *)
Definition same_letter (c d : ascii) : Prop :=
  c = d
  \/ (capital c /\ nat_of_ascii d = (nat_of_ascii c + 32)%nat)
  \/ (capital d /\ nat_of_ascii c = (nat_of_ascii d + 32)%nat).

(** Equal up to letter case. *)
Inductive same_letters : string -> string -> Prop :=
| same_letters_nil : same_letters EmptyString EmptyString
| same_letters_cons (c d : ascii) (s t : string) :
    same_letter c d -> same_letters s t ->
    same_letters (String c s) (String d t).

(** [t] is [s] in small letters. *)
Definition small_letters_of (s t : string) : Prop :=
  same_letters s t /\ all_chars (fun c => ~ capital c) t.

(** [r] is the first element of [l], in the order of [l], that satisfies [P]. *)
Definition first_where {A : Type} (P : A -> Prop) (l : list A) (r : A) : Prop :=
  exists pre post, l = (pre ++ r :: post)%list /\ P r /\ forall x, In x pre -> ~ P x.

(** Two records of the same player family: the exact match is second in
    the table and still wins over the earlier containment match. *)
Definition dupont_db : list PlayerRecord :=
  [ mkPlayerRecord (Some "Antoine Dupont-Roc") "France" "Backs" 80;
    mkPlayerRecord (Some "Thomas Ramos") "France" "Backs" 85;
    mkPlayerRecord (Some "Antoine Dupont") "FRANCE" "Backs" 92;
    mkPlayerRecord (Some "Antoine Dupont") "Italy" "Backs" 60 ].

(** A table in which the second French record has no name. *)
Definition blank_name_db : list PlayerRecord :=
  [ mkPlayerRecord (Some "Antoine Dupont") "France" "Backs" 92;
    mkPlayerRecord None "France" "Forwards" 70 ].

(** The 25th percentile of a non-empty sample, by linear interpolation
    between order statistics: with [n - 1 = 4 k + r] and [r < 4], it lies
    [r] quarters of the way from the [k]-th to the [k+1]-th smallest value. *)
Definition percentile25_of (values : list Q) (v : Q) : Prop :=
  exists s : list Q,
    Permutation s values /\ Sorted Qle s /\
    exists k r : nat,
      (List.length values - 1 = 4 * k + r)%nat /\ (r < 4)%nat /\
      v == nth k s 0 + (inject_Z (Z.of_nat r) / 4) * (nth (k + 1) s 0 - nth k s 0).

Definition forward_number (jersey_number : Z) : Prop :=
  (1 <= jersey_number <= 8 \/ 16 <= jersey_number <= 20)%Z.

(** A small rating table and lineup sheet. *)
Definition sample_db : list PlayerRecord :=
  [ mkPlayerRecord (Some "Cyril Baille") "France" "Forwards" 84;
    mkPlayerRecord (Some "Antoine Dupont") "France" "Backs" 95;
    mkPlayerRecord (Some "Thomas Ramos") "France" "Backs" 88;
    mkPlayerRecord (Some "Gregory Alldritt") "France" "Forwards" 90;
    mkPlayerRecord (Some "Andrew Porter") "Ireland" "Forwards" 86;
    mkPlayerRecord (Some "Jamison Gibson-Park") "Ireland" "Backs" 89 ].

Definition sample_sheet : Sheet :=
  {| has_Number_column := true;
     n_columns := 3;
     lineup :=
       [ mkLineupRow (Some 1%Z) (Some "Cyril Baille") (Some "Andrew Porter");
         mkLineupRow (Some 9%Z) (Some "Maxime Lucu") (Some "Jamison Gibson-Park");
         mkLineupRow None (Some "Replacements") None;
         mkLineupRow (Some 16%Z) (Some "Peato Mauvaka") (Some "Dan Sheehan") ] |}.

Definition sample_fs : FileSystem :=
  {| db_csv := Some sample_db;
     xlsx := fun path =>
       if String.eqb path "data/France-Ireland.xlsx" then Some sample_sheet
       else None |}.

(** The standard normal distribution function, through [erf]. *)
Definition std_normal_cdf (erf : R -> R) (x : R) : R :=
  (1 / 2 * (1 + erf (x / sqrt 2)))%R.

(** A team has no row in the table. *)
Definition no_rows (df : DataFrame) (team : string) : Prop :=
  forall r, In r (rows df) -> country r <> team.

(** The fused margin, as [simulate_match] computes it from two metrics. *)
Definition base_tactical (params : ParameterSet) (h a : TeamMetrics) : Q :=
  (total_score h - total_score a) * TACTICAL_SCALING_FACTOR params.

Definition pack_difference (h a : TeamMetrics) : Q :=
  (0.7 * pack_xv h + 0.3 * pack_bench h) - (0.7 * pack_xv a + 0.3 * pack_bench a).

Definition elo_margin (params : ParameterSet) (home away : string) : Q :=
  (dict_get WR_ELO home 75.0 - dict_get WR_ELO away 75.0) * ELO_SCALING params.

Definition fused_margin (params : ParameterSet) (home away : string)
    (h a : TeamMetrics) : Q :=
  apply_mismatch params (pack_difference h a) (base_tactical params h a)
  * WEIGHT_MODEL_TACTICAL params
  + elo_margin params home away * WEIGHT_MODEL_ELO params
  + HOME_ADVANTAGE params.

(** [x / (1 + |x|)] is odd, increasing and bounded by 1, as [erf] is; it
    stands for [erf] where a closed instance is needed. *)
Definition odd_sigmoid (x : R) : R := (x / (1 + Rabs x))%R.

(** [x] cut at -1 and 1, a function from floats to floats: bounded by 1,
    of the sign of [x], keeping the order, at most [|x|] in absolute value
    and equal to 1 far from zero, as [math.erf] is; it stands for
    [math.erf] where a closed instance is needed. *)
Definition unit_clamp64 (x : Q) : Q :=
  if Qle_bool x (- (1)) then - (1) else if Qle_bool 1 x then 1 else x.

(** [params] with another standard deviation, all else unchanged. *)
Definition with_std_dev (params : ParameterSet) (std_dev : Q) : ParameterSet :=
  {| HOME_ADVANTAGE := HOME_ADVANTAGE params;
     STD_DEV := std_dev;
     WEIGHT_MODEL_TACTICAL := WEIGHT_MODEL_TACTICAL params;
     WEIGHT_MODEL_ELO := WEIGHT_MODEL_ELO params;
     WEIGHT_PACK := WEIGHT_PACK params;
     WEIGHT_CONTROL := WEIGHT_CONTROL params;
     WEIGHT_STRIKE := WEIGHT_STRIKE params;
     WEIGHT_STARTERS := WEIGHT_STARTERS params;
     WEIGHT_BENCH := WEIGHT_BENCH params;
     TACTICAL_SCALING_FACTOR := TACTICAL_SCALING_FACTOR params;
     ELO_SCALING := ELO_SCALING params;
     MISMATCH_THRESHOLD := MISMATCH_THRESHOLD params;
     MISMATCH_BONUS := MISMATCH_BONUS params |}.

(** Sample squad tables. *)
Definition player (team pos : string) (sk : Q) (st n : Z) : SquadRow :=
  {| country := team; name := None; position_group := pos; skill := sk;
     starting := st; shirt_number := Some n |}.

(** 8 forwards and 7 backs start; the bench holds numbers 16 to 20, the
    first [bench_forwards] of them forwards. *)
Definition lineup_of (team : string) (sk : Q) (bench_forwards : Z) : list SquadRow :=
  map (fun n => player team "Forwards" sk 1 n) [1; 2; 3; 4; 5; 6; 7; 8]%Z
  ++ map (fun n => player team "Backs" sk 1 n) [9; 10; 11; 12; 13; 14; 15]%Z
  ++ map (fun n => player team (if (n <? 16 + bench_forwards)%Z
                                then "Forwards" else "Backs") sk 0 n)
         [16; 17; 18; 19; 20]%Z.

(** Both benches hold three forwards and two backs. *)
Definition level_df : DataFrame :=
  {| has_shirt_number := true;
     rows := lineup_of "Barbarians" 75.0 3 ++ lineup_of "Lions" 75.0 3 |}.

(** The home bench holds five forwards, the away bench three forwards and
    two backs. *)
Definition forward_bench_df : DataFrame :=
  {| has_shirt_number := true;
     rows := lineup_of "Barbarians" 75.0 5 ++ lineup_of "Lions" 75.0 3 |}.

(** Only one of the two teams is in the table. *)
Definition only_home_df : DataFrame :=
  {| has_shirt_number := true; rows := lineup_of "Barbarians" 75.0 3 |}.

Definition only_away_df : DataFrame :=
  {| has_shirt_number := true; rows := lineup_of "Lions" 75.0 3 |}.

(** The default parameters with another threshold and home advantage. *)
Definition with_threshold (threshold home_adv : Q) : ParameterSet :=
  {| HOME_ADVANTAGE := home_adv;
     STD_DEV := STD_DEV DEFAULT_CONFIG;
     WEIGHT_MODEL_TACTICAL := WEIGHT_MODEL_TACTICAL DEFAULT_CONFIG;
     WEIGHT_MODEL_ELO := WEIGHT_MODEL_ELO DEFAULT_CONFIG;
     WEIGHT_PACK := WEIGHT_PACK DEFAULT_CONFIG;
     WEIGHT_CONTROL := WEIGHT_CONTROL DEFAULT_CONFIG;
     WEIGHT_STRIKE := WEIGHT_STRIKE DEFAULT_CONFIG;
     WEIGHT_STARTERS := WEIGHT_STARTERS DEFAULT_CONFIG;
     WEIGHT_BENCH := WEIGHT_BENCH DEFAULT_CONFIG;
     TACTICAL_SCALING_FACTOR := TACTICAL_SCALING_FACTOR DEFAULT_CONFIG;
     ELO_SCALING := ELO_SCALING DEFAULT_CONFIG;
     MISMATCH_THRESHOLD := threshold;
     MISMATCH_BONUS := MISMATCH_BONUS DEFAULT_CONFIG |}.

(** The home pack is half a point weaker than the away pack. *)
Definition weaker_home_df : DataFrame :=
  {| has_shirt_number := true;
     rows := lineup_of "Barbarians" 74.5 3 ++ lineup_of "Lions" 75.0 3 |}.

(** The home pack is 4.1 points stronger than the away pack. *)
Definition stronger_home_df : DataFrame :=
  {| has_shirt_number := true;
     rows := lineup_of "Barbarians" 79.1 3 ++ lineup_of "Lions" 75.0 3 |}.

(** The team fields a player of the given status and position group. *)
Definition fields (df : DataFrame) (team : string) (st : Z) (pos : string) : Prop :=
  exists r, In r (rows df) /\ country r = team /\ starting r = st
            /\ position_group r = pos.

(** Forwards and backs both among the starters and on the bench. *)
Definition full_squad (df : DataFrame) (team : string) : Prop :=
  fields df team 1 "Forwards" /\ fields df team 1 "Backs"
  /\ fields df team 0 "Forwards" /\ fields df team 0 "Backs".

Definition starters_of (df : DataFrame) (team : string) : list SquadRow :=
  filter (fun r => String.eqb (country r) team && (starting r =? 1)%Z) (rows df).

Definition substitutes_of (df : DataFrame) (team : string) : list SquadRow :=
  filter (fun r => String.eqb (country r) team && (starting r =? 0)%Z) (rows df).

(** Six lineup sheets; in the first one the Ireland column is blank. *)
Definition blank_away_sheet : Sheet :=
  {| has_Number_column := true;
     n_columns := 3;
     lineup := [ mkLineupRow (Some 1%Z) (Some "Cyril Baille") None;
                 mkLineupRow (Some 9%Z) (Some "Antoine Dupont") None ] |}.

(** A sheet whose two team columns are blank: no record is built. *)
Definition blank_sheet : Sheet :=
  {| has_Number_column := true;
     n_columns := 3;
     lineup := [ mkLineupRow (Some 1%Z) None None;
                 mkLineupRow (Some 9%Z) None None ] |}.

Definition blank_sheet_fs : FileSystem :=
  {| db_csv := Some sample_db;
     xlsx := fun path => Some blank_sheet |}.

Definition two_name_sheet : Sheet :=
  {| has_Number_column := true;
     n_columns := 3;
     lineup := [ mkLineupRow (Some 1%Z) (Some "Home Prop") (Some "Away Prop");
                 mkLineupRow (Some 9%Z) (Some "Home Half") (Some "Away Half") ] |}.

Definition blank_column_fs : FileSystem :=
  {| db_csv := Some sample_db;
     xlsx := fun path =>
       if String.eqb path "data/France-Ireland.xlsx" then Some blank_away_sheet
       else if existsb (String.eqb path)
                 [ "data/Italy-Scotland.xlsx"; "data/England-Wales.xlsx";
                   "data/Scotland-England.xlsx"; "data/Wales-France.xlsx";
                   "data/Ireland-Italy.xlsx" ]
            then Some two_name_sheet
            else None |}.

(** [params] with another home advantage, all else unchanged. *)
Definition with_home_advantage (params : ParameterSet) (home_adv : Q) : ParameterSet :=
  {| HOME_ADVANTAGE := home_adv;
     STD_DEV := STD_DEV params;
     WEIGHT_MODEL_TACTICAL := WEIGHT_MODEL_TACTICAL params;
     WEIGHT_MODEL_ELO := WEIGHT_MODEL_ELO params;
     WEIGHT_PACK := WEIGHT_PACK params;
     WEIGHT_CONTROL := WEIGHT_CONTROL params;
     WEIGHT_STRIKE := WEIGHT_STRIKE params;
     WEIGHT_STARTERS := WEIGHT_STARTERS params;
     WEIGHT_BENCH := WEIGHT_BENCH params;
     TACTICAL_SCALING_FACTOR := TACTICAL_SCALING_FACTOR params;
     ELO_SCALING := ELO_SCALING params;
     MISMATCH_THRESHOLD := MISMATCH_THRESHOLD params;
     MISMATCH_BONUS := MISMATCH_BONUS params |}.

(** The number of occurrences of a character in a string. *)
Fixpoint count_char (c : ascii) (s : string) : nat :=
  match s with
  | EmptyString => 0
  | String d s' => (if Ascii.eqb d c then 1 else 0) + count_char c s'
  end.

(** The numbers of a lineup sheet that [int] can read. *)
Definition lineup_numbers (rows : list LineupRow) : list Z :=
  flat_map (fun row => match Number row with Some j => [j] | None => [] end) rows.

(** The lineup rows numbered up to 15 that name a player in the given cell. *)
Definition named_starters (cell : LineupRow -> option string)
    (rows : list LineupRow) : list LineupRow :=
  filter (fun row => match Number row, cell row with
                     | Some j, Some _ => (j <=? 15)%Z
                     | _, _ => false
                     end) rows.

(** The result is a prediction whose margin is the real one. *)
Definition margin_hits (pred : sim_result) (real : HistoricalMatch) : Prop :=
  match pred with
  | SimPrediction _ _ m _ _ => m == inject_Z (home_score real - away_score real)
  | SimError _ => False
  end.

(** An error result is paired with a real result by [zip]. *)
Definition zips_error (predictions : list sim_result)
    (real_results : list HistoricalMatch) : Prop :=
  exists msg real, In (SimError msg, real) (combine predictions real_results).

(** The ranking order of two rows. *)
Definition by_rmse (a b : GridResult) : Prop := (res_rmse a <= res_rmse b)%R.

(** Every lineup file exists and names two players per team. *)
Definition two_name_fs : FileSystem :=
  {| db_csv := Some sample_db;
     xlsx := fun path => Some two_name_sheet |}.

(** [best] is a row of [results] with the least [rmse], or nothing when
    there is no row. *)
Definition best_of (results : list GridResult) (best : option GridResult) : Prop :=
  match best with
  | None => results = []
  | Some b => In b results /\ forall r, In r results -> by_rmse b r
  end.

(** A lineup row yields a record: its number is readable and one of its
    two team cells holds a name. *)
Definition has_entry (row : LineupRow) : Prop :=
  Number row <> None /\ (team1_cell row <> None \/ team2_cell row <> None).

(** ** The notions that depend on the interpreter's strings *)

Section Vocabulary.

Context {ops : StrOps}.

(** "Trimmed and lower-cased", in the words of the specification, with the
    interpreter's functions; a missing name counts as the empty string. *)
Definition trimmed_lowered (name : option string) : string :=
  match name with
  | None => EmptyString
  | Some s => str_lower (str_strip s)
  end.

(** The three notions of the resolver, stated on the strings. *)
Definition same_country (team : string) (r : PlayerRecord) : Prop :=
  str_lower (db_country r) = str_lower team.

Definition exact_name (query : option string) (r : PlayerRecord) : Prop :=
  trimmed_lowered (db_name r) = trimmed_lowered query.

Definition contained_name (query : option string) (r : PlayerRecord) : Prop :=
  Substring (trimmed_lowered query) (trimmed_lowered (db_name r))
  \/ Substring (trimmed_lowered (db_name r)) (trimmed_lowered query).

(** The ratings of a team: the skills of the records of its country, in
    table order. *)
Inductive team_ratings (team : string) : list PlayerRecord -> list Q -> Prop :=
| team_ratings_nil : team_ratings team [] []
| team_ratings_same (r : PlayerRecord) (db : list PlayerRecord) (ratings : list Q) :
    same_country team r -> team_ratings team db ratings ->
    team_ratings team (r :: db) (db_skill r :: ratings)
| team_ratings_other (r : PlayerRecord) (db : list PlayerRecord) (ratings : list Q) :
    ~ same_country team r -> team_ratings team db ratings ->
    team_ratings team (r :: db) ratings.

(** The name matches no rating record of the team. *)
Definition unmatched (team : string) (db : list PlayerRecord) (player : string)
  : Prop :=
  forall r, In r db -> same_country team r ->
            ~ exact_name (Some player) r /\ ~ contained_name (Some player) r.

(** What is required of the record built for an unresolved entry. *)
Definition fallback_record (team : string) (db : list PlayerRecord)
    (jersey_number : Z) (r : SquadRow) : Prop :=
  ((forall x, In x db -> ~ same_country team x) -> skill r == 70)
  /\ (forall ratings, team_ratings team db ratings -> ratings <> [] ->
      percentile25_of ratings (skill r))
  /\ (position_group r = "Forwards" <-> forward_number jersey_number)
  /\ (position_group r = "Backs" <-> ~ forward_number jersey_number).

(** A match is ready for the calibrator: its sheet loads as a table that
    has rows for both teams. *)
Definition match_ready (fs : FileSystem) (m : HistoricalMatch) : Prop :=
  exists df, load_match_squads fs (match_file m) = Ok (Table df)
             /\ ~ no_rows df (home m) /\ ~ no_rows df (away m).

(** The sheet of a match does not load as a table. *)
Definition match_unloadable (fs : FileSystem) (m : HistoricalMatch) : Prop :=
  forall df, load_match_squads fs (match_file m) <> Ok (Table df).

(** The row reports the metrics of the trial run with its own parameters. *)
Definition row_of_trial (erf : R -> R) (fs : FileSystem) (r : GridResult) : Prop :=
  exists metrics,
    evaluate_params erf fs (tactical_weight r) (home_advantage r) = Ok (Some metrics)
    /\ res_rmse r = rmse metrics /\ res_mae r = mae metrics
    /\ res_max_error r = max_error metrics
    /\ res_correct_winners r = correct_winners metrics
    /\ res_accuracy r = accuracy metrics.

End Vocabulary.

(** The two functions on ASCII text.  Every [StrOps] agrees with it there;
    it stands for the interpreter's functions where a closed instance is
    needed, on data that are ASCII. *)
#[local] Instance ascii_ops : StrOps := {|
  str_lower := PyStr.lower;
  str_strip := PyStr.strip;
  str_lower_ascii := fun _ _ => eq_refl;
  str_strip_ascii := fun _ _ => eq_refl
|}.

(* ================================================================== *)
(** * Properties of the identity resolver *)
(* ================================================================== *)

(** ** Letter case and white space on ASCII text *)

Lemma lower_char_code (c : ascii) :
  nat_of_ascii (PyStr.lower_char c)
  = if ((65 <=? nat_of_ascii c) && (nat_of_ascii c <=? 90))%nat
    then (nat_of_ascii c + 32)%nat else nat_of_ascii c.
Proof.
  unfold PyStr.lower_char.
  destruct ((65 <=? nat_of_ascii c) && (nat_of_ascii c <=? 90))%nat eqn:E;
    [|reflexivity].
  apply andb_true_iff in E. destruct E as [E1 E2].
  apply Nat.leb_le in E1, E2. apply nat_ascii_embedding. lia.
Qed.

Lemma nat_of_ascii_inj (c d : ascii) : nat_of_ascii c = nat_of_ascii d -> c = d.
Proof.
  intros H. rewrite <- (ascii_nat_embedding c), <- (ascii_nat_embedding d).
  now rewrite H.
Qed.

Lemma capital_test (c : ascii) :
  ((65 <=? nat_of_ascii c) && (nat_of_ascii c <=? 90))%nat = true <-> capital c.
Proof. unfold capital. rewrite andb_true_iff, !Nat.leb_le. tauto. Qed.

Lemma capital_test_false (c : ascii) :
  ((65 <=? nat_of_ascii c) && (nat_of_ascii c <=? 90))%nat = false <-> ~ capital c.
Proof.
  rewrite <- capital_test.
  now destruct ((65 <=? nat_of_ascii c) && (nat_of_ascii c <=? 90))%nat.
Qed.

Lemma lower_char_eq_iff (c d : ascii) :
  PyStr.lower_char c = PyStr.lower_char d <-> same_letter c d.
Proof.
  unfold same_letter. split.
  - intros H. apply (f_equal nat_of_ascii) in H.
    rewrite !lower_char_code in H.
    destruct ((65 <=? nat_of_ascii c) && (nat_of_ascii c <=? 90))%nat eqn:Ec;
      destruct ((65 <=? nat_of_ascii d) && (nat_of_ascii d <=? 90))%nat eqn:Ed;
      rewrite ?capital_test, ?capital_test_false in Ec;
      rewrite ?capital_test, ?capital_test_false in Ed.
    + left. apply nat_of_ascii_inj. lia.
    + right; left. split; [exact Ec | lia].
    + right; right. split; [exact Ed | lia].
    + left. now apply nat_of_ascii_inj.
  - intros [->|[[Hc Hd]|[Hd Hc]]]; [reflexivity| |];
      apply nat_of_ascii_inj; rewrite !lower_char_code.
    + rewrite (proj2 (capital_test c) Hc).
      assert (N : ~ capital d) by (unfold capital in *; lia).
      rewrite (proj2 (capital_test_false d) N). lia.
    + rewrite (proj2 (capital_test d) Hd).
      assert (N : ~ capital c) by (unfold capital in *; lia).
      rewrite (proj2 (capital_test_false c) N). lia.
Qed.

Lemma lower_eq_iff (s t : string) :
  PyStr.lower s = PyStr.lower t <-> same_letters s t.
Proof.
  split.
  - revert t. induction s as [|c s IH]; intros [|d t] H; simpl in H;
      try discriminate; [constructor|].
    injection H as Hc Hs. constructor; [now apply lower_char_eq_iff | now apply IH].
  - induction 1 as [|c d s t Hc _ IH]; simpl; [reflexivity|].
    f_equal; [now apply lower_char_eq_iff | exact IH].
Qed.

Lemma lower_char_not_capital (c : ascii) : ~ capital (PyStr.lower_char c).
Proof.
  unfold capital at 1. rewrite lower_char_code.
  destruct ((65 <=? nat_of_ascii c) && (nat_of_ascii c <=? 90))%nat eqn:E.
  - apply capital_test in E. unfold capital in E. lia.
  - apply capital_test_false in E. exact E.
Qed.

Lemma lower_char_same_letter (c : ascii) : same_letter c (PyStr.lower_char c).
Proof.
  unfold same_letter.
  destruct ((65 <=? nat_of_ascii c) && (nat_of_ascii c <=? 90))%nat eqn:E.
  - right; left. rewrite lower_char_code, E. apply capital_test in E. now split.
  - left. unfold PyStr.lower_char. now rewrite E.
Qed.

Lemma lower_small_letters (s : string) : small_letters_of s (PyStr.lower s).
Proof.
  split.
  - induction s as [|c s IH]; simpl; constructor;
      [apply lower_char_same_letter | exact IH].
  - induction s as [|c s IH]; simpl; [exact I|].
    split; [apply lower_char_not_capital | exact IH].
Qed.

Lemma is_space_blank (c : ascii) : PyStr.is_space c = true <-> blank c.
Proof.
  unfold PyStr.is_space, blank. cbn [In].
  rewrite orb_true_iff, !andb_true_iff, !Nat.leb_le. lia.
Qed.

Lemma is_space_not_blank (c : ascii) : PyStr.is_space c = false <-> ~ blank c.
Proof.
  rewrite <- is_space_blank. now destruct (PyStr.is_space c).
Qed.

Lemma lstrip_spec (s : string) :
  exists pre,
    s = (pre ++ PyStr.lstrip s)%string /\ all_chars blank pre
    /\ forall c t, PyStr.lstrip s = String c t -> ~ blank c.
Proof.
  induction s as [|a s (pre & E & Hpre & Hc)]; simpl.
  - exists EmptyString. repeat split. discriminate.
  - destruct (PyStr.is_space a) eqn:Ea.
    + exists (String a pre). simpl. rewrite <- E.
      repeat split; [now apply is_space_blank | exact Hpre | exact Hc].
    + exists EmptyString. repeat split.
      intros c t H. injection H as <- _. now apply is_space_not_blank.
Qed.

Lemma append_last_not_empty (t : string) (c : ascii) :
  (t ++ String c EmptyString)%string <> EmptyString.
Proof. destruct t; discriminate. Qed.

Lemma rstrip_spec (s : string) :
  exists post,
    s = (PyStr.rstrip s ++ post)%string /\ all_chars blank post
    /\ forall c t, PyStr.rstrip s = (t ++ String c EmptyString)%string -> ~ blank c.
Proof.
  induction s as [|a s (post & E & Hpost & Hc)]; simpl.
  - exists EmptyString. repeat split.
    intros c t H. symmetry in H. now apply append_last_not_empty in H.
  - destruct (PyStr.rstrip s) as [|b r] eqn:R.
    + simpl in E. subst post.
      destruct (PyStr.is_space a) eqn:Ea.
      * exists (String a s). repeat split; [now apply is_space_blank | exact Hpost|].
        intros c t H. symmetry in H. now apply append_last_not_empty in H.
      * exists s. repeat split; [exact Hpost|].
        intros c [|x t] H; simpl in H.
        -- injection H as <-. now apply is_space_not_blank.
        -- injection H as _ H. symmetry in H.
           now apply append_last_not_empty in H.
    + exists post. split; [simpl; now rewrite E at 1|]. split; [exact Hpost|].
      intros c [|x t] H; simpl in H; [discriminate|].
      injection H as _ H. now apply (Hc c t).
Qed.

Lemma rstrip_head (s : string) (c : ascii) (t : string) :
  PyStr.rstrip s = String c t -> exists t', s = String c t'.
Proof.
  destruct s as [|a s]; simpl; [discriminate|].
  destruct (PyStr.rstrip s); [destruct (PyStr.is_space a)|];
    intros H; try discriminate; injection H as <- _; now eexists.
Qed.

(** [str.strip] on ASCII text removes the white space at both ends and
    nothing else. *)
Lemma strip_trimmed_to (s : string) : trimmed_to s (PyStr.strip s).
Proof.
  unfold PyStr.strip.
  destruct (lstrip_spec s) as (pre & E1 & Hpre & Hfirst).
  destruct (rstrip_spec (PyStr.lstrip s)) as (post & E2 & Hpost & Hlast).
  exists pre, post. split; [now rewrite <- E2|].
  split; [exact Hpre|]. split; [exact Hpost|]. split; [|exact Hlast].
  intros c t H. apply rstrip_head in H. destruct H as [t' H].
  now apply (Hfirst c t').
Qed.

Lemma is_ascii_app (s t : string) :
  PyStr.is_ascii (s ++ t) = PyStr.is_ascii s && PyStr.is_ascii t.
Proof.
  induction s as [|c s IH]; simpl; [reflexivity|]. now rewrite IH, andb_assoc.
Qed.

Lemma strip_is_ascii (s : string) :
  PyStr.is_ascii s = true -> PyStr.is_ascii (PyStr.strip s) = true.
Proof.
  destruct (strip_trimmed_to s) as (pre & post & E & _).
  intros H. rewrite E, !is_ascii_app, !andb_true_iff in H. tauto.
Qed.

Lemma all_chars_app (P : ascii -> Prop) (s t : string) :
  all_chars P (s ++ t) <-> all_chars P s /\ all_chars P t.
Proof. induction s as [|c s IH]; simpl; [tauto|]. rewrite IH. tauto. Qed.

Lemma blanks_is_ascii (s : string) : all_chars blank s -> PyStr.is_ascii s = true.
Proof.
  induction s as [|c s IH]; simpl; [reflexivity|]. intros [Hc Hs].
  rewrite (IH Hs), andb_true_r. apply Nat.ltb_lt.
  unfold blank in Hc. cbn [In] in Hc. lia.
Qed.

Lemma strip_blanks (s : string) : all_chars blank s -> PyStr.strip s = EmptyString.
Proof.
  intros H. destruct (strip_trimmed_to s) as (pre & post & E & _ & _ & Hfirst & _).
  rewrite E in H. apply all_chars_app in H. destruct H as [_ H].
  apply all_chars_app in H. destruct H as [H _].
  destruct (PyStr.strip s) as [|c t]; [reflexivity|].
  exfalso. apply (Hfirst c t eq_refl). exact (proj1 H).
Qed.

Section ResolverProperties.

Context {ops : StrOps}.

Lemma startswith_true_iff (sub s : string) :
  PyStr.startswith sub s = true <-> exists post, s = (sub ++ post)%string.
Proof.
  revert s; induction sub as [|c sub IH]; intros s; simpl.
  - split; [intros _; now exists s | reflexivity].
  - destruct s as [|d s]; [split; [discriminate | intros [post H]; discriminate]|].
    rewrite andb_true_iff, Ascii.eqb_eq, IH. split.
    + intros [-> [post ->]]. now exists post.
    + intros [post H]. inversion H. split; [reflexivity | now exists post].
Qed.

Lemma contains_true_iff (sub s : string) :
  PyStr.contains sub s = true <-> Substring sub s.
Proof.
  induction s as [|c s IH]; simpl.
  - rewrite orb_false_r, startswith_true_iff. split.
    + intros [post H]. now exists EmptyString, post.
    + intros [[|d pre] [post H]]; [now exists post | discriminate].
  - rewrite orb_true_iff, startswith_true_iff, IH. split.
    + intros [[post H] | [pre [post H]]].
      * now exists EmptyString, post.
      * exists (String c pre), post. simpl. now rewrite H.
    + intros [[|d pre] [post H]].
      * left. now exists post.
      * right. simpl in H. inversion H. now exists pre, post.
Qed.

Lemma contains_empty (s : string) : PyStr.contains EmptyString s = true.
Proof. apply contains_true_iff. now exists EmptyString, s. Qed.

Lemma first_where_unique {A : Type} (P : A -> Prop) (l : list A) (r r' : A) :
  first_where P l r -> first_where P l r' -> r = r'.
Proof.
  intros (pre & post & -> & Hr & Hpre) (pre' & post' & E & Hr' & Hpre').
  revert pre' E Hpre'. induction pre as [|a pre IH]; intros [|a' pre'] E Hpre'; simpl in E.
  - now injection E.
  - injection E as E1 E2. subst a'. exfalso. apply (Hpre' r); [now left | exact Hr].
  - injection E as E1 E2. subst a. exfalso. apply (Hpre r'); [now left | exact Hr'].
  - injection E as E1 E2. apply (IH (fun x Hx => Hpre x (or_intror Hx)) pre' E2).
    intros x Hx. apply Hpre'. now right.
Qed.

(** The head of a filtered list is the first element passing the filter. *)
Lemma filter_head_first {A : Type} (f : A -> bool) (l : list A) (r : A) (rest : list A) :
  filter f l = r :: rest -> first_where (fun x => f x = true) l r.
Proof.
  induction l as [|a l IH]; simpl; [discriminate|].
  destruct (f a) eqn:Fa.
  - intros E. inversion E; subst. exists [], l. repeat split; auto; intros x [].
  - intros E. destruct (IH E) as (pre & post & -> & Hr & Hpre).
    exists (a :: pre), post. repeat split; auto;
    intros x [<-|Hx]; [congruence | now apply Hpre].
Qed.

Lemma filter_nil_none {A : Type} (f : A -> bool) (l : list A) :
  filter f l = [] -> forall x, In x l -> f x = false.
Proof.
  induction l as [|a l IH]; simpl; [intros _ x []|].
  destruct (f a) eqn:Fa; [discriminate|].
  intros E x [<-|Hx]; auto.
Qed.

(** A first element of a filtered list is a first element of the list for
    the conjunction of the two tests. *)
Lemma first_where_filter {A : Type} (g : A -> bool) (P : A -> Prop)
    (l : list A) (r : A) :
  first_where P (filter g l) r ->
  first_where (fun x => g x = true /\ P x) l r.
Proof.
  intros (pre & post & E & Hr & Hpre).
  revert pre E Hpre. induction l as [|a l IH]; intros pre E Hpre; simpl in E.
  - destruct pre; discriminate.
  - destruct (g a) eqn:Ga.
    + destruct pre as [|b pre]; simpl in E; inversion E; subst.
      * exists [], l. repeat split; auto; intros x [].
      * destruct (IH pre H1 (fun x Hx => Hpre x (or_intror Hx)))
          as (pre' & post' & -> & Hr' & Hpre').
        exists (b :: pre'), post'. repeat split; try tauto.
        intros x [Hx|Hx]; [intros [_ HP]; apply (Hpre x); [now left | exact HP]
                          | now apply Hpre'].
    + destruct (IH pre E Hpre) as (pre' & post' & -> & Hr' & Hpre').
      exists (a :: pre'), post'. repeat split; try tauto.
      intros x [Hx|Hx]; [intros [Gx _]; congruence | now apply Hpre'].
Qed.

Lemma partial_scan_first (cn : string) (l : list PlayerRecord) (r : PlayerRecord) :
  partial_scan cn l = Some r ->
  first_where (fun x => partial_match cn x = true) l r.
Proof.
  induction l as [|a l IH]; simpl; [discriminate|].
  destruct (partial_match cn a) eqn:Pa.
  - intros E; inversion E; subst. exists [], l. repeat split; auto; intros x [].
  - intros E. destruct (IH E) as (pre & post & -> & Hr & Hpre).
    exists (a :: pre), post. repeat split; auto;
    intros x [<-|Hx]; [congruence | now apply Hpre].
Qed.

Lemma partial_scan_none (cn : string) (l : list PlayerRecord) :
  partial_scan cn l = None -> forall x, In x l -> partial_match cn x = false.
Proof.
  induction l as [|a l IH]; simpl; [intros _ x []|].
  destruct (partial_match cn a) eqn:Pa; [discriminate|].
  intros E x [<-|Hx]; auto.
Qed.

Lemma country_rows_iff (team : string) (db : list PlayerRecord) (r : PlayerRecord) :
  In r (country_rows team db) <-> In r db /\ same_country team r.
Proof.
  unfold country_rows, same_country. rewrite filter_In, String.eqb_eq. tauto.
Qed.

Lemma normalize_name_trimmed_lowered (name : option string) :
  normalize_name name = trimmed_lowered name.
Proof. destruct name; reflexivity. Qed.

Lemma exact_match_iff (q : option string) (r : PlayerRecord) :
  exact_match (normalize_name q) r = true <-> exact_name q r.
Proof.
  unfold exact_match, exact_name.
  rewrite !normalize_name_trimmed_lowered. apply String.eqb_eq.
Qed.

Lemma partial_match_iff (q : option string) (r : PlayerRecord) :
  partial_match (normalize_name q) r = true <-> contained_name q r.
Proof.
  unfold partial_match, contained_name.
  now rewrite !normalize_name_trimmed_lowered, orb_true_iff, !contains_true_iff.
Qed.

Lemma first_where_ext {A : Type} (P1 P2 : A -> Prop) (l : list A) (r : A) :
  (forall x, P1 x <-> P2 x) -> first_where P1 l r -> first_where P2 l r.
Proof.
  intros H (pre & post & E & Hr & Hpre). exists pre, post.
  repeat split; auto; [now apply H | intros x Hx HQ; apply (Hpre x Hx); now apply H].
Qed.

Lemma same_country_eqb (team : string) (x : PlayerRecord) :
  String.eqb (str_lower (db_country x)) (str_lower team) = true
  <-> same_country team x.
Proof. apply String.eqb_eq. Qed.

Lemma match_player_data_in (q : option string) (team : string)
    (db : list PlayerRecord) (r : PlayerRecord) :
  match_player_data q team db = Some r -> In r db /\ same_country team r.
Proof.
  unfold match_player_data.
  destruct (filter (exact_match (normalize_name q)) (country_rows team db))
    as [|f rest] eqn:F.
  - intros E. apply partial_scan_first in E.
    destruct E as (pre & post & E & _). apply country_rows_iff.
    rewrite E. apply in_or_app. right. now left.
  - intros E. injection E as ->. apply country_rows_iff.
    assert (In r (filter (exact_match (normalize_name q)) (country_rows team db)))
      as Hin by (rewrite F; now left).
    now apply filter_In in Hin.
Qed.

Lemma match_player_data_exact (q : option string) (team : string)
    (db : list PlayerRecord) :
  (exists r, In r db /\ same_country team r /\ exact_name q r) ->
  exists r, match_player_data q team db = Some r
            /\ first_where (fun x => same_country team x /\ exact_name q x) db r.
Proof.
  unfold match_player_data. intros (r0 & Hin & Hc & He).
  destruct (filter (exact_match (normalize_name q)) (country_rows team db))
    as [|f rest] eqn:F.
  - exfalso. assert (exact_match (normalize_name q) r0 = false) as Hf.
    { apply (filter_nil_none _ _ F). now apply country_rows_iff. }
    apply exact_match_iff in He. congruence.
  - exists f. split; [reflexivity|].
    apply filter_head_first in F.
    apply (first_where_ext _ (fun x => exact_name q x)) in F;
      [| intros x; apply exact_match_iff].
    apply first_where_filter in F.
    eapply first_where_ext; [|exact F]. intros x. simpl. now rewrite same_country_eqb.
Qed.

Lemma match_player_data_partial (q : option string) (team : string)
    (db : list PlayerRecord) :
  (forall r, In r db -> same_country team r -> ~ exact_name q r) ->
  (exists r, match_player_data q team db = Some r
             /\ first_where (fun x => same_country team x /\ contained_name q x) db r)
  \/ (match_player_data q team db = None
      /\ forall r, In r db -> same_country team r -> ~ contained_name q r).
Proof.
  unfold match_player_data. intros Hno.
  destruct (filter (exact_match (normalize_name q)) (country_rows team db))
    as [|f rest] eqn:F.
  - destruct (partial_scan (normalize_name q) (country_rows team db)) as [r|] eqn:S.
    + left. exists r. split; [reflexivity|].
      apply partial_scan_first in S.
      apply (first_where_ext _ (fun x => contained_name q x)) in S;
        [| intros x; apply partial_match_iff].
      apply first_where_filter in S.
      eapply first_where_ext; [|exact S]. intros x. simpl. now rewrite same_country_eqb.
    + right. split; [reflexivity|]. intros r Hin Hc Hp.
      assert (partial_match (normalize_name q) r = false) as Hf.
      { apply (partial_scan_none _ _ S). now apply country_rows_iff. }
      apply partial_match_iff in Hp. congruence.
  - exfalso.
    assert (In f (filter (exact_match (normalize_name q)) (country_rows team db)))
      as Hin by (rewrite F; now left).
    apply filter_In in Hin. destruct Hin as [Hin He].
    apply country_rows_iff in Hin. apply (Hno f); try tauto.
    now apply exact_match_iff.
Qed.

(** On ASCII text the two notions are the plain ones: the countries are
    the same when they are equal up to letter case, and the normalized name
    is the name without the white space around it, in small letters. *)
Lemma same_country_ascii (team : string) (x : PlayerRecord) :
  PyStr.is_ascii (db_country x) = true -> PyStr.is_ascii team = true ->
  (same_country team x <-> same_letters (db_country x) team).
Proof.
  intros Hx Ht. unfold same_country.
  rewrite (str_lower_ascii _ Hx), (str_lower_ascii _ Ht). apply lower_eq_iff.
Qed.

Lemma trimmed_lowered_ascii (s : string) :
  PyStr.is_ascii s = true ->
  exists core, trimmed_to s core
               /\ small_letters_of core (trimmed_lowered (Some s)).
Proof.
  intros Hs. exists (PyStr.strip s). split; [apply strip_trimmed_to|].
  unfold trimmed_lowered. rewrite (str_strip_ascii s Hs).
  rewrite (str_lower_ascii _ (strip_is_ascii s Hs)). apply lower_small_letters.
Qed.

(** C4. For every query, team and rating table: a returned record is a
    record of the table of the same country (compared case-insensitively);
    when some record of that country has the query's normalized name, the
    first such record in table order is returned; only when there is none
    the result is the first record of that country, in table order, whose
    normalized name contains the normalized query or is contained in it,
    and "no match" when there is none either.

    Countries are compared lower-cased and names trimmed and lower-cased
    with the interpreter's [str.lower] and [str.strip]; on ASCII text this
    means that the countries are equal up to letter case, and that the
    normalized name is the name without the white space around it, in small
    letters. *)
Theorem match_player_data_exact_then_first_containment
    (q : option string) (team : string) (db : list PlayerRecord) :
  (forall r, match_player_data q team db = Some r ->
             In r db /\ same_country team r)
  /\ ((exists r, In r db /\ same_country team r /\ exact_name q r) ->
      exists r, match_player_data q team db = Some r
                /\ first_where (fun x => same_country team x /\ exact_name q x) db r)
  /\ ((forall r, In r db -> same_country team r -> ~ exact_name q r) ->
      (exists r, match_player_data q team db = Some r
                 /\ first_where (fun x => same_country team x /\ contained_name q x) db r)
      \/ (match_player_data q team db = None
          /\ forall r, In r db -> same_country team r -> ~ contained_name q r))
  /\ (forall x, PyStr.is_ascii (db_country x) = true ->
                PyStr.is_ascii team = true ->
                (same_country team x <-> same_letters (db_country x) team))
  /\ (forall s, PyStr.is_ascii s = true ->
                exists core,
                  trimmed_to s core
                  /\ small_letters_of core (trimmed_lowered (Some s))).
Proof.
  split; [|split; [|split; [|split]]].
  - intros r. apply match_player_data_in.
  - apply match_player_data_exact.
  - apply match_player_data_partial.
  - intros x. apply same_country_ascii.
  - apply trimmed_lowered_ascii.
Qed.

Lemma blank_is_contained (q : option string) (r : PlayerRecord) :
  trimmed_lowered q = EmptyString -> partial_match (normalize_name q) r = true.
Proof.
  intros H. rewrite normalize_name_trimmed_lowered, H.
  unfold partial_match. now rewrite contains_empty.
Qed.

(** C10 (amended). For a team with at least one record, a query that
    normalizes to the empty string is never unresolved: the result is the
    first record of that country whose own normalized name is empty when
    there is one (exact pass), and otherwise the first record of that
    country in table order (containment pass).  Normalizing is the
    interpreter's: a name made of blanks, of no-break spaces or of any
    other white space of [str.strip] is such a query. *)
Theorem blank_query_resolves (q : option string) (team : string)
    (db : list PlayerRecord) :
  trimmed_lowered q = EmptyString ->
  (exists x, In x db /\ same_country team x) ->
  exists r,
    match_player_data q team db = Some r
    /\ ((exists x, In x db /\ same_country team x
                   /\ trimmed_lowered (db_name x) = EmptyString) ->
        first_where (fun x => same_country team x
                              /\ trimmed_lowered (db_name x) = EmptyString) db r)
    /\ ((forall x, In x db -> same_country team x ->
                   trimmed_lowered (db_name x) <> EmptyString) ->
        first_where (same_country team) db r).
Proof.
  intros Hq (x0 & Hin0 & Hc0).
  pose proof (match_player_data_exact q team db) as Hexact.
  pose proof (match_player_data_partial q team db) as Hpart.
  assert (Hex_iff : forall x, exact_name q x <-> trimmed_lowered (db_name x) = EmptyString)
    by (intros x; unfold exact_name; now rewrite Hq).
  assert (Hcont : forall x, contained_name q x)
    by (intros x; apply partial_match_iff; now apply blank_is_contained).
  destruct (filter (exact_match (normalize_name q)) (country_rows team db))
    as [|f rest] eqn:F.
  - (* no record with an empty name: the containment pass answers *)
    assert (Hno : forall r, In r db -> same_country team r -> ~ exact_name q r).
    { intros r Hin Hc He.
      assert (exact_match (normalize_name q) r = false) as Hf
        by (apply (filter_nil_none _ _ F); now apply country_rows_iff).
      apply exact_match_iff in He. congruence. }
    destruct (Hpart Hno) as [(r & Hr & Hfirst) | (_ & Hnone)].
    + exists r. split; [exact Hr|]. split.
      * intros (x & Hin & Hc & Hx). exfalso. apply (Hno x Hin Hc). now apply Hex_iff.
      * intros _. eapply first_where_ext; [|exact Hfirst].
        intros x; simpl; split; [tauto | intros Hc; split; [exact Hc | apply Hcont]].
    + exfalso. apply (Hnone x0 Hin0 Hc0). apply Hcont.
  - (* some record with an empty name: the exact pass answers *)
    assert (In f (filter (exact_match (normalize_name q)) (country_rows team db))) as Hin
      by (rewrite F; now left).
    apply filter_In in Hin. destruct Hin as [Hin He].
    apply country_rows_iff in Hin. apply exact_match_iff in He.
    destruct Hexact as (r & Hr & Hfirst); [exists f; tauto|].
    exists r. split; [exact Hr|]. split.
    + intros _. eapply first_where_ext; [|exact Hfirst].
      intros x; simpl. now rewrite Hex_iff.
    + intros Hall. exfalso. apply (Hall f); try tauto. now apply Hex_iff.
Qed.

(** A name made of ASCII white space only normalizes to the empty
    string. *)
Lemma blank_name_trimmed_lowered (s : string) :
  all_chars blank s -> trimmed_lowered (Some s) = EmptyString.
Proof.
  intros H. unfold trimmed_lowered.
  rewrite (str_strip_ascii s (blanks_is_ascii s H)), (strip_blanks s H).
  now rewrite (str_lower_ascii EmptyString eq_refl).
Qed.

(** X2. [match_player_data] sees the query through its normalized name and
    the team through its lower-cased name only: two queries that are equal
    once trimmed and lower-cased, looked up for two team names that are
    equal once lower-cased, give the same record or the same miss. *)
Theorem match_player_data_sees_normal_forms
    (q q' : option string) (team team' : string) (db : list PlayerRecord) :
  trimmed_lowered q = trimmed_lowered q' ->
  str_lower team = str_lower team' ->
  match_player_data q team db = match_player_data q' team' db.
Proof.
  intros Hq Ht. unfold match_player_data.
  rewrite !normalize_name_trimmed_lowered, Hq.
  assert (E : country_rows team db = country_rows team' db)
    by (unfold country_rows; now rewrite Ht).
  now rewrite E.
Qed.

End ResolverProperties.

Example exact_beats_earlier_containment :
  match_player_data (Some "  antoine DUPONT ") "France" dupont_db
  = Some (mkPlayerRecord (Some "Antoine Dupont") "FRANCE" "Backs" 92).
Proof. reflexivity. Qed.

Example first_containment_in_table_order :
  match_player_data (Some "Dupont") "france" dupont_db
  = Some (mkPlayerRecord (Some "Antoine Dupont-Roc") "France" "Backs" 80).
Proof. reflexivity. Qed.

Example no_match_is_unresolved :
  match_player_data (Some "Romain Ntamack") "France" dupont_db = None.
Proof. reflexivity. Qed.

Lemma match_player_data_sees_normal_forms_witness :
  trimmed_lowered (Some "  antoine DUPONT ") = trimmed_lowered (Some "Antoine Dupont")
  /\ str_lower "FRANCE" = str_lower "France"
  /\ match_player_data (Some "  antoine DUPONT ") "FRANCE" dupont_db
     = match_player_data (Some "Antoine Dupont") "France" dupont_db.
Proof.
  split; [reflexivity|]. split; [reflexivity|].
  apply (match_player_data_sees_normal_forms
           (Some "  antoine DUPONT ") (Some "Antoine Dupont") "FRANCE" "France"
           dupont_db); reflexivity.
Defined.

(** ** Queries that normalize to the empty string *)

(** C10, as stated, fails: a blank query is answered by the exact pass when
    some record of the country has itself an empty normalized name, and that
    record need not be the first one of the country. *)
Lemma blank_query_not_first_record :
  trimmed_lowered (Some "  ") = EmptyString
  /\ (exists x, In x blank_name_db /\ same_country "France" x)
  /\ exists r, match_player_data (Some "  ") "France" blank_name_db = Some r
               /\ ~ first_where (same_country "France") blank_name_db r.
Proof.
  split; [reflexivity|]. split; [eexists; split; [now left | reflexivity]|].
  exists (mkPlayerRecord None "France" "Forwards" 70). split; [reflexivity|].
  intros H.
  assert (first_where (same_country "France") blank_name_db
            (mkPlayerRecord (Some "Antoine Dupont") "France" "Backs" 92)) as H0.
  { exists [], [mkPlayerRecord None "France" "Forwards" 70].
    repeat split; auto; intros x []. }
  pose proof (first_where_unique _ _ _ _ H H0) as E. discriminate E.
Qed.

Lemma blank_query_resolves_witness :
  trimmed_lowered (Some "   ") = EmptyString
  /\ (exists x, In x dupont_db /\ same_country "France" x)
  /\ exists r,
       match_player_data (Some "   ") "France" dupont_db = Some r
       /\ ((exists x, In x dupont_db /\ same_country "France" x
                      /\ trimmed_lowered (db_name x) = EmptyString) ->
           first_where (fun x => same_country "France" x
                                 /\ trimmed_lowered (db_name x) = EmptyString)
                       dupont_db r)
       /\ ((forall x, In x dupont_db -> same_country "France" x ->
                      trimmed_lowered (db_name x) <> EmptyString) ->
           first_where (same_country "France") dupont_db r).
Proof.
  assert (H : exists x, In x dupont_db /\ same_country "France" x)
    by (eexists; split; [now left | reflexivity]).
  split; [reflexivity|]. split; [exact H|].
  apply (blank_query_resolves (Some "   ") "France" dupont_db); [reflexivity | exact H].
Defined.

(* ================================================================== *)
(** * Properties of the fallback skill and of unresolved entries *)
(* ================================================================== *)

Section FallbackProperties.

Context {ops : StrOps}.

Lemma insert_sorted_perm (x : Q) (l : list Q) :
  Permutation (insert_sorted x l) (x :: l).
Proof.
  induction l as [|y l IH]; simpl; [reflexivity|].
  destruct (Qle_bool x y); [reflexivity|].
  rewrite IH. apply perm_swap.
Qed.

Lemma sort_values_perm (l : list Q) : Permutation (sort_values l) l.
Proof.
  induction l as [|x l IH]; simpl; [reflexivity|].
  rewrite insert_sorted_perm. now constructor.
Qed.

Lemma insert_sorted_HdRel (a x : Q) (l : list Q) :
  a <= x -> HdRel Qle a l -> HdRel Qle a (insert_sorted x l).
Proof.
  intros Hax H. destruct l as [|y l]; simpl; [now constructor|].
  destruct (Qle_bool x y); constructor; [exact Hax | now inversion H].
Qed.

Lemma insert_sorted_Sorted (x : Q) (l : list Q) :
  Sorted Qle l -> Sorted Qle (insert_sorted x l).
Proof.
  induction 1 as [|y l Hs IH Hd]; simpl; [repeat constructor|].
  destruct (Qle_bool x y) eqn:E.
  - apply Qle_bool_iff in E. repeat constructor; assumption.
  - constructor; [exact IH|]. apply insert_sorted_HdRel; [|exact Hd].
    apply Qlt_le_weak, Qnot_le_lt. intros Hle. apply Qle_bool_iff in Hle. congruence.
Qed.

Lemma sort_values_Sorted (l : list Q) : Sorted Qle (sort_values l).
Proof.
  induction l as [|x l IH]; simpl; [constructor | now apply insert_sorted_Sorted].
Qed.

Lemma sort_values_length (l : list Q) : List.length (sort_values l) = List.length l.
Proof. apply Permutation_length, sort_values_perm. Qed.

Lemma Qfloor_quarter (k r : nat) :
  (r < 4)%nat -> Qfloor (0.25 * inject_Z (Z.of_nat (4 * k + r))) = Z.of_nat k.
Proof.
  intros Hr. unfold Qfloor, Qmult, inject_Z. cbn [Qnum Qden].
  symmetry. apply (Z.div_unique _ _ _ (25 * Z.of_nat r)); lia.
Qed.

Lemma quantile_is_percentile25 (values : list Q) :
  values <> [] -> percentile25_of values (quantile 0.25 values).
Proof.
  intros Hne. exists (sort_values values).
  split; [apply sort_values_perm|]. split; [apply sort_values_Sorted|].
  set (n := List.length values).
  assert (1 <= n)%nat as Hn by (subst n; destruct values; simpl; [congruence | lia]).
  exists ((n - 1) / 4)%nat, ((n - 1) mod 4)%nat.
  assert ((n - 1) mod 4 < 4)%nat as Hr by (apply Nat.mod_upper_bound; lia).
  pose proof (Nat.div_mod_eq (n - 1) 4) as Hdm.
  set (k := ((n - 1) / 4)%nat) in *. set (r := ((n - 1) mod 4)%nat) in *.
  split; [exact Hdm|]. split; [exact Hr|].
  unfold quantile. rewrite sort_values_length. fold n.
  replace (Z.of_nat n - 1)%Z with (Z.of_nat (4 * k + r)) by lia.
  rewrite (Qfloor_quarter k r Hr).
  replace (Z.to_nat (Z.of_nat k)) with k by lia.
  replace (Z.to_nat (Z.of_nat k + 1)) with (k + 1)%nat by lia.
  set (s := sort_values values). set (a := nth k s 0).
  assert (Hw : 0.25 * inject_Z (Z.of_nat (4 * k + r)) - inject_Z (Z.of_nat k)
               == inject_Z (Z.of_nat r) / 4).
  { rewrite Nat2Z.inj_add, Nat2Z.inj_mul, inject_Z_plus, inject_Z_mult.
    change (inject_Z (Z.of_nat 4)) with 4. field. }
  rewrite Hw.
  destruct (Nat.lt_ge_cases (k + 1) (List.length s)) as [Hlt|Hge].
  - rewrite (nth_indep s a 0 Hlt). ring.
  - assert (r = 0%nat) as ->
      by (unfold s in Hge; rewrite sort_values_length in Hge; fold n in Hge; lia).
    change (inject_Z (Z.of_nat 0)) with 0. field.
Qed.

Example quantile_five_values : quantile 0.25 [80; 70; 90; 60; 75] == 70.
Proof. reflexivity. Qed.

Example quantile_two_values : quantile 0.25 [80; 70] == 72.5.
Proof. reflexivity. Qed.

Lemma _infer_position_group_forwards (j : Z) :
  _infer_position_group j = "Forwards" <-> forward_number j.
Proof.
  unfold _infer_position_group, forward_number.
  destruct (existsb (Z.eqb j) [1; 2; 3; 4; 5; 6; 7; 8; 16; 17; 18; 19; 20]%Z) eqn:E.
  - split; [intros _ | reflexivity].
    apply existsb_exists in E. destruct E as (x & Hin & Hx).
    apply Z.eqb_eq in Hx. subst x. simpl in Hin. lia.
  - split; [discriminate|]. intros H. exfalso.
    assert (existsb (Z.eqb j) [1; 2; 3; 4; 5; 6; 7; 8; 16; 17; 18; 19; 20]%Z = true)
      as E'; [| congruence].
    apply existsb_exists. exists j. split; [simpl; lia | apply Z.eqb_refl].
Qed.

Lemma _infer_position_group_backs (j : Z) :
  _infer_position_group j = "Backs" <-> ~ forward_number j.
Proof.
  rewrite <- _infer_position_group_forwards. unfold _infer_position_group.
  destruct (existsb _ _); split; try discriminate; try congruence; tauto.
Qed.

Lemma team_ratings_country_rows (team : string) (db : list PlayerRecord)
    (ratings : list Q) :
  team_ratings team db ratings ->
  ratings = map db_skill (country_rows team db).
Proof.
  induction 1 as [|r db ratings Hc _ IH|r db ratings Hc _ IH]; simpl.
  - reflexivity.
  - apply same_country_eqb in Hc. rewrite Hc. simpl. now rewrite IH.
  - destruct (String.eqb (str_lower (db_country r)) (str_lower team)) eqn:E;
      [apply same_country_eqb in E; contradiction | exact IH].
Qed.

Lemma country_rows_nil (team : string) (db : list PlayerRecord) :
  (forall x, In x db -> ~ same_country team x) -> country_rows team db = [].
Proof.
  intros H. destruct (country_rows team db) as [|c l] eqn:C; [reflexivity|].
  assert (In c (country_rows team db)) as Hin by (rewrite C; now left).
  apply country_rows_iff in Hin. destruct Hin as [Hin Hc]. destruct (H c Hin Hc).
Qed.

(** No match: no record of the country carries the normalized name of the
    query, contains it or is contained in it. *)
Lemma match_player_data_none_iff (q : option string) (team : string)
    (db : list PlayerRecord) :
  match_player_data q team db = None
  <-> forall r, In r db -> same_country team r ->
                ~ exact_name q r /\ ~ contained_name q r.
Proof.
  split.
  - intros Hnone r Hin Hc.
    assert (Hno : forall x, In x db -> same_country team x -> ~ exact_name q x).
    { intros x Hx Hcx He.
      destruct (match_player_data_exact q team db) as (r' & Hr' & _);
        [now exists x | congruence]. }
    split; [now apply Hno|].
    destruct (match_player_data_partial q team db Hno) as [(r' & Hr' & _)|[_ H]];
      [congruence | now apply H].
  - intros H.
    destruct (match_player_data_partial q team db) as [(r' & Hr' & Hfirst)|[Hn _]];
      [intros r Hin Hc; now apply H | | exact Hn].
    exfalso. destruct Hfirst as (pre & post & E & [Hc Hcont] & _).
    apply (H r'); [rewrite E; apply in_or_app; right; now left | exact Hc | exact Hcont].
Qed.

Lemma resolve_entry_unresolved (team : string) (db : list PlayerRecord)
    (j is_starting : Z) (player : string) :
  match_player_data (Some player) team db = None ->
  let r := resolve_entry team db (get_country_fallback_skill team db)
                         j is_starting player in
  country r = team /\ name r = Some player /\ shirt_number r = Some j
  /\ fallback_record team db j r.
Proof.
  intros Hnone. unfold resolve_entry. rewrite Hnone. simpl.
  repeat split; simpl;
    try apply _infer_position_group_forwards; try apply _infer_position_group_backs.
  - intros Hno. unfold get_country_fallback_skill.
    rewrite (country_rows_nil team db Hno). reflexivity.
  - intros ratings Hr Hne. unfold get_country_fallback_skill.
    rewrite (team_ratings_country_rows team db ratings Hr) in *.
    destruct (country_rows team db) as [|c l] eqn:C; [now destruct Hne|].
    apply quantile_is_percentile25. discriminate.
Qed.

(** The rows of a loaded squad table, as the loader builds them. *)
Lemma frame_rows_pd_DataFrame (records : list SquadRow) :
  frame_rows (pd_DataFrame records) = records.
Proof. now destruct records. Qed.

Lemma load_match_squads_rows (fs : FileSystem) (file : string) (fr : Frame) :
  load_match_squads fs file = Ok fr ->
  exists team1 team2 db sheet,
    get_teams_from_filename (data_path file) = Ok (team1, team2)
    /\ db_csv fs = Some db
    /\ xlsx fs (data_path file) = Some sheet
    /\ frame_rows fr = flat_map (process_row team1 team2 db
                                   (get_country_fallback_skill team1 db)
                                   (get_country_fallback_skill team2 db))
                                (lineup sheet).
Proof.
  unfold load_match_squads.
  destruct (xlsx fs (data_path file)) as [sheet|]; [|discriminate].
  destruct (db_csv fs) as [db|]; [|discriminate].
  destruct (get_teams_from_filename (data_path file)) as [[team1 team2]|e];
    simpl; [|discriminate].
  destruct (has_Number_column sheet); simpl; [|discriminate].
  destruct (n_columns sheet <? 3)%nat; [discriminate|].
  intros E. injection E as <-.
  exists team1, team2, db, sheet. repeat split. apply frame_rows_pd_DataFrame.
Qed.

(** C5. In a loaded squad table, every lineup entry whose name matches no
    rating record (no record of the team carries its normalized name,
    contains it or is contained in it) yields a row whose skill is the 25th
    percentile of the skills of that team's rating records, or 70 when the
    team has no record at all, and whose position group is Forwards exactly
    for the shirt numbers 1-8 and 16-20 and Backs for all others. *)
Theorem unresolved_entry_gets_fallback (fs : FileSystem) (file : string)
    (fr : Frame) :
  load_match_squads fs file = Ok fr ->
  exists team1 team2 db sheet,
    get_teams_from_filename (data_path file) = Ok (team1, team2)
    /\ db_csv fs = Some db
    /\ xlsx fs (data_path file) = Some sheet
    /\ forall row j, In row (lineup sheet) -> Number row = Some j ->
       (forall p, team1_cell row = Some p ->
                  unmatched team1 db p ->
                  exists r, In r (frame_rows fr) /\ country r = team1
                            /\ name r = Some p /\ shirt_number r = Some j
                            /\ fallback_record team1 db j r)
       /\ (forall p, team2_cell row = Some p ->
                     unmatched team2 db p ->
                     exists r, In r (frame_rows fr) /\ country r = team2
                               /\ name r = Some p /\ shirt_number r = Some j
                               /\ fallback_record team2 db j r).
Proof.
  intros Hload.
  destruct (load_match_squads_rows fs file fr Hload)
    as (team1 & team2 & db & sheet & Ht & Hdb & Hx & Hrows).
  exists team1, team2, db, sheet.
  split; [exact Ht|]. split; [exact Hdb|]. split; [exact Hx|].
  intros row j Hrow Hj. split; intros p Hp Hnone;
    apply match_player_data_none_iff in Hnone.
  - set (st := if (j <=? 15)%Z then 1%Z else 0%Z).
    exists (resolve_entry team1 db (get_country_fallback_skill team1 db) j st p).
    split; [| now apply resolve_entry_unresolved].
    rewrite Hrows. apply in_flat_map. exists row. split; [exact Hrow|].
    unfold process_row. rewrite Hj, Hp. fold st. apply in_or_app. left. now left.
  - set (st := if (j <=? 15)%Z then 1%Z else 0%Z).
    exists (resolve_entry team2 db (get_country_fallback_skill team2 db) j st p).
    split; [| now apply resolve_entry_unresolved].
    rewrite Hrows. apply in_flat_map. exists row. split; [exact Hrow|].
    unfold process_row. rewrite Hj, Hp. fold st. apply in_or_app. right. now left.
Qed.

End FallbackProperties.

Example teams_of_a_file_name :
  get_teams_from_filename "data/France-Ireland.xlsx" = Ok ("France", "Ireland")
  /\ get_teams_from_filename "data/ Wales - France .v2.xlsx" = Ok ("Wales", "France .v2")
  /\ get_teams_from_filename "data/France.xlsx" = Raised ValueError
  /\ get_teams_from_filename "data/A-B-C.xlsx" = Raised ValueError.
Proof. repeat split. Qed.

Example sample_squads :
  load_match_squads sample_fs "France-Ireland.xlsx"
  = Ok (Table {| has_shirt_number := true;
          rows :=
            [ mkSquadRow "France" (Some "Cyril Baille") "Forwards" 84 1 (Some 1%Z);
              mkSquadRow "Ireland" (Some "Andrew Porter") "Forwards" 86 1 (Some 1%Z);
              mkSquadRow "France" (Some "Maxime Lucu") "Backs"
                (get_country_fallback_skill "France" sample_db) 1 (Some 9%Z);
              mkSquadRow "Ireland" (Some "Jamison Gibson-Park") "Backs" 89 1 (Some 9%Z);
              mkSquadRow "France" (Some "Peato Mauvaka") "Forwards"
                (get_country_fallback_skill "France" sample_db) 0 (Some 16%Z);
              mkSquadRow "Ireland" (Some "Dan Sheehan") "Forwards"
                (get_country_fallback_skill "Ireland" sample_db) 0 (Some 16%Z) ] |}).
Proof. reflexivity. Qed.

Example sample_fallbacks :
  get_country_fallback_skill "France" sample_db == 87
  /\ get_country_fallback_skill "Ireland" sample_db == 86.75
  /\ get_country_fallback_skill "Wales" sample_db == 70.
Proof. repeat split. Qed.

Lemma unresolved_entry_gets_fallback_witness :
  exists fr,
    load_match_squads sample_fs "France-Ireland.xlsx" = Ok fr
    /\ exists team1 team2 db sheet,
      get_teams_from_filename (data_path "France-Ireland.xlsx") = Ok (team1, team2)
      /\ db_csv sample_fs = Some db
      /\ xlsx sample_fs (data_path "France-Ireland.xlsx") = Some sheet
      /\ forall row j, In row (lineup sheet) -> Number row = Some j ->
         (forall p, team1_cell row = Some p ->
                    unmatched team1 db p ->
                    exists r, In r (frame_rows fr) /\ country r = team1
                              /\ name r = Some p /\ shirt_number r = Some j
                              /\ fallback_record team1 db j r)
         /\ (forall p, team2_cell row = Some p ->
                       unmatched team2 db p ->
                       exists r, In r (frame_rows fr) /\ country r = team2
                                 /\ name r = Some p /\ shirt_number r = Some j
                                 /\ fallback_record team2 db j r).
Proof.
  eexists. split; [reflexivity|].
  apply (unresolved_entry_gets_fallback sample_fs "France-Ireland.xlsx").
  reflexivity.
Defined.

(* ================================================================== *)
(** * Properties of the fusion model *)
(* ================================================================== *)

Lemma get_tactical_metrics_none_iff (df : DataFrame) (team : string)
    (params : ParameterSet) :
  get_tactical_metrics df team params = None <-> no_rows df team.
Proof.
  unfold get_tactical_metrics, df_empty, df_filter, no_rows. simpl.
  destruct (filter (fun r => String.eqb (country r) team) (rows df)) as [|x l] eqn:F.
  - split; [intros _ | reflexivity]. intros r Hin Hc.
    pose proof (filter_nil_none _ _ F r Hin) as Hf. simpl in Hf.
    apply String.eqb_neq in Hf. contradiction.
  - split; [discriminate|]. intros Hno. exfalso.
    assert (In x (filter (fun r => String.eqb (country r) team) (rows df))) as Hin
      by (rewrite F; now left).
    apply filter_In in Hin. destruct Hin as [Hin Hc].
    apply String.eqb_eq in Hc. exact (Hno x Hin Hc).
Qed.

Lemma simulate_match_prediction (erf : R -> R) (home away : string)
    (df : DataFrame) (params : ParameterSet) (h a : TeamMetrics) :
  get_tactical_metrics df home params = Some h ->
  get_tactical_metrics df away params = Some a ->
  simulate_match erf home away df params
  = SimPrediction home away (fused_margin params home away h a)
      (prob_home_of erf (fused_margin params home away h a / STD_DEV params))
      {| tactical := apply_mismatch params (pack_difference h a) (base_tactical params h a);
         elo := elo_margin params home away;
         pack_diff := pack_difference h a |}.
Proof.
  intros Hh Ha. unfold simulate_match. rewrite Hh, Ha. reflexivity.
Qed.

Lemma simulate_match_error (erf : R -> R) (home away : string)
    (df : DataFrame) (params : ParameterSet) :
  get_tactical_metrics df home params = None
  \/ get_tactical_metrics df away params = None ->
  simulate_match erf home away df params
  = SimError ("Missing data in CSV for " ++ home ++ " or " ++ away)%string.
Proof.
  unfold simulate_match. intros [H|H]; rewrite H; [reflexivity|].
  now destruct (get_tactical_metrics df home params).
Qed.

Lemma prob_home_of_cdf (erf : R -> R) (z : Q) :
  prob_home_of erf z = std_normal_cdf erf (Q2R z).
Proof. unfold prob_home_of, std_normal_cdf. f_equal. lra. Qed.

(** ** What is used of [math.erf] *)

Section ErfFacts.

Variable erf : R -> R.
Hypothesis erf_odd : forall x : R, erf (- x)%R = (- erf x)%R.
Hypothesis erf_increasing : forall x y : R, (x < y)%R -> (erf x < erf y)%R.
Hypothesis erf_range : forall x : R, (-1 <= erf x <= 1)%R.

Lemma erf_0 : erf 0%R = 0%R.
Proof using erf_odd.
  pose proof (erf_odd 0%R) as H. rewrite Ropp_0 in H. lra.
Qed.

Lemma erf_zero_iff (x : R) : erf x = 0%R <-> x = 0%R.
Proof using erf_odd erf_increasing.
  split; [|intros ->; apply erf_0].
  intros H. destruct (Rtotal_order x 0) as [Hlt|[Heq|Hgt]]; [|exact Heq|].
  - apply erf_increasing in Hlt. rewrite erf_0 in Hlt. lra.
  - apply erf_increasing in Hgt. rewrite erf_0 in Hgt. lra.
Qed.

Lemma cdf_range (x : R) : (0 <= std_normal_cdf erf x <= 1)%R.
Proof using erf_range.
  unfold std_normal_cdf. pose proof (erf_range (x / sqrt 2)). lra.
Qed.

Lemma cdf_half_iff (x : R) : std_normal_cdf erf x = (1 / 2)%R <-> x = 0%R.
Proof using erf_odd erf_increasing.
  unfold std_normal_cdf.
  assert (0 < sqrt 2)%R as Hs by (apply sqrt_lt_R0; lra).
  split.
  - intros H. assert (erf (x / sqrt 2) = 0%R) as H0 by lra.
    apply (proj1 (erf_zero_iff _)) in H0.
    replace x with (x / sqrt 2 * sqrt 2)%R by (field; lra). rewrite H0. ring.
  - intros ->. replace (0 / sqrt 2)%R with 0%R by (field; lra).
    rewrite erf_0. lra.
Qed.


End ErfFacts.

Lemma Qdiv_zero_iff (m s : Q) : 0 < s -> (m / s == 0 <-> m == 0).
Proof.
  intros Hs.
  assert (~ s == 0) as Hs' by (intros E; rewrite E in Hs; discriminate Hs).
  split; intros H.
  - setoid_replace m with (m / s * s) by (field; exact Hs'). rewrite H. ring.
  - rewrite H. field. exact Hs'.
Qed.

(** ** Binary64 arithmetic *)

(** *** Powers of two *)

Lemma pow2_pos (e : Z) : 0 < pow2 e.
Proof. apply Qpower_0_lt. reflexivity. Qed.

Lemma pow2_plus (a b : Z) : pow2 (a + b) == pow2 a * pow2 b.
Proof. apply Qpower_plus. discriminate. Qed.

Lemma pow2_le (a b : Z) : (a <= b)%Z -> pow2 a <= pow2 b.
Proof. intros H. apply Qpower_le_compat_l; [exact H | discriminate]. Qed.

Lemma pow2_lt (a b : Z) : (a < b)%Z -> pow2 a < pow2 b.
Proof. intros H. apply Qpower_lt_compat_l; [exact H | reflexivity]. Qed.

Lemma pow2_lt_inv (a b : Z) : pow2 a < pow2 b -> (a < b)%Z.
Proof. intros H. apply (Qpower_lt_compat_l_inv 2); [exact H | reflexivity]. Qed.

Lemma pow2_nonneg_Z (n : Z) : (0 <= n)%Z -> pow2 n == inject_Z (2 ^ n).
Proof. intros H. unfold pow2. now rewrite Zpower_Qpower. Qed.

Lemma pow2_minus (a b : Z) : pow2 (a - b) == pow2 a / pow2 b.
Proof.
  unfold Z.sub. rewrite pow2_plus. unfold pow2 at 2. rewrite Qpower_opp. reflexivity.
Qed.

Lemma pow2_div_int (k e : Z) :
  (e <= k)%Z -> pow2 k / pow2 e == inject_Z (2 ^ (k - e)).
Proof.
  intros H. rewrite <- pow2_minus. apply pow2_nonneg_Z. lia.
Qed.

(** *** The magnitude *)

Lemma Zlog2_bounds (n : Z) :
  (0 < n)%Z -> inject_Z (2 ^ Z.log2 n) <= inject_Z n /\ inject_Z n < inject_Z (2 ^ (Z.log2 n + 1)).
Proof.
  intros H. destruct (Z.log2_spec n H) as [H1 H2].
  split; [now rewrite <- Zle_Qle | rewrite <- Zlt_Qlt; now rewrite <- Z.add_1_r in H2].
Qed.

Lemma Qabs_num_den (x : Q) :
  Qabs x == inject_Z (Z.abs (Qnum x)) / inject_Z (Zpos (Qden x)).
Proof.
  destruct x as [n d]. unfold Qabs. cbn [Qnum Qden].
  rewrite (Qmake_Qdiv (Z.abs n) d). reflexivity.
Qed.

Lemma mag_rough (x : Q) :
  ~ x == 0 ->
  let k := (Z.log2 (Z.abs (Qnum x)) - Z.log2 (Zpos (Qden x)))%Z in
  pow2 (k - 1) < Qabs x /\ Qabs x < pow2 (k + 1).
Proof.
  intros Hx k.
  assert (Hn : (0 < Z.abs (Qnum x))%Z).
  { destruct x as [n d]. unfold Qeq in Hx. cbn in *. lia. }
  destruct (Zlog2_bounds _ Hn) as [Hn1 Hn2].
  destruct (Zlog2_bounds (Zpos (Qden x)) eq_refl) as [Hd1 Hd2].
  set (a := Z.log2 (Z.abs (Qnum x))) in *.
  set (b := Z.log2 (Zpos (Qden x))) in *.
  assert (Ha : (0 <= a)%Z) by apply Z.log2_nonneg.
  assert (Hb : (0 <= b)%Z) by apply Z.log2_nonneg.
  rewrite <- !pow2_nonneg_Z in Hn1, Hn2, Hd1, Hd2 by lia.
  rewrite Qabs_num_den.
  set (N := inject_Z (Z.abs (Qnum x))) in *.
  set (D := inject_Z (Zpos (Qden x))) in *.
  assert (HD : 0 < D) by (unfold D; reflexivity).
  pose proof (pow2_pos a). pose proof (pow2_pos b).
  subst k. split.
  - apply Qlt_shift_div_l; [exact HD|].
    replace (a - b - 1)%Z with (a - (b + 1))%Z by lia. rewrite pow2_minus.
    pose proof (pow2_pos (b + 1)) as HB.
    set (A := pow2 a) in *. set (B := pow2 (b + 1)) in *.
    assert (E : A / B * B == A) by (field; lra).
    assert (0 < A / B) by (apply Qlt_shift_div_l; lra).
    nra.
  - apply Qlt_shift_div_r; [exact HD|].
    replace (a - b + 1)%Z with (a + 1 - b)%Z by lia. rewrite pow2_minus.
    pose proof (pow2_pos (a + 1)) as HA.
    set (A := pow2 (a + 1)) in *. set (B := pow2 b) in *.
    assert (E : A / B * B == A) by (field; lra).
    assert (0 < A / B) by (apply Qlt_shift_div_l; lra).
    nra.
Qed.

Lemma mag_spec (x : Q) :
  ~ x == 0 -> pow2 (mag x - 1) <= Qabs x /\ Qabs x < pow2 (mag x).
Proof.
  intros Hx. destruct (mag_rough x Hx) as [H1 H2]. unfold mag.
  set (k := (Z.log2 (Z.abs (Qnum x)) - Z.log2 (Zpos (Qden x)))%Z) in *.
  destruct (Qle_bool (pow2 k) (Qabs x)) eqn:E.
  - apply Qle_bool_iff in E. replace (k + 1 - 1)%Z with k by lia. now split.
  - split; [now apply Qlt_le_weak|].
    apply Qnot_le_lt. intros H. apply Qle_bool_iff in H. congruence.
Qed.

Lemma mag_unique (x : Q) (e : Z) :
  pow2 (e - 1) <= Qabs x -> Qabs x < pow2 e -> mag x = e.
Proof.
  intros H1 H2.
  assert (Hx : ~ x == 0).
  { intros E. rewrite E in H1. pose proof (pow2_pos (e - 1)).
    change (Qabs 0) with 0 in H1. lra. }
  destruct (mag_spec x Hx) as [H3 H4].
  assert (pow2 (e - 1) < pow2 (mag x)) as Ha by lra.
  assert (pow2 (mag x - 1) < pow2 e) as Hb by lra.
  apply pow2_lt_inv in Ha, Hb. lia.
Qed.

(** *** Rounding to an integer *)

Lemma round_half_even_cases (x : Q) :
  (round_half_even x = Qfloor x /\ x - inject_Z (Qfloor x) <= 1 # 2)
  \/ (round_half_even x = (Qfloor x + 1)%Z /\ 1 # 2 <= x - inject_Z (Qfloor x)).
Proof.
  unfold round_half_even.
  set (f := Qfloor x). set (d := x - inject_Z f).
  destruct (Qlt_bool d (1 # 2)) eqn:E1.
  - left. split; [reflexivity|].
    unfold Qlt_bool in E1. apply negb_true_iff in E1.
    apply Qlt_le_weak, Qnot_le_lt. intros H. apply Qle_bool_iff in H. congruence.
  - assert (H1 : 1 # 2 <= d).
    { unfold Qlt_bool in E1. apply negb_false_iff in E1. now apply Qle_bool_iff. }
    destruct (Qlt_bool (1 # 2) d) eqn:E2; [right; now split|].
    assert (H2 : d <= 1 # 2).
    { unfold Qlt_bool in E2. apply negb_false_iff in E2. now apply Qle_bool_iff. }
    destruct (Z.even f); [left | right]; now split.
Qed.

Lemma Qfloor_ge (x : Q) (n : Z) : inject_Z n <= x -> (n <= Qfloor x)%Z.
Proof.
  intros H. pose proof (Qlt_floor x) as H1.
  assert (inject_Z n < inject_Z (Qfloor x + 1)) as H2 by lra.
  rewrite <- Zlt_Qlt in H2. lia.
Qed.

(** An integer below the number is below its rounding, an integer above
    it above. *)
Lemma round_half_even_ge (x : Q) (n : Z) :
  inject_Z n <= x -> (n <= round_half_even x)%Z.
Proof.
  intros H. apply Qfloor_ge in H.
  destruct (round_half_even_cases x) as [[-> _]|[-> _]]; lia.
Qed.

Lemma round_half_even_le (x : Q) (n : Z) :
  x <= inject_Z n -> (round_half_even x <= n)%Z.
Proof.
  intros H. pose proof (Qfloor_le x) as Hf.
  destruct (round_half_even_cases x) as [[-> _]|[-> Hd]].
  - rewrite Zle_Qle. lra.
  - assert (inject_Z (Qfloor x) < inject_Z n) as H1 by lra.
    rewrite <- Zlt_Qlt in H1. lia.
Qed.

(** *** Rounding to binary64 *)

Lemma round64_nonzero (x : Q) :
  ~ x == 0 ->
  round64 x = inject_Z (round_half_even (x / pow2 (fexp (mag x)))) * pow2 (fexp (mag x)).
Proof.
  intros H. unfold round64. destruct (Qeq_bool x 0) eqn:E; [|reflexivity].
  apply Qeq_bool_iff in E. contradiction.
Qed.

Lemma round64_zero (x : Q) : x == 0 -> round64 x = 0.
Proof. intros H. unfold round64. apply Qeq_bool_iff in H. now rewrite H. Qed.

Lemma round64_nonneg (x : Q) : 0 <= x -> 0 <= round64 x.
Proof.
  intros H. destruct (Qeq_dec x 0) as [E|E]; [rewrite (round64_zero x E); lra|].
  rewrite (round64_nonzero x E).
  pose proof (pow2_pos (fexp (mag x))) as Hp.
  apply Qmult_le_0_compat; [|lra].
  change 0 with (inject_Z 0). rewrite <- Zle_Qle. apply round_half_even_ge.
  change (inject_Z 0) with 0. apply Qle_shift_div_l; [exact Hp | lra].
Qed.

Lemma round64_nonpos (x : Q) : x <= 0 -> round64 x <= 0.
Proof.
  intros H. destruct (Qeq_dec x 0) as [E|E]; [rewrite (round64_zero x E); lra|].
  rewrite (round64_nonzero x E).
  pose proof (pow2_pos (fexp (mag x))) as Hp.
  assert (round_half_even (x / pow2 (fexp (mag x))) <= 0)%Z as Hr.
  { apply round_half_even_le. change (inject_Z 0) with 0.
    apply Qle_shift_div_r; [exact Hp | lra]. }
  rewrite Zle_Qle in Hr. change (inject_Z 0) with 0 in Hr. nra.
Qed.

Lemma fexp_mono (a b : Z) : (a <= b)%Z -> (fexp a <= fexp b)%Z.
Proof. unfold fexp. lia. Qed.

Lemma mag_le_of_abs_le (x : Q) (k : Z) :
  ~ x == 0 -> Qabs x <= pow2 k -> (mag x <= k + 1)%Z.
Proof.
  intros Hx H. destruct (mag_spec x Hx) as [H1 _].
  assert (pow2 (mag x - 1) < pow2 (k + 1)) as Hlt.
  { apply Qle_lt_trans with (pow2 k); [lra | apply pow2_lt; lia]. }
  apply pow2_lt_inv in Hlt. lia.
Qed.

Lemma mag_ge_of_abs_ge (x : Q) (k : Z) :
  pow2 k <= Qabs x -> (k + 1 <= mag x)%Z.
Proof.
  intros H.
  assert (Hx : ~ x == 0).
  { intros E. rewrite E in H. pose proof (pow2_pos k). change (Qabs 0) with 0 in H. lra. }
  destruct (mag_spec x Hx) as [_ H2].
  assert (pow2 k < pow2 (mag x)) as Hlt by lra.
  apply pow2_lt_inv in Hlt. lia.
Qed.

(** A power of two above the number is above its rounding. *)
Lemma round64_le_pow2 (x : Q) (k : Z) :
  (-1074 <= k)%Z -> x <= pow2 k -> round64 x <= pow2 k.
Proof.
  intros Hk H. pose proof (pow2_pos k) as Hpk.
  destruct (Qlt_le_dec 0 x) as [Hpos|Hneg];
    [|pose proof (round64_nonpos x Hneg); lra].
  assert (Hx : ~ x == 0) by lra.
  rewrite (round64_nonzero x Hx).
  set (e := fexp (mag x)). pose proof (pow2_pos e) as Hpe.
  assert (He : (e <= k)%Z).
  { assert (mag x <= k + 1)%Z as Hm
      by (apply mag_le_of_abs_le; [exact Hx | rewrite Qabs_pos; lra]).
    apply fexp_mono in Hm. unfold e. unfold fexp in *. lia. }
  assert (Hr : (round_half_even (x / pow2 e) <= 2 ^ (k - e))%Z).
  { apply round_half_even_le. rewrite <- (pow2_div_int k e He).
    apply Qle_shift_div_l; [exact Hpe|].
    assert (x / pow2 e * pow2 e == x) as E by (field; lra). lra. }
  rewrite Zle_Qle, <- (pow2_div_int k e He) in Hr.
  assert (pow2 k / pow2 e * pow2 e == pow2 k) as E by (field; lra).
  rewrite <- E. apply Qmult_le_compat_r; [exact Hr | lra].
Qed.

(** A power of two below the number is below its rounding. *)
Lemma round64_ge_pow2 (x : Q) (k : Z) :
  (-1074 <= k)%Z -> pow2 k <= x -> pow2 k <= round64 x.
Proof.
  intros Hk H. pose proof (pow2_pos k) as Hpk.
  assert (Hx : ~ x == 0) by lra.
  assert (Habs : Qabs x == x) by (apply Qabs_pos; lra).
  rewrite (round64_nonzero x Hx).
  set (e := fexp (mag x)). pose proof (pow2_pos e) as Hpe.
  assert (Hm : (k + 1 <= mag x)%Z) by (apply mag_ge_of_abs_ge; lra).
  destruct (mag_spec x Hx) as [Hlow _]. rewrite Habs in Hlow.
  assert (He : (e <= mag x - 1)%Z) by (unfold e, fexp; lia).
  assert (Hr : (2 ^ (mag x - 1 - e) <= round_half_even (x / pow2 e))%Z).
  { apply round_half_even_ge. rewrite <- (pow2_div_int (mag x - 1) e He).
    apply Qle_shift_div_r; [exact Hpe|].
    assert (x / pow2 e * pow2 e == x) as E by (field; lra). lra. }
  rewrite Zle_Qle, <- (pow2_div_int (mag x - 1) e He) in Hr.
  assert (pow2 (mag x - 1) / pow2 e * pow2 e == pow2 (mag x - 1)) as E by (field; lra).
  apply Qle_trans with (pow2 (mag x - 1)); [apply pow2_le; lia|].
  rewrite <- E. apply Qmult_le_compat_r; [exact Hr | lra].
Qed.

(** The same below zero. *)
Lemma round64_ge_opp_pow2 (x : Q) (k : Z) :
  (-1074 <= k)%Z -> - pow2 k <= x -> - pow2 k <= round64 x.
Proof.
  intros Hk H. pose proof (pow2_pos k) as Hpk.
  destruct (Qlt_le_dec x 0) as [Hneg|Hpos];
    [|pose proof (round64_nonneg x Hpos); lra].
  assert (Hx : ~ x == 0) by lra.
  rewrite (round64_nonzero x Hx).
  set (e := fexp (mag x)). pose proof (pow2_pos e) as Hpe.
  assert (He : (e <= k)%Z).
  { assert (mag x <= k + 1)%Z as Hm
      by (apply mag_le_of_abs_le; [exact Hx | rewrite Qabs_neg; lra]).
    apply fexp_mono in Hm. unfold e. unfold fexp in *. lia. }
  assert (Hr : (- 2 ^ (k - e) <= round_half_even (x / pow2 e))%Z).
  { apply round_half_even_ge. rewrite inject_Z_opp, <- (pow2_div_int k e He).
    assert (- (pow2 k / pow2 e) == (- pow2 k) / pow2 e) as E1 by (field; lra).
    rewrite E1. apply Qle_shift_div_r; [exact Hpe|].
    assert (x / pow2 e * pow2 e == x) as E by (field; lra). lra. }
  rewrite Zle_Qle, inject_Z_opp, <- (pow2_div_int k e He) in Hr.
  assert (- (pow2 k / pow2 e) * pow2 e == - pow2 k) as E by (field; lra).
  rewrite <- E. apply Qmult_le_compat_r; [exact Hr | lra].
Qed.

Lemma pow2_0 : pow2 0 == 1.
Proof. reflexivity. Qed.

Lemma pow2_1 : pow2 1 == 2.
Proof. reflexivity. Qed.

Lemma pow2_m1 : pow2 (-1) == 1 # 2.
Proof. reflexivity. Qed.

Lemma round64_le_1 (x : Q) : x <= 1 -> round64 x <= 1.
Proof. intros H. rewrite <- pow2_0 in *. apply round64_le_pow2; [lia | exact H]. Qed.

Lemma round64_ge_1 (x : Q) : 1 <= x -> 1 <= round64 x.
Proof. intros H. rewrite <- pow2_0 in *. apply round64_ge_pow2; [lia | exact H]. Qed.

Lemma round64_le_half (x : Q) : x <= 1 # 2 -> round64 x <= 1 # 2.
Proof. intros H. rewrite <- pow2_m1 in *. apply round64_le_pow2; [lia | exact H]. Qed.

Lemma round64_ge_half (x : Q) : 1 # 2 <= x -> 1 # 2 <= round64 x.
Proof. intros H. rewrite <- pow2_m1 in *. apply round64_ge_pow2; [lia | exact H]. Qed.

Lemma round64_ge_m1 (x : Q) : - (1) <= x -> - (1) <= round64 x.
Proof.
  intros H. setoid_replace (- (1)) with (- pow2 0) by reflexivity.
  apply round64_ge_opp_pow2; [lia|]. rewrite pow2_0. exact H.
Qed.

Lemma sqrt2_double_pos : 0 < sqrt2_double.
Proof. reflexivity. Qed.

Section Binary64Probability.

Variable erf64 : Q -> Q.
Hypothesis erf64_range : forall x, - (1) <= erf64 x /\ erf64 x <= 1.
Hypothesis erf64_nonneg : forall x, 0 <= x -> 0 <= erf64 x.
Hypothesis erf64_nonpos : forall x, x <= 0 -> erf64 x <= 0.

Lemma fdiv_nonneg (x y : Q) : 0 <= x -> 0 < y -> 0 <= fdiv x y.
Proof.
  intros Hx Hy. apply round64_nonneg. apply Qle_shift_div_l; [exact Hy | lra].
Qed.

Lemma fdiv_nonpos (x y : Q) : x <= 0 -> 0 < y -> fdiv x y <= 0.
Proof.
  intros Hx Hy. apply round64_nonpos. apply Qle_shift_div_r; [exact Hy | lra].
Qed.

Lemma fdiv_zero (x y : Q) : x == 0 -> fdiv x y == 0.
Proof.
  intros Hx. unfold fdiv. rewrite round64_zero; [reflexivity|].
  rewrite Hx. unfold Qdiv. ring.
Qed.

Lemma prob_home_double_facts (final_margin std_dev : Q) :
  0 < std_dev ->
  (0 <= prob_home_double erf64 final_margin std_dev
   /\ prob_home_double erf64 final_margin std_dev <= 1)
  /\ (final_margin == 0 -> prob_home_double erf64 final_margin std_dev == 1 # 2)
  /\ (0 <= final_margin -> 1 # 2 <= prob_home_double erf64 final_margin std_dev)
  /\ (final_margin <= 0 -> prob_home_double erf64 final_margin std_dev <= 1 # 2).
Proof.
  intros Hsd. unfold prob_home_double.
  set (z := fdiv (fdiv final_margin std_dev) sqrt2_double).
  pose proof (erf64_range z) as [Hlo Hhi].
  set (s := fadd 1 (erf64 z)).
  assert (Hs : 0 <= s /\ s <= 2).
  { unfold s, fadd. split.
    - apply round64_nonneg. lra.
    - rewrite <- pow2_1. apply round64_le_pow2; [lia|]. rewrite pow2_1. lra. }
  unfold fmul.
  split; [split|split; [|split]].
  - apply round64_nonneg. lra.
  - apply round64_le_1. lra.
  - intros Hm.
    assert (Hz : z == 0) by (unfold z; apply fdiv_zero; now apply fdiv_zero).
    assert (He : erf64 z == 0)
      by (apply Qle_antisym; [apply erf64_nonpos | apply erf64_nonneg]; lra).
    assert (Hs1 : s == 1).
    { unfold s, fadd. apply Qle_antisym;
        [apply round64_le_1 | apply round64_ge_1]; lra. }
    apply Qle_antisym; [apply round64_le_half | apply round64_ge_half]; lra.
  - intros Hm.
    assert (Hz : 0 <= z).
    { unfold z. apply fdiv_nonneg; [|exact sqrt2_double_pos].
      now apply fdiv_nonneg. }
    pose proof (erf64_nonneg z Hz) as He.
    assert (Hs1 : 1 <= s) by (unfold s, fadd; apply round64_ge_1; lra).
    apply round64_ge_half. lra.
  - intros Hm.
    assert (Hz : z <= 0).
    { unfold z. apply fdiv_nonpos; [|exact sqrt2_double_pos].
      now apply fdiv_nonpos. }
    pose proof (erf64_nonpos z Hz) as He.
    assert (Hs1 : s <= 1) by (unfold s, fadd; apply round64_le_1; lra).
    apply round64_le_half. lra.
Qed.

End Binary64Probability.

(** *** Near one *)

Lemma inject_Z_pred (n : Z) : inject_Z (n - 1) == inject_Z n - 1.
Proof. unfold Z.sub. rewrite inject_Z_plus. reflexivity. Qed.

Lemma inject_Z_succ (n : Z) : inject_Z (n + 1) == inject_Z n + 1.
Proof. rewrite inject_Z_plus. reflexivity. Qed.

Lemma Qlt_bool_false (x y : Q) : y <= x -> Qlt_bool x y = false.
Proof. intros H. unfold Qlt_bool. now apply negb_false_iff, Qle_bool_iff. Qed.

(** Within one half of an even integer, ties included, the rounding is that
    integer. *)
Lemma round_half_even_even (x : Q) (n : Z) :
  Z.even n = true ->
  inject_Z n - (1 # 2) <= x -> x <= inject_Z n + (1 # 2) ->
  round_half_even x = n.
Proof.
  intros Hn H1 H2.
  pose proof (Qfloor_le x) as Hf1. pose proof (Qlt_floor x) as Hf2.
  rewrite inject_Z_succ in Hf2.
  assert (Hlo : (n - 1 <= Qfloor x)%Z).
  { apply Qfloor_ge. rewrite inject_Z_pred. lra. }
  assert (Hhi : (Qfloor x <= n)%Z).
  { assert (inject_Z (Qfloor x) < inject_Z (n + 1)) as H
      by (rewrite inject_Z_succ; lra).
    rewrite <- Zlt_Qlt in H. lia. }
  assert (Hc : Qfloor x = (n - 1)%Z \/ Qfloor x = n) by lia.
  unfold round_half_even.
  destruct Hc as [Hc|Hc].
  - assert (Ef : inject_Z (Qfloor x) == inject_Z n - 1)
      by (rewrite Hc; apply inject_Z_pred).
    assert (Ho : Z.even (Qfloor x) = false).
    { rewrite Hc. replace (n - 1)%Z with (Z.pred n) by lia.
      rewrite Z.even_pred, <- Z.negb_even. now rewrite Hn. }
    rewrite Qlt_bool_false by lra.
    destruct (Qlt_bool (1 # 2) (x - inject_Z (Qfloor x))); [lia|].
    rewrite Ho. lia.
  - assert (Ef : inject_Z (Qfloor x) == inject_Z n) by now rewrite Hc.
    destruct (Qlt_bool (x - inject_Z (Qfloor x)) (1 # 2)); [exact Hc|].
    rewrite Qlt_bool_false by lra. rewrite Hc. now rewrite Hn.
Qed.

Lemma pow2_m54 : pow2 (-54) == 1 # 18014398509481984.
Proof. reflexivity. Qed.

(** A number within [2^-54] of 1 rounds to 1. *)
Lemma round64_near_1 (e : Q) : Qabs e <= pow2 (-54) -> round64 (1 + e) == 1.
Proof.
  intros He. rewrite pow2_m54 in He. apply Qabs_Qle_condition in He.
  destruct He as [Hlo Hhi].
  assert (Hx : ~ 1 + e == 0) by lra.
  rewrite (round64_nonzero _ Hx).
  destruct (Qlt_le_dec e 0) as [Hneg|Hpos].
  - assert (Hm : mag (1 + e) = 0%Z).
    { apply mag_unique; rewrite Qabs_pos by lra.
      - change (pow2 (0 - 1)) with (1 # 2). lra.
      - change (pow2 0) with 1. lra. }
    rewrite Hm. change (fexp 0) with (-53)%Z.
    rewrite (round_half_even_even _ (2 ^ 53)); [reflexivity|reflexivity| |].
    + change (pow2 (-53)) with (1 # 9007199254740992).
      change (inject_Z (2 ^ 53)) with (9007199254740992 # 1).
      apply Qle_shift_div_l; [reflexivity|]. lra.
    + change (pow2 (-53)) with (1 # 9007199254740992).
      change (inject_Z (2 ^ 53)) with (9007199254740992 # 1).
      apply Qle_shift_div_r; [reflexivity|]. lra.
  - assert (Hm : mag (1 + e) = 1%Z).
    { apply mag_unique; rewrite Qabs_pos by lra.
      - change (pow2 (1 - 1)) with 1. lra.
      - change (pow2 1) with 2. lra. }
    rewrite Hm. change (fexp 1) with (-52)%Z.
    rewrite (round_half_even_even _ (2 ^ 52)); [reflexivity|reflexivity| |].
    + change (pow2 (-52)) with (1 # 4503599627370496).
      change (inject_Z (2 ^ 52)) with (4503599627370496 # 1).
      apply Qle_shift_div_l; [reflexivity|]. lra.
    + change (pow2 (-52)) with (1 # 4503599627370496).
      change (inject_Z (2 ^ 52)) with (4503599627370496 # 1).
      apply Qle_shift_div_r; [reflexivity|]. lra.
Qed.

Lemma round64_abs_le_pow2 (x : Q) (k : Z) :
  (-1074 <= k)%Z -> Qabs x <= pow2 k -> Qabs (round64 x) <= pow2 k.
Proof.
  intros Hk H. apply Qabs_Qle_condition in H. destruct H as [H1 H2].
  apply Qabs_Qle_condition. split.
  - now apply round64_ge_opp_pow2.
  - now apply round64_le_pow2.
Qed.

(** A margin that is tiny against the standard deviation gives one half,
    for every [erf64] that at most doubles its argument. *)
Lemma tiny_margin_gives_one_half (erf64 : Q -> Q) (final_margin std_dev : Q) :
  (forall x, Qabs (erf64 x) <= 2 * Qabs x) ->
  0 < std_dev ->
  Qabs final_margin <= pow2 (-56) * std_dev ->
  prob_home_double erf64 final_margin std_dev == 1 # 2.
Proof.
  intros Hslope Hsd Hm. unfold prob_home_double.
  set (z := fdiv final_margin std_dev).
  assert (Hz : Qabs z <= pow2 (-56)).
  { unfold z, fdiv. apply round64_abs_le_pow2; [lia|].
    apply Qabs_Qle_condition in Hm. destruct Hm as [H1 H2].
    apply Qabs_Qle_condition. split.
    - apply Qle_shift_div_l; [exact Hsd|]. lra.
    - apply Qle_shift_div_r; [exact Hsd|]. lra. }
  set (w := fdiv z sqrt2_double).
  assert (Hw : Qabs w <= pow2 (-56)).
  { unfold w, fdiv. apply round64_abs_le_pow2; [lia|].
    pose proof (pow2_pos (-56)) as Hp.
    apply Qabs_Qle_condition in Hz. destruct Hz as [H1 H2].
    assert (Hs : 1 <= sqrt2_double) by (unfold sqrt2_double, Qle; cbn; lia).
    apply Qabs_Qle_condition. split.
    - apply Qle_shift_div_l; [lra|]. nra.
    - apply Qle_shift_div_r; [lra|]. nra. }
  pose proof (Hslope w) as He.
  assert (He' : Qabs (erf64 w) <= pow2 (-54)).
  { change (pow2 (-54)) with (1 # 18014398509481984).
    change (pow2 (-56)) with (1 # 72057594037927936) in Hw. lra. }
  pose proof (round64_near_1 _ He') as Hs.
  unfold fmul, fadd.
  apply Qle_antisym; [apply round64_le_half | apply round64_ge_half]; lra.
Qed.

(** *** Symmetry and monotonicity *)

Lemma Qfloor_unique (x : Q) (n : Z) :
  inject_Z n <= x -> x < inject_Z n + 1 -> Qfloor x = n.
Proof.
  intros H1 H2. pose proof (Qfloor_le x) as Hf1. pose proof (Qlt_floor x) as Hf2.
  rewrite inject_Z_succ in Hf2.
  assert (A : (n <= Qfloor x)%Z) by now apply Qfloor_ge.
  assert (B : inject_Z (Qfloor x) < inject_Z (n + 1))
    by (rewrite inject_Z_succ; lra).
  rewrite <- Zlt_Qlt in B. lia.
Qed.

Lemma Qlt_bool_true (x y : Q) : x < y -> Qlt_bool x y = true.
Proof.
  intros H. unfold Qlt_bool. apply negb_true_iff.
  destruct (Qle_bool y x) eqn:E; [|reflexivity].
  apply Qle_bool_iff in E. lra.
Qed.

(** The rounding of a number from its floor [f] and its fraction. *)
Lemma round_half_even_below (x : Q) (f : Z) :
  inject_Z f <= x -> x < inject_Z f + (1 # 2) -> round_half_even x = f.
Proof.
  intros H1 H2. unfold round_half_even.
  rewrite (Qfloor_unique x f) by lra. now rewrite Qlt_bool_true by lra.
Qed.

Lemma round_half_even_above (x : Q) (f : Z) :
  inject_Z f + (1 # 2) < x -> x < inject_Z f + 1 -> round_half_even x = (f + 1)%Z.
Proof.
  intros H1 H2. unfold round_half_even.
  rewrite (Qfloor_unique x f) by lra.
  rewrite Qlt_bool_false by lra. now rewrite Qlt_bool_true by lra.
Qed.

Lemma round_half_even_tie (x : Q) (f : Z) :
  x == inject_Z f + (1 # 2) ->
  round_half_even x = if Z.even f then f else (f + 1)%Z.
Proof.
  intros H. unfold round_half_even.
  rewrite (Qfloor_unique x f) by lra.
  rewrite Qlt_bool_false by lra. now rewrite Qlt_bool_false by lra.
Qed.

Lemma round_half_even_Qeq (x y : Q) :
  x == y -> round_half_even x = round_half_even y.
Proof.
  intros E.
  pose proof (Qfloor_le x) as Hf1. pose proof (Qlt_floor x) as Hf2.
  rewrite inject_Z_succ in Hf2.
  set (f := Qfloor x) in *.
  destruct (Qlt_le_dec x (inject_Z f + (1 # 2))) as [Hlo|Hhi].
  - now rewrite (round_half_even_below x f), (round_half_even_below y f) by lra.
  - destruct (Qlt_le_dec (inject_Z f + (1 # 2)) x) as [Hup|Htie].
    + now rewrite (round_half_even_above x f), (round_half_even_above y f) by lra.
    + now rewrite (round_half_even_tie x f), (round_half_even_tie y f) by lra.
Qed.

Lemma round_half_even_opp (x : Q) :
  round_half_even (- x) = (- round_half_even x)%Z.
Proof.
  pose proof (Qfloor_le x) as Hf1. pose proof (Qlt_floor x) as Hf2.
  rewrite inject_Z_succ in Hf2.
  set (f := Qfloor x) in *.
  destruct (Qlt_le_dec (inject_Z f) x) as [Hgt|Hle].
  - (* not an integer *)
    assert (Ef : inject_Z (- f - 1) == - inject_Z f - 1).
    { rewrite inject_Z_pred, inject_Z_opp. reflexivity. }
    destruct (Qlt_le_dec x (inject_Z f + (1 # 2))) as [Hlo|Hhi].
    + rewrite (round_half_even_below x f) by lra.
      rewrite (round_half_even_above (- x) (- f - 1)) by lra. lia.
    + destruct (Qlt_le_dec (inject_Z f + (1 # 2)) x) as [Hup|Htie].
      * rewrite (round_half_even_above x f) by lra.
        rewrite (round_half_even_below (- x) (- f - 1)) by lra. lia.
      * rewrite (round_half_even_tie x f) by lra.
        rewrite (round_half_even_tie (- x) (- f - 1)) by lra.
        replace (- f - 1)%Z with (Z.pred (- f)) by lia.
        rewrite Z.even_pred, Z.odd_opp, <- Z.negb_even.
        destruct (Z.even f); cbn [negb]; lia.
  - (* an integer *)
    assert (Ef : inject_Z (- f) == - inject_Z f)
      by (rewrite inject_Z_opp; reflexivity).
    rewrite (round_half_even_below x f) by lra.
    rewrite (round_half_even_below (- x) (- f)) by lra. reflexivity.
Qed.

Lemma round_half_even_mono (x y : Q) :
  x <= y -> (round_half_even x <= round_half_even y)%Z.
Proof.
  intros Hxy.
  pose proof (Qfloor_le x) as Hx1. pose proof (Qlt_floor x) as Hx2.
  pose proof (Qfloor_le y) as Hy1. pose proof (Qlt_floor y) as Hy2.
  rewrite inject_Z_succ in Hx2, Hy2.
  assert (Hf : (Qfloor x <= Qfloor y)%Z) by (apply Qfloor_ge; lra).
  destruct (Z.eq_dec (Qfloor x) (Qfloor y)) as [E|N].
  - set (f := Qfloor y) in *.
    assert (Ef : inject_Z (Qfloor x) == inject_Z f) by now rewrite E.
    destruct (Qlt_le_dec y (inject_Z f + (1 # 2))) as [Hlo|Hhi].
    + rewrite (round_half_even_below x f), (round_half_even_below y f) by lra.
      lia.
    + destruct (Qlt_le_dec (inject_Z f + (1 # 2)) y) as [Hup|Htie].
      * rewrite (round_half_even_above y f) by lra.
        apply round_half_even_le. rewrite inject_Z_succ. lra.
      * assert (Ey : y == inject_Z f + (1 # 2)) by lra.
        rewrite (round_half_even_tie y f Ey).
        destruct (Qlt_le_dec x (inject_Z f + (1 # 2))) as [Hxlo|Hxhi].
        -- rewrite (round_half_even_below x f) by lra.
           destruct (Z.even f); lia.
        -- rewrite (round_half_even_tie x f) by lra. lia.
  - apply Z.le_trans with (Qfloor y).
    + apply round_half_even_le.
      assert (inject_Z (Qfloor x + 1) <= inject_Z (Qfloor y)) as H
        by (rewrite <- Zle_Qle; lia).
      rewrite inject_Z_succ in H. lra.
    + apply round_half_even_ge. exact Hy1.
Qed.

Lemma mag_opp (x : Q) : ~ x == 0 -> mag (- x) = mag x.
Proof.
  intros Hx. destruct (mag_spec x Hx) as [H1 H2].
  apply mag_unique; rewrite Qabs_opp; assumption.
Qed.

Lemma round64_opp (x : Q) : round64 (- x) == - round64 x.
Proof.
  destruct (Qeq_dec x 0) as [E|E].
  - rewrite (round64_zero x E), (round64_zero (- x)); [reflexivity | lra].
  - assert (E' : ~ - x == 0) by lra.
    rewrite (round64_nonzero x E), (round64_nonzero (- x) E'), (mag_opp x E).
    set (e := fexp (mag x)). pose proof (pow2_pos e) as Hpe.
    assert (Hr : round_half_even (- x / pow2 e) = (- round_half_even (x / pow2 e))%Z).
    { rewrite <- round_half_even_opp. apply round_half_even_Qeq. field. lra. }
    rewrite Hr, inject_Z_opp. ring.
Qed.

Lemma mag_mono (x y : Q) :
  ~ x == 0 -> Qabs x <= Qabs y -> (mag x <= mag y)%Z.
Proof.
  intros Hx H.
  assert (Hy : ~ y == 0).
  { intros E. rewrite E in H. change (Qabs 0) with 0 in H.
    pose proof (Qabs_nonneg x) as Hn.
    assert (Qabs x == 0) as E0 by lra.
    apply Hx. revert E0. apply Qabs_case; intros ? ?; lra. }
  destruct (mag_spec x Hx) as [H1 _]. destruct (mag_spec y Hy) as [_ H2].
  assert (pow2 (mag x - 1) < pow2 (mag y)) as Hlt by lra.
  apply pow2_lt_inv in Hlt. lia.
Qed.

Lemma round64_mono_pos (x y : Q) : 0 < x -> x <= y -> round64 x <= round64 y.
Proof.
  intros Hpos Hxy.
  assert (Hx : ~ x == 0) by lra. assert (Hy : ~ y == 0) by lra.
  assert (Ax : Qabs x == x) by (apply Qabs_pos; lra).
  assert (Ay : Qabs y == y) by (apply Qabs_pos; lra).
  assert (Hm : (mag x <= mag y)%Z) by (apply mag_mono; [exact Hx | lra]).
  destruct (mag_spec x Hx) as [Hx1 Hx2]. destruct (mag_spec y Hy) as [Hy1 Hy2].
  destruct (Z.eq_dec (fexp (mag x)) (fexp (mag y))) as [E|N].
  - rewrite (round64_nonzero x Hx), (round64_nonzero y Hy), E.
    set (e := fexp (mag y)). pose proof (pow2_pos e) as Hpe.
    apply Qmult_le_compat_r; [|lra].
    rewrite <- Zle_Qle. apply round_half_even_mono.
    apply Qmult_le_compat_r; [exact Hxy|].
    apply Qlt_le_weak, Qinv_lt_0_compat, Hpe.
  - set (k := Z.max (mag x) (-1074)).
    assert (Hk : (k <= mag y - 1)%Z) by (unfold k, fexp in *; lia).
    apply Qle_trans with (pow2 k).
    + apply round64_le_pow2; [unfold k; lia|].
      apply Qle_trans with (pow2 (mag x)); [lra|]. apply pow2_le. unfold k. lia.
    + apply round64_ge_pow2; [unfold k; lia|].
      apply Qle_trans with (pow2 (mag y - 1)); [now apply pow2_le | lra].
Qed.

(** Rounding keeps the order. *)
Lemma round64_mono (x y : Q) : x <= y -> round64 x <= round64 y.
Proof.
  intros Hxy.
  destruct (Qlt_le_dec 0 x) as [Hx|Hx]; [now apply round64_mono_pos|].
  destruct (Qlt_le_dec y 0) as [Hy|Hy].
  - assert (H : round64 (- y) <= round64 (- x)) by (apply round64_mono_pos; lra).
    rewrite !round64_opp in H. lra.
  - pose proof (round64_nonpos x Hx). pose proof (round64_nonneg y Hy). lra.
Qed.

Lemma round64_Qeq (x y : Q) : x == y -> round64 x == round64 y.
Proof. intros E. apply Qle_antisym; apply round64_mono; lra. Qed.

Lemma round64_le_opp_pow2 (x : Q) (k : Z) :
  (-1074 <= k)%Z -> x <= - pow2 k -> round64 x <= - pow2 k.
Proof.
  intros Hk H.
  assert (H' : pow2 k <= round64 (- x)) by (apply round64_ge_pow2; [exact Hk | lra]).
  rewrite round64_opp in H'. lra.
Qed.

(** *** The probability, continued *)



Lemma sqrt2_double_le_2 : sqrt2_double <= 2.
Proof. unfold sqrt2_double, Qle. cbn. lia. Qed.

(** Sixteen standard deviations above zero the probability is 1, as soon
    as [erf64] is 1 from 8 on. *)
Lemma prob_home_double_one (erf64 : Q -> Q) (final_margin std_dev : Q) :
  (forall x, 8 <= x -> erf64 x == 1) ->
  0 < std_dev -> 16 * std_dev <= final_margin ->
  prob_home_double erf64 final_margin std_dev == 1.
Proof.
  intros Hsat Hs Hm. unfold prob_home_double.
  set (z := fdiv final_margin std_dev).
  assert (Hz : 16 <= z).
  { unfold z, fdiv. change 16 with (pow2 4). apply round64_ge_pow2; [lia|].
    change (pow2 4) with 16. apply Qle_shift_div_l; [exact Hs | lra]. }
  set (w := fdiv z sqrt2_double).
  assert (Hw : 8 <= w).
  { unfold w, fdiv. change 8 with (pow2 3). apply round64_ge_pow2; [lia|].
    change (pow2 3) with 8. pose proof sqrt2_double_pos. pose proof sqrt2_double_le_2.
    apply Qle_shift_div_l; [assumption | lra]. }
  pose proof (Hsat w Hw) as He.
  assert (H2 : fadd 1 (erf64 w) == 2).
  { unfold fadd. apply Qle_antisym.
    - rewrite <- pow2_1. apply round64_le_pow2; [lia|]. rewrite pow2_1. lra.
    - rewrite <- pow2_1 at 1. apply round64_ge_pow2; [lia|]. rewrite pow2_1. lra. }
  unfold fmul. apply Qle_antisym; [apply round64_le_1 | apply round64_ge_1]; lra.
Qed.

(** Sixteen standard deviations below zero it is 0, as soon as [erf64] is
    -1 up to -8. *)
Lemma prob_home_double_zero (erf64 : Q -> Q) (final_margin std_dev : Q) :
  (forall x, x <= - (8) -> erf64 x == - (1)) ->
  0 < std_dev -> final_margin <= - (16) * std_dev ->
  prob_home_double erf64 final_margin std_dev == 0.
Proof.
  intros Hsat Hs Hm. unfold prob_home_double.
  set (z := fdiv final_margin std_dev).
  assert (Hz : z <= - (16)).
  { unfold z, fdiv. change (- (16)) with (- pow2 4).
    apply round64_le_opp_pow2; [lia|].
    change (- pow2 4) with (- (16)). apply Qle_shift_div_r; [exact Hs | lra]. }
  set (w := fdiv z sqrt2_double).
  assert (Hw : w <= - (8)).
  { unfold w, fdiv. change (- (8)) with (- pow2 3).
    apply round64_le_opp_pow2; [lia|].
    change (- pow2 3) with (- (8)).
    pose proof sqrt2_double_pos. pose proof sqrt2_double_le_2.
    apply Qle_shift_div_r; [assumption | lra]. }
  pose proof (Hsat w Hw) as He.
  assert (H0 : fadd 1 (erf64 w) == 0).
  { unfold fadd. rewrite round64_zero; [reflexivity | lra]. }
  unfold fmul. rewrite round64_zero; [reflexivity | lra].
Qed.

(** *** The stand-in for [math.erf] on floats *)

Lemma unit_clamp64_cases (x : Q) :
  (x <= - (1) /\ unit_clamp64 x = - (1))
  \/ (1 <= x /\ unit_clamp64 x = 1)
  \/ (- (1) < x /\ x < 1 /\ unit_clamp64 x = x).
Proof.
  unfold unit_clamp64.
  destruct (Qle_bool x (- (1))) eqn:E1.
  - left. split; [now apply Qle_bool_iff | reflexivity].
  - assert (H1 : - (1) < x).
    { apply Qnot_le_lt. intros H. apply Qle_bool_iff in H. congruence. }
    destruct (Qle_bool 1 x) eqn:E2.
    + right; left. split; [now apply Qle_bool_iff | reflexivity].
    + right; right. repeat split; [exact H1|].
      apply Qnot_le_lt. intros H. apply Qle_bool_iff in H. congruence.
Qed.

Lemma unit_clamp64_range (x : Q) : - (1) <= unit_clamp64 x /\ unit_clamp64 x <= 1.
Proof.
  destruct (unit_clamp64_cases x) as [[H ->]|[[H ->]|(H1 & H2 & ->)]]; lra.
Qed.

Lemma unit_clamp64_nonneg (x : Q) : 0 <= x -> 0 <= unit_clamp64 x.
Proof.
  intros Hx.
  destruct (unit_clamp64_cases x) as [[H ->]|[[H ->]|(H1 & H2 & ->)]]; lra.
Qed.

Lemma unit_clamp64_nonpos (x : Q) : x <= 0 -> unit_clamp64 x <= 0.
Proof.
  intros Hx.
  destruct (unit_clamp64_cases x) as [[H ->]|[[H ->]|(H1 & H2 & ->)]]; lra.
Qed.


Lemma unit_clamp64_slope (x : Q) : Qabs (unit_clamp64 x) <= 2 * Qabs x.
Proof.
  destruct (unit_clamp64_cases x) as [[H ->]|[[H ->]|(H1 & H2 & ->)]].
  - rewrite (Qabs_neg x) by lra. change (Qabs (- (1))) with 1. lra.
  - rewrite (Qabs_pos x) by lra. change (Qabs 1) with 1. lra.
  - pose proof (Qabs_nonneg x). lra.
Qed.

Lemma unit_clamp64_one (x : Q) : 8 <= x -> unit_clamp64 x == 1.
Proof.
  intros Hx.
  destruct (unit_clamp64_cases x) as [[H ->]|[[H ->]|(H1 & H2 & ->)]]; lra.
Qed.

Lemma unit_clamp64_minus_one (x : Q) : x <= - (8) -> unit_clamp64 x == - (1).
Proof.
  intros Hx.
  destruct (unit_clamp64_cases x) as [[H ->]|[[H ->]|(H1 & H2 & ->)]]; lra.
Qed.

(** Known values: [0.1], [0.1 + 0.2], [13.5], ties above 1, the smallest
    subnormal number, [1 / math.sqrt(2)] and [math.sqrt(2) ** 2]. *)
Example round64_known_values :
  round64 (1 # 10) == 3602879701896397 # 36028797018963968
  /\ fadd (round64 (1 # 10)) (round64 (2 # 10)) == 1351079888211149 # 4503599627370496
  /\ round64 (27 # 2) == 27 # 2
  /\ round64 (1 + pow2 (-53)) == 1
  /\ round64 (1 + 3 * pow2 (-53)) == 1 + pow2 (-51)
  /\ round64 (pow2 (-1075)) == 0
  /\ round64 (3 * pow2 (-1075)) == pow2 (-1073)
  /\ fdiv 1 sqrt2_double == 1592262918131443 # 2251799813685248
  /\ fmul sqrt2_double sqrt2_double == 4503599627370497 # 2251799813685248.
Proof. vm_compute. repeat split; reflexivity. Qed.

(** ** The win probability *)

Lemma simulate_match_prob_cdf (erf : R -> R) (home away : string)
    (df : DataFrame) (params : ParameterSet) (h a : TeamMetrics) :
  0 < STD_DEV params ->
  get_tactical_metrics df home params = Some h ->
  get_tactical_metrics df away params = Some a ->
  exists debug,
    simulate_match erf home away df params
    = SimPrediction home away (fused_margin params home away h a)
        (std_normal_cdf erf (Q2R (fused_margin params home away h a)
                             / Q2R (STD_DEV params)))
        debug.
Proof.
  intros Hsd Hh Ha.
  rewrite (simulate_match_prediction erf home away df params h a Hh Ha).
  eexists. f_equal. rewrite prob_home_of_cdf. f_equal.
  unfold Qdiv. rewrite Q2R_mult, Q2R_inv; [reflexivity|].
  intros E; rewrite E in Hsd; discriminate Hsd.
Qed.

(** C1 (corrected). Whenever both teams have data and [STD_DEV > 0],
    [simulate_match] returns a prediction with the fused margin and, as its
    probability, the formula [0.5 * (1 + erf(z / sqrt 2))] at
    [z = final_margin / STD_DEV], which is the standard normal distribution
    function at [z].

    As the interpreter evaluates the formula, in binary64 arithmetic and
    for every [final_margin]: the probability lies between 0 and 1; it is
    one half when the final margin is zero, at least one half when the
    margin is not negative and at most one half when it is not positive.
    One half does not tell that the margin is zero: the probability is one
    half for every margin of absolute value at most [2^-56 * STD_DEV], as
    soon as [math.erf] at most doubles the absolute value of its argument.
    The two bounds are reached: the probability is 1 from 16 standard
    deviations on, and 0 from 16 standard deviations below zero, as soon as
    [math.erf] is 1 from 8 on and -1 up to -8.

    What is assumed of [math.erf] on floats throughout: its values lie
    between -1 and 1 and have the sign of the argument. *)
Theorem win_probability_in_binary64 (erf64 : Q -> Q)
    (erf64_range : forall x : Q, - (1) <= erf64 x /\ erf64 x <= 1)
    (erf64_nonneg : forall x : Q, 0 <= x -> 0 <= erf64 x)
    (erf64_nonpos : forall x : Q, x <= 0 -> erf64 x <= 0)
    (erf : R -> R) (home away : string) (df : DataFrame)
    (params : ParameterSet) (h a : TeamMetrics) :
  0 < STD_DEV params ->
  get_tactical_metrics df home params = Some h ->
  get_tactical_metrics df away params = Some a ->
  (exists prob_home debug,
     simulate_match erf home away df params
     = SimPrediction home away (fused_margin params home away h a)
         prob_home debug
     /\ prob_home
        = (0.5 * (1 + erf (Q2R (fused_margin params home away h a)
                           / Q2R (STD_DEV params) / sqrt 2)))%R
     /\ prob_home
        = std_normal_cdf erf (Q2R (fused_margin params home away h a)
                              / Q2R (STD_DEV params)))
  /\ forall final_margin : Q,
       (0 <= prob_home_double erf64 final_margin (STD_DEV params)
        /\ prob_home_double erf64 final_margin (STD_DEV params) <= 1)
       /\ (final_margin == 0 ->
           prob_home_double erf64 final_margin (STD_DEV params) == 1 # 2)
       /\ (0 <= final_margin ->
           1 # 2 <= prob_home_double erf64 final_margin (STD_DEV params))
       /\ (final_margin <= 0 ->
           prob_home_double erf64 final_margin (STD_DEV params) <= 1 # 2)
       /\ ((forall x : Q, Qabs (erf64 x) <= 2 * Qabs x) ->
           Qabs final_margin <= pow2 (-56) * STD_DEV params ->
           prob_home_double erf64 final_margin (STD_DEV params) == 1 # 2)
       /\ ((forall x : Q, 8 <= x -> erf64 x == 1) ->
           16 * STD_DEV params <= final_margin ->
           prob_home_double erf64 final_margin (STD_DEV params) == 1)
       /\ ((forall x : Q, x <= - (8) -> erf64 x == - (1)) ->
           final_margin <= - (16) * STD_DEV params ->
           prob_home_double erf64 final_margin (STD_DEV params) == 0).
Proof.
  intros Hsd Hh Ha. split.
  - destruct (simulate_match_prob_cdf erf home away df params h a Hsd Hh Ha)
      as [debug E].
    eexists _, debug. split; [exact E|]. split; [|reflexivity].
    unfold std_normal_cdf. f_equal. lra.
  - intros final_margin.
    destruct (prob_home_double_facts erf64 erf64_range erf64_nonneg erf64_nonpos
                final_margin (STD_DEV params) Hsd) as (H1 & H2 & H3 & H4).
    split; [exact H1|]. split; [exact H2|]. split; [exact H3|].
    split; [exact H4|]. split; [|split].
    + intros Hslope Hm. now apply tiny_margin_gives_one_half.
    + intros Hsat Hm. now apply prob_home_double_one.
    + intros Hsat Hm. now apply prob_home_double_zero.
Qed.

(** ** A function with the three properties *)

Lemma odd_sigmoid_odd (x : R) : odd_sigmoid (- x) = (- odd_sigmoid x)%R.
Proof.
  unfold odd_sigmoid. rewrite Rabs_Ropp.
  pose proof (Rabs_pos x). field. lra.
Qed.

Lemma Rdiv_lt_cross (a b c d : R) :
  (0 < b)%R -> (0 < d)%R -> (a * d < c * b)%R -> (a / b < c / d)%R.
Proof.
  intros Hb Hd H. apply (Rmult_lt_reg_r (b * d)); [nra|].
  replace (a / b * (b * d))%R with (a * d)%R by (field; lra).
  replace (c / d * (b * d))%R with (c * b)%R by (field; lra).
  exact H.
Qed.

Lemma odd_sigmoid_increasing (x y : R) :
  (x < y)%R -> (odd_sigmoid x < odd_sigmoid y)%R.
Proof.
  intros Hxy. unfold odd_sigmoid.
  pose proof (Rabs_pos x). pose proof (Rabs_pos y).
  apply Rdiv_lt_cross; try lra.
  unfold Rabs in *. destruct (Rcase_abs x), (Rcase_abs y); nra.
Qed.

Lemma odd_sigmoid_range (x : R) : (-1 <= odd_sigmoid x <= 1)%R.
Proof.
  unfold odd_sigmoid. pose proof (Rabs_pos x).
  assert (0 < 1 + Rabs x)%R as Hp by lra.
  split.
  - apply (Rmult_le_reg_r (1 + Rabs x)); [exact Hp|].
    replace (x / (1 + Rabs x) * (1 + Rabs x))%R with x by (field; lra).
    unfold Rabs in *. destruct (Rcase_abs x); lra.
  - apply (Rmult_le_reg_r (1 + Rabs x)); [exact Hp|].
    replace (x / (1 + Rabs x) * (1 + Rabs x))%R with x by (field; lra).
    unfold Rabs in *. destruct (Rcase_abs x); lra.
Qed.

Example level_metrics :
  exists h a,
    get_tactical_metrics level_df "Barbarians" DEFAULT_CONFIG = Some h
    /\ get_tactical_metrics level_df "Lions" DEFAULT_CONFIG = Some a
    /\ total_score h == 75 /\ total_score a == 75
    /\ fused_margin DEFAULT_CONFIG "Barbarians" "Lions" h a == 2.
Proof. do 2 eexists. repeat split; reflexivity. Qed.

Lemma win_probability_in_binary64_witness :
  0 < STD_DEV DEFAULT_CONFIG
  /\ (exists h a,
        get_tactical_metrics level_df "Barbarians" DEFAULT_CONFIG = Some h
        /\ get_tactical_metrics level_df "Lions" DEFAULT_CONFIG = Some a
        /\ exists prob_home debug,
             simulate_match odd_sigmoid "Barbarians" "Lions" level_df DEFAULT_CONFIG
             = SimPrediction "Barbarians" "Lions"
                 (fused_margin DEFAULT_CONFIG "Barbarians" "Lions" h a)
                 prob_home debug
             /\ prob_home
                = std_normal_cdf odd_sigmoid
                    (Q2R (fused_margin DEFAULT_CONFIG "Barbarians" "Lions" h a)
                     / Q2R (STD_DEV DEFAULT_CONFIG)))
  /\ (0 <= prob_home_double unit_clamp64 2 (STD_DEV DEFAULT_CONFIG)
      /\ prob_home_double unit_clamp64 2 (STD_DEV DEFAULT_CONFIG) <= 1)
  /\ 1 # 2 <= prob_home_double unit_clamp64 2 (STD_DEV DEFAULT_CONFIG)
  /\ prob_home_double unit_clamp64 0 (STD_DEV DEFAULT_CONFIG) == 1 # 2
  /\ prob_home_double unit_clamp64 (1 # 10000000000000000000)
       (STD_DEV DEFAULT_CONFIG) == 1 # 2
  /\ prob_home_double unit_clamp64 500 (STD_DEV DEFAULT_CONFIG) == 1
  /\ prob_home_double unit_clamp64 (- (500)) (STD_DEV DEFAULT_CONFIG) == 0.
Proof.
  split; [reflexivity|].
  destruct level_metrics as (h & a & Hh & Ha & _).
  destruct (win_probability_in_binary64 unit_clamp64
              unit_clamp64_range unit_clamp64_nonneg unit_clamp64_nonpos
              odd_sigmoid "Barbarians" "Lions" level_df DEFAULT_CONFIG
              h a eq_refl Hh Ha) as [H1 H2].
  split.
  - exists h, a. split; [exact Hh|]. split; [exact Ha|].
    destruct H1 as (p & d & E & _ & Hp). exists p, d. split; [exact E | exact Hp].
  - destruct (H2 2) as (Hr & _ & Hge & _).
    destruct (H2 0) as (_ & Hzero & _).
    destruct (H2 (1 # 10000000000000000000)) as (_ & _ & _ & _ & Htiny & _).
    destruct (H2 500) as (_ & _ & _ & _ & _ & Hone & _).
    destruct (H2 (- (500))) as (_ & _ & _ & _ & _ & _ & Hnone).
    split; [exact Hr|]. split; [apply Hge; discriminate|].
    split; [apply Hzero; reflexivity|].
    split; [apply Htiny; [exact unit_clamp64_slope | vm_compute; discriminate]|].
    split.
    + apply Hone; [exact unit_clamp64_one | vm_compute; discriminate].
    + apply Hnone; [exact unit_clamp64_minus_one | vm_compute; discriminate].
Defined.

(** The converse fails.  Level teams under a standard deviation of [1e17]
    are predicted at a margin of 2, and the probability the interpreter
    computes is one half exactly: [1 + erf(z / sqrt 2)] rounds to 1.  So it
    is under the default standard deviation for a margin of [1e-16]. *)
Lemma half_probability_at_nonzero_margin :
  0 < STD_DEV (with_std_dev DEFAULT_CONFIG 100000000000000000)
  /\ (exists h a,
        get_tactical_metrics level_df "Barbarians"
          (with_std_dev DEFAULT_CONFIG 100000000000000000) = Some h
        /\ get_tactical_metrics level_df "Lions"
             (with_std_dev DEFAULT_CONFIG 100000000000000000) = Some a
        /\ fused_margin (with_std_dev DEFAULT_CONFIG 100000000000000000)
             "Barbarians" "Lions" h a == 2)
  /\ ~ 2 == 0
  /\ prob_home_double unit_clamp64 2
       (STD_DEV (with_std_dev DEFAULT_CONFIG 100000000000000000)) == 1 # 2
  /\ ~ round64 (1 # 10000000000000000) == 0
  /\ prob_home_double unit_clamp64 (round64 (1 # 10000000000000000))
       (STD_DEV DEFAULT_CONFIG) == 1 # 2.
Proof.
  split; [reflexivity|].
  split; [do 2 eexists; repeat split; reflexivity|].
  split; [discriminate|].
  split; [vm_compute; reflexivity|].
  split; [vm_compute; discriminate|].
  vm_compute; reflexivity.
Qed.

(** ** Missing data *)


Lemma simulate_match_frame_table (erf : R -> R) (home away : string)
    (df : DataFrame) (params : ParameterSet) :
  simulate_match_frame erf home away (Table df) params
  = Ok (simulate_match erf home away df params).
Proof. reflexivity. Qed.




(** C6, as stated, fails: the error result is the same whichever team lacks
    data, so it does not tell which one did. *)
Lemma error_does_not_tell_which_team :
  (~ no_rows only_home_df "Barbarians" /\ no_rows only_home_df "Lions")
  /\ (no_rows only_away_df "Barbarians" /\ ~ no_rows only_away_df "Lions")
  /\ simulate_match odd_sigmoid "Barbarians" "Lions" only_home_df DEFAULT_CONFIG
     = simulate_match odd_sigmoid "Barbarians" "Lions" only_away_df DEFAULT_CONFIG.
Proof.
  assert (Hsome : forall df team m,
             get_tactical_metrics df team DEFAULT_CONFIG = Some m -> ~ no_rows df team).
  { intros df team m E Hno.
    apply get_tactical_metrics_none_iff with (params := DEFAULT_CONFIG) in Hno.
    congruence. }
  repeat split.
  - eapply Hsome. reflexivity.
  - apply (get_tactical_metrics_none_iff _ _ DEFAULT_CONFIG). reflexivity.
  - apply (get_tactical_metrics_none_iff _ _ DEFAULT_CONFIG). reflexivity.
  - eapply Hsome. reflexivity.
Qed.

(** C6 (amended). If either team has no row in a table that has its
    columns, [simulate_match] returns, without raising, the error result
    whose message names both teams, home then away; the message does not
    depend on which of them lacked data.  On the frame without columns,
    where both teams have no row, it raises [KeyError] instead. *)
Theorem missing_team_gives_error_result (erf : R -> R) (home away : string)
    (fr : Frame) (params : ParameterSet) :
  (forall r, In r (frame_rows fr) -> country r <> home)
  \/ (forall r, In r (frame_rows fr) -> country r <> away) ->
  (forall df, fr = Table df ->
     simulate_match_frame erf home away fr params
     = Ok (SimError ("Missing data in CSV for " ++ home ++ " or " ++ away)%string))
  /\ (fr = NoColumns ->
      simulate_match_frame erf home away fr params = Raised (KeyError "country")).
Proof.
  intros H. split.
  - intros df ->. rewrite simulate_match_frame_table. f_equal.
    apply simulate_match_error.
    destruct H as [H|H]; [left | right]; now apply get_tactical_metrics_none_iff.
  - intros ->. reflexivity.
Qed.

Lemma missing_team_gives_error_result_witness :
  ((forall r, In r (frame_rows (Table only_home_df)) -> country r <> "Barbarians")
   \/ (forall r, In r (frame_rows (Table only_home_df)) -> country r <> "Lions"))
  /\ simulate_match_frame odd_sigmoid "Barbarians" "Lions" (Table only_home_df)
       DEFAULT_CONFIG
     = Ok (SimError "Missing data in CSV for Barbarians or Lions").
Proof.
  assert ((forall r, In r (frame_rows (Table only_home_df)) -> country r <> "Barbarians")
          \/ (forall r, In r (frame_rows (Table only_home_df)) -> country r <> "Lions"))
    as H.
  { right. apply (get_tactical_metrics_none_iff only_home_df "Lions" DEFAULT_CONFIG).
    reflexivity. }
  split; [exact H|].
  exact (proj1 (missing_team_gives_error_result odd_sigmoid "Barbarians" "Lions"
                  (Table only_home_df) DEFAULT_CONFIG H) only_home_df eq_refl).
Defined.

(** ** The mismatch bonus *)

Lemma Qabs_cases (x : Q) :
  (0 <= x /\ Qabs x == x) \/ (x < 0 /\ Qabs x == - x).
Proof.
  destruct (Qlt_le_dec x 0) as [H|H]; [right | left]; split; auto.
  - apply Qabs_neg. lra.
  - now apply Qabs_pos.
Qed.

Lemma apply_mismatch_step (params : ParameterSet) (pd mt : Q) :
  0 <= MISMATCH_THRESHOLD params ->
  (MISMATCH_THRESHOLD params < Qabs pd -> 0 < pd ->
   apply_mismatch params pd mt == mt + MISMATCH_BONUS params)
  /\ (MISMATCH_THRESHOLD params < Qabs pd -> pd < 0 ->
      apply_mismatch params pd mt == mt - MISMATCH_BONUS params)
  /\ (Qabs pd <= MISMATCH_THRESHOLD params -> apply_mismatch params pd mt == mt).
Proof.
  intros HT. unfold apply_mismatch.
  pose proof (Qabs_cases pd) as Habs.
  destruct (Qlt_le_dec (MISMATCH_THRESHOLD params) pd) as [H1|H1];
    [| destruct (Qlt_le_dec pd (- MISMATCH_THRESHOLD params)) as [H2|H2]];
    repeat split; intros; try reflexivity; exfalso;
    destruct Habs as [[Hs E]|[Hs E]]; rewrite E in *; lra.
Qed.

(** Under the default threshold 4.0 and bonus 5.0. *)
Example bonus_at_4_1_and_40_and_3_9 (mt : Q) :
  apply_mismatch DEFAULT_CONFIG 4.1 mt == mt + 5
  /\ apply_mismatch DEFAULT_CONFIG 40 mt == mt + 5
  /\ apply_mismatch DEFAULT_CONFIG (-4.1) mt == mt - 5
  /\ apply_mismatch DEFAULT_CONFIG (-40) mt == mt - 5
  /\ apply_mismatch DEFAULT_CONFIG 3.9 mt == mt
  /\ apply_mismatch DEFAULT_CONFIG 4.0 mt == mt.
Proof. unfold apply_mismatch; simpl; repeat split; ring. Qed.

(** C3, as stated, fails for a negative threshold: the pack difference
    -0.5 exceeds the threshold -1 in absolute value and is negative, yet
    the bonus is added, not subtracted. *)
Lemma negative_threshold_adds_bonus :
  exists h a m p d,
    get_tactical_metrics weaker_home_df "Barbarians" (with_threshold (-1) 2.0) = Some h
    /\ get_tactical_metrics weaker_home_df "Lions" (with_threshold (-1) 2.0) = Some a
    /\ simulate_match odd_sigmoid "Barbarians" "Lions" weaker_home_df
                      (with_threshold (-1) 2.0)
       = SimPrediction "Barbarians" "Lions" m p d
    /\ pack_diff d == -0.5
    /\ MISMATCH_THRESHOLD (with_threshold (-1) 2.0) < Qabs (pack_diff d)
    /\ pack_diff d < 0
    /\ tactical d == base_tactical (with_threshold (-1) 2.0) h a + 5
    /\ ~ tactical d == base_tactical (with_threshold (-1) 2.0) h a
                       - MISMATCH_BONUS (with_threshold (-1) 2.0).
Proof.
  do 5 eexists.
  split; [vm_compute; reflexivity|]. split; [vm_compute; reflexivity|].
  split; [apply simulate_match_prediction; vm_compute; reflexivity|].
  repeat split; vm_compute; first [reflexivity | discriminate].
Qed.

(** C3 (amended). For a threshold that is not negative, the tactical margin
    reported by [simulate_match] is the scaled difference of the total
    scores plus a step function of the pack difference: plus the bonus
    when the pack difference exceeds the threshold in absolute value and is
    positive, minus the bonus when it does and is negative, unchanged when
    its absolute value is at most the threshold.  With the default
    threshold 4.0 the increment is the same +5 at 4.1 and at 40, and there
    is none at 3.9. *)
Theorem mismatch_bonus_is_a_step (erf : R -> R) (home away : string)
    (df : DataFrame) (params : ParameterSet) (h a : TeamMetrics) :
  0 <= MISMATCH_THRESHOLD params ->
  get_tactical_metrics df home params = Some h ->
  get_tactical_metrics df away params = Some a ->
  (exists m p d,
     simulate_match erf home away df params = SimPrediction home away m p d
     /\ pack_diff d = (0.7 * pack_xv h + 0.3 * pack_bench h)
                      - (0.7 * pack_xv a + 0.3 * pack_bench a)
     /\ (MISMATCH_THRESHOLD params < Qabs (pack_diff d) -> 0 < pack_diff d ->
         tactical d == (total_score h - total_score a) * TACTICAL_SCALING_FACTOR params
                       + MISMATCH_BONUS params)
     /\ (MISMATCH_THRESHOLD params < Qabs (pack_diff d) -> pack_diff d < 0 ->
         tactical d == (total_score h - total_score a) * TACTICAL_SCALING_FACTOR params
                       - MISMATCH_BONUS params)
     /\ (Qabs (pack_diff d) <= MISMATCH_THRESHOLD params ->
         tactical d == (total_score h - total_score a) * TACTICAL_SCALING_FACTOR params))
  /\ (forall mt, apply_mismatch DEFAULT_CONFIG 4.1 mt == mt + 5
                 /\ apply_mismatch DEFAULT_CONFIG 40 mt == mt + 5
                 /\ apply_mismatch DEFAULT_CONFIG 3.9 mt == mt).
Proof.
  intros HT Hh Ha. split.
  - rewrite (simulate_match_prediction erf home away df params h a Hh Ha).
    do 3 eexists. split; [reflexivity|]. cbn [pack_diff tactical].
    split; [reflexivity|].
    apply (apply_mismatch_step params (pack_difference h a) (base_tactical params h a) HT).
  - intros mt. unfold apply_mismatch; simpl; repeat split; ring.
Qed.

Example bonus_in_a_match :
  exists m p d,
    simulate_match odd_sigmoid "Barbarians" "Lions" stronger_home_df DEFAULT_CONFIG
    = SimPrediction "Barbarians" "Lions" m p d
    /\ pack_diff d == 4.1 /\ tactical d == 4.1 * 0.85 + 5.
Proof.
  do 3 eexists.
  split; [eapply simulate_match_prediction; vm_compute; reflexivity|].
  split; vm_compute; reflexivity.
Qed.

Lemma mismatch_bonus_is_a_step_witness :
  0 <= MISMATCH_THRESHOLD DEFAULT_CONFIG
  /\ exists h a,
      get_tactical_metrics stronger_home_df "Barbarians" DEFAULT_CONFIG = Some h
      /\ get_tactical_metrics stronger_home_df "Lions" DEFAULT_CONFIG = Some a
      /\ (exists m p d,
            simulate_match odd_sigmoid "Barbarians" "Lions" stronger_home_df DEFAULT_CONFIG
            = SimPrediction "Barbarians" "Lions" m p d
            /\ pack_diff d = (0.7 * pack_xv h + 0.3 * pack_bench h)
                             - (0.7 * pack_xv a + 0.3 * pack_bench a)
            /\ (MISMATCH_THRESHOLD DEFAULT_CONFIG < Qabs (pack_diff d) -> 0 < pack_diff d ->
                tactical d == (total_score h - total_score a)
                              * TACTICAL_SCALING_FACTOR DEFAULT_CONFIG
                              + MISMATCH_BONUS DEFAULT_CONFIG)
            /\ (MISMATCH_THRESHOLD DEFAULT_CONFIG < Qabs (pack_diff d) -> pack_diff d < 0 ->
                tactical d == (total_score h - total_score a)
                              * TACTICAL_SCALING_FACTOR DEFAULT_CONFIG
                              - MISMATCH_BONUS DEFAULT_CONFIG)
            /\ (Qabs (pack_diff d) <= MISMATCH_THRESHOLD DEFAULT_CONFIG ->
                tactical d == (total_score h - total_score a)
                              * TACTICAL_SCALING_FACTOR DEFAULT_CONFIG))
         /\ (forall mt, apply_mismatch DEFAULT_CONFIG 4.1 mt == mt + 5
                        /\ apply_mismatch DEFAULT_CONFIG 40 mt == mt + 5
                        /\ apply_mismatch DEFAULT_CONFIG 3.9 mt == mt).
Proof.
  split; [discriminate|].
  do 2 eexists. split; [vm_compute; reflexivity|]. split; [vm_compute; reflexivity|].
  apply (mismatch_bonus_is_a_step odd_sigmoid "Barbarians" "Lions"
           stronger_home_df DEFAULT_CONFIG);
    [discriminate | vm_compute; reflexivity | vm_compute; reflexivity].
Defined.

(** ** Exchanging home and away *)


Lemma prob_home_of_Qeq (erf : R -> R) (z z' : Q) :
  z == z' -> prob_home_of erf z = prob_home_of erf z'.
Proof. intros E. unfold prob_home_of. now rewrite (Qeq_eqR _ _ E). Qed.





(** ** Level teams *)

Lemma Qsum_const (c : Q) (l : list Q) :
  Forall (fun x => x == c) l ->
  Qsum l == inject_Z (Z.of_nat (List.length l)) * c.
Proof.
  induction 1 as [|x l Hx Hl IH]; [reflexivity|].
  change (Qsum (x :: l)) with (x + Qsum l).
  change (List.length (x :: l)) with (S (List.length l)).
  rewrite IH, Hx, Nat2Z.inj_succ, <- Z.add_1_r, inject_Z_plus. ring.
Qed.

Lemma Qmean_const (c : Q) (l : list Q) :
  l <> [] -> Forall (fun x => x == c) l -> Qmean l == c.
Proof.
  intros Hne Hall. unfold Qmean. rewrite (Qsum_const c l Hall).
  assert (~ inject_Z (Z.of_nat (List.length l)) == 0) as Hn.
  { destruct l; [congruence|]. simpl List.length. intros E.
    unfold Qeq, inject_Z in E. simpl in E. lia. }
  field. exact Hn.
Qed.

Lemma mean_skill_filter_const (c : Q) (f : SquadRow -> bool) (sub : DataFrame) :
  (forall r, In r (rows sub) -> skill r == c) ->
  df_empty (df_filter f sub) = false ->
  mean_skill (df_filter f sub) == c.
Proof.
  intros Hall Hne. unfold mean_skill. apply Qmean_const.
  - unfold df_empty in Hne. destruct (rows (df_filter f sub)); [discriminate|].
    discriminate.
  - apply Forall_forall. intros x Hx. apply in_map_iff in Hx.
    destruct Hx as (r & <- & Hr). apply Hall.
    unfold df_filter in Hr; simpl in Hr. now apply filter_In in Hr.
Qed.

Lemma df_filter_nonempty (f : SquadRow -> bool) (sub : DataFrame) (r : SquadRow) :
  In r (rows sub) -> f r = true -> df_empty (df_filter f sub) = false.
Proof.
  intros Hin Hf. unfold df_empty, df_filter; simpl.
  destruct (filter f (rows sub)) eqn:F; [|reflexivity].
  pose proof (filter_nil_none _ _ F r Hin). congruence.
Qed.

Lemma df_nonempty (sub : DataFrame) (r : SquadRow) :
  In r (rows sub) -> df_empty sub = false.
Proof. unfold df_empty. destruct (rows sub); [intros [] | reflexivity]. Qed.

(** On a subset whose players all have skill [c], a unit with at least one
    player of its position group averages [c]. *)
Lemma get_unit_average_const (c : Q) (sub : DataFrame) :
  (forall r, In r (rows sub) -> skill r == c) ->
  ((exists r, In r (rows sub) /\ is_forward r = true) ->
   get_unit_average sub "Pack" == c)
  /\ ((exists r, In r (rows sub) /\ is_back r = true) ->
      get_unit_average sub "Control" == c
      /\ get_unit_average sub "Strike" == c).
Proof.
  intros Hall.
  split; [intros (r & Hin & Hr) | intros (r & Hin & Hr); split];
    unfold get_unit_average;
    rewrite (df_nonempty sub r Hin); cbn [String.eqb Ascii.eqb Bool.eqb].
  - rewrite (df_filter_nonempty is_forward sub r Hin Hr). simpl negb. cbv iota.
    apply mean_skill_filter_const; [exact Hall|].
    apply (df_filter_nonempty is_forward sub r Hin Hr).
  - assert (Hb := df_filter_nonempty is_back sub r Hin Hr).
    destruct (has_shirt_number sub).
    + destruct (df_empty (df_filter is_halfback sub)) eqn:Hh; simpl negb; cbv iota.
      * rewrite Hb. simpl. now apply mean_skill_filter_const.
      * now apply mean_skill_filter_const.
    + rewrite Hb. simpl. now apply mean_skill_filter_const.
  - assert (Hb := df_filter_nonempty is_back sub r Hin Hr).
    assert (Hall' : forall x, In x (rows (df_filter is_back sub)) -> skill x == c).
    { intros x Hx. apply Hall. unfold df_filter in Hx; simpl in Hx.
      now apply filter_In in Hx. }
    destruct (has_shirt_number sub).
    + cbn [has_shirt_number df_filter].
      destruct (df_empty (df_filter (fun r0 => negb (is_halfback r0))
                                    (df_filter is_back sub))) eqn:Hs;
        simpl negb; cbv iota.
      * rewrite Hb. simpl. now apply mean_skill_filter_const.
      * now apply mean_skill_filter_const.
    + rewrite Hb. simpl. now apply mean_skill_filter_const.
Qed.

Lemma get_tactical_metrics_const (c : Q) (df : DataFrame) (team : string)
    (params : ParameterSet) :
  (forall r, In r (rows df) -> country r = team -> skill r == c) ->
  full_squad df team ->
  exists m, get_tactical_metrics df team params = Some m
            /\ pack_xv m == c /\ pack_bench m == c
            /\ total_score m ==
               c * (WEIGHT_PACK params + WEIGHT_CONTROL params + WEIGHT_STRIKE params)
                 * (WEIGHT_STARTERS params + WEIGHT_BENCH params).
Proof.
  intros Hall (Hsf & Hsb & Hbf & Hbb). unfold get_tactical_metrics.
  set (squad := df_filter (fun r => String.eqb (country r) team) df).
  assert (Hin_squad : forall r, In r (rows df) -> country r = team -> In r (rows squad)).
  { intros r Hin Hc. unfold squad, df_filter; simpl. apply filter_In.
    split; [exact Hin | now apply String.eqb_eq]. }
  assert (Hsquad : df_empty squad = false).
  { destruct Hsf as (r & Hin & Hc & _). apply (df_nonempty squad r). auto. }
  rewrite Hsquad.
  assert (Hunit : forall st pos (f : SquadRow -> bool),
             (forall r, f r = true <-> position_group r = pos) ->
             fields df team st pos ->
             let sub := df_filter f (df_filter (fun r => (starting r =? st)%Z) squad) in
             (forall r, In r (rows sub) -> skill r == c)
             /\ exists r, In r (rows sub) /\ f r = true).
  { intros st pos f Hf (r & Hin & Hc & Hst & Hpos). split.
    - intros x Hx. unfold df_filter, squad in Hx; simpl in Hx.
      apply filter_In in Hx. destruct Hx as [Hx _].
      apply filter_In in Hx. destruct Hx as [Hx _].
      apply filter_In in Hx. destruct Hx as [Hx Hcx].
      apply String.eqb_eq in Hcx. now apply Hall.
    - exists r. split; [|now apply Hf].
      unfold df_filter; simpl. apply filter_In. split; [|now apply Hf].
      apply filter_In. split; [now apply Hin_squad | now apply Z.eqb_eq]. }
  assert (Hfw : forall r, is_forward r = true <-> position_group r = "Forwards")
    by (intros r; apply String.eqb_eq).
  assert (Hbk : forall r, is_back r = true <-> position_group r = "Backs")
    by (intros r; apply String.eqb_eq).
  destruct (Hunit 1%Z "Forwards" is_forward Hfw Hsf) as [A1 E1].
  destruct (Hunit 1%Z "Backs" is_back Hbk Hsb) as [A2 E2].
  destruct (Hunit 0%Z "Forwards" is_forward Hfw Hbf) as [A3 E3].
  destruct (Hunit 0%Z "Backs" is_back Hbk Hbb) as [A4 E4].
  destruct (get_unit_average_const c _ A1) as [P1 _]. specialize (P1 E1).
  destruct (get_unit_average_const c _ A2) as [_ C2]. destruct (C2 E2) as [C2c C2s].
  destruct (get_unit_average_const c _ A3) as [P3 _]. specialize (P3 E3).
  destruct (get_unit_average_const c _ A4) as [_ C4]. destruct (C4 E4) as [C4c C4s].
  eexists. split; [reflexivity|]. cbn [pack_xv pack_bench total_score].
  split; [exact P1|]. split; [exact P3|].
  rewrite P1, C2c, C2s, P3, C4c, C4s. ring.
Qed.

(** C8, as stated, fails.  Both teams start 15 players and have 5
    substitutes, every skill is 75, neither team is in the ELO table and the
    parameters are the defaults; but the home bench holds forwards only, so
    its two back units fall to the default 70, and the margin is 1.6685. *)
Lemma level_skills_uneven_benches :
  Forall (fun r => skill r = 75.0) (rows forward_bench_df)
  /\ List.length (starters_of forward_bench_df "Barbarians") = 15%nat
  /\ List.length (starters_of forward_bench_df "Lions") = 15%nat
  /\ List.length (substitutes_of forward_bench_df "Barbarians") = 5%nat
  /\ List.length (substitutes_of forward_bench_df "Lions") = 5%nat
  /\ dict_get WR_ELO "Barbarians" 75.0 = dict_get WR_ELO "Lions" 75.0
  /\ HOME_ADVANTAGE DEFAULT_CONFIG == 2
  /\ exists m p d,
       simulate_match odd_sigmoid "Barbarians" "Lions" forward_bench_df DEFAULT_CONFIG
       = SimPrediction "Barbarians" "Lions" m p d
       /\ m == 1.6685 /\ ~ m == 2.
Proof.
  split; [repeat constructor|].
  do 6 (split; [reflexivity|]).
  do 3 eexists.
  split; [eapply simulate_match_prediction; vm_compute; reflexivity|].
  split; vm_compute; [reflexivity | discriminate].
Qed.

(** C8 (amended). Take two teams whose players all have skill 75 and which
    both field forwards and backs among their starters and among their
    substitutes, equal ELO ratings, and the default parameters (home
    advantage 2.0).  Then the final margin is exactly 2 and the home win
    probability is the standard normal distribution function at 2 / 13.5. *)
Theorem level_teams_margin_is_home_advantage (erf : R -> R)
    (home away : string) (df : DataFrame) :
  (forall r, In r (rows df) -> country r = home \/ country r = away ->
             skill r == 75) ->
  full_squad df home ->
  full_squad df away ->
  dict_get WR_ELO home 75.0 == dict_get WR_ELO away 75.0 ->
  exists m p d,
    simulate_match erf home away df DEFAULT_CONFIG = SimPrediction home away m p d
    /\ m == 2
    /\ p = std_normal_cdf erf (2 / 13.5)%R.
Proof.
  intros Hskill Hh Ha Helo.
  destruct (get_tactical_metrics_const 75 df home DEFAULT_CONFIG)
    as (h & Hgh & Hh1 & Hh2 & Hh3); [intros r Hin Hc; apply Hskill; auto | exact Hh |].
  destruct (get_tactical_metrics_const 75 df away DEFAULT_CONFIG)
    as (a & Hga & Ha1 & Ha2 & Ha3); [intros r Hin Hc; apply Hskill; auto | exact Ha |].
  rewrite (simulate_match_prediction erf home away df DEFAULT_CONFIG h a Hgh Hga).
  assert (Hm : fused_margin DEFAULT_CONFIG home away h a == 2).
  { unfold fused_margin, apply_mismatch, pack_difference, base_tactical, elo_margin.
    cbn [MISMATCH_THRESHOLD MISMATCH_BONUS TACTICAL_SCALING_FACTOR ELO_SCALING
         WEIGHT_MODEL_TACTICAL WEIGHT_MODEL_ELO HOME_ADVANTAGE DEFAULT_CONFIG] in *.
    cbn [WEIGHT_PACK WEIGHT_CONTROL WEIGHT_STRIKE WEIGHT_STARTERS WEIGHT_BENCH
         DEFAULT_CONFIG] in Hh3, Ha3.
    destruct (Qlt_le_dec _ _) as [H1|H1]; [exfalso; lra|].
    destruct (Qlt_le_dec _ _) as [H2|H2]; [exfalso; lra|].
    lra. }
  do 3 eexists. split; [reflexivity|]. split; [exact Hm|].
  rewrite prob_home_of_cdf. f_equal.
  assert (E : fused_margin DEFAULT_CONFIG home away h a / STD_DEV DEFAULT_CONFIG
              == 4 # 27) by (rewrite Hm; reflexivity).
  rewrite (Qeq_eqR _ _ E). unfold Q2R; simpl. lra.
Qed.

Lemma level_df_full_squad (team : string) :
  team = "Barbarians" \/ team = "Lions" -> full_squad level_df team.
Proof.
  intros [-> | ->]; repeat split.
  - exists (player "Barbarians" "Forwards" 75.0 1 1). repeat split. simpl; tauto.
  - exists (player "Barbarians" "Backs" 75.0 1 9). repeat split. simpl; tauto.
  - exists (player "Barbarians" "Forwards" 75.0 0 16). repeat split. simpl; tauto.
  - exists (player "Barbarians" "Backs" 75.0 0 20). repeat split. simpl; tauto.
  - exists (player "Lions" "Forwards" 75.0 1 1). repeat split. simpl; tauto.
  - exists (player "Lions" "Backs" 75.0 1 9). repeat split. simpl; tauto.
  - exists (player "Lions" "Forwards" 75.0 0 16). repeat split. simpl; tauto.
  - exists (player "Lions" "Backs" 75.0 0 20). repeat split. simpl; tauto.
Qed.

Lemma level_df_skills (r : SquadRow) : In r (rows level_df) -> skill r == 75.
Proof.
  intros Hin. simpl in Hin.
  repeat (destruct Hin as [<- | Hin]; [reflexivity|]). contradiction.
Qed.

Lemma level_teams_margin_is_home_advantage_witness :
  (forall r, In r (rows level_df) ->
             country r = "Barbarians" \/ country r = "Lions" -> skill r == 75)
  /\ full_squad level_df "Barbarians"
  /\ full_squad level_df "Lions"
  /\ dict_get WR_ELO "Barbarians" 75.0 == dict_get WR_ELO "Lions" 75.0
  /\ exists m p d,
       simulate_match odd_sigmoid "Barbarians" "Lions" level_df DEFAULT_CONFIG
       = SimPrediction "Barbarians" "Lions" m p d
       /\ m == 2
       /\ p = std_normal_cdf odd_sigmoid (2 / 13.5)%R.
Proof.
  assert (H1 : forall r, In r (rows level_df) ->
                         country r = "Barbarians" \/ country r = "Lions" ->
                         skill r == 75)
    by (intros r Hin _; now apply level_df_skills).
  assert (H2 := level_df_full_squad "Barbarians" (or_introl eq_refl)).
  assert (H3 := level_df_full_squad "Lions" (or_intror eq_refl)).
  assert (H4 : dict_get WR_ELO "Barbarians" 75.0 == dict_get WR_ELO "Lions" 75.0)
    by reflexivity.
  repeat (split; [assumption|]).
  exact (level_teams_margin_is_home_advantage odd_sigmoid "Barbarians" "Lions"
           level_df H1 H2 H3 H4).
Defined.

(* ================================================================== *)
(** * Properties of the calibrator *)
(* ================================================================== *)

Section CalibratorProperties.

Context {ops : StrOps}.

(** A trial is skipped when [evaluate_params] returns [None]: the loop goes
    on with the next combination and the ranking is left as it was. *)
Lemma grid_loop_skips_none (erf : R -> R) (fs : FileSystem)
    (tactical home_adv : Q) (rest : list (Q * Q))
    (results : list GridResult) (best_rmse : option R)
    (best_params : option GridResult) :
  evaluate_params erf fs tactical home_adv = Ok None ->
  grid_loop erf fs ((tactical, home_adv) :: rest) results best_rmse best_params
  = grid_loop erf fs rest results best_rmse best_params.
Proof. intros H. simpl. now rewrite H. Qed.

(** An exception of [evaluate_params] is not caught by the loop. *)
Lemma grid_loop_propagates (erf : R -> R) (fs : FileSystem)
    (tactical home_adv : Q) (rest : list (Q * Q))
    (results : list GridResult) (best_rmse : option R)
    (best_params : option GridResult) (e : exn) :
  evaluate_params erf fs tactical home_adv = Raised e ->
  grid_loop erf fs ((tactical, home_adv) :: rest) results best_rmse best_params
  = Raised e.
Proof. intros H. simpl. now rewrite H. Qed.

(** A match whose loading raises discards the trial. *)
Lemma predict_all_load_failure (erf : R -> R) (fs : FileSystem)
    (config : ParameterSet) (m : HistoricalMatch) (rest : list HistoricalMatch)
    (predictions : list sim_result) (e : exn) :
  load_match_squads fs (match_file m) = Raised e ->
  predict_all erf fs config (m :: rest) predictions = None.
Proof. intros H. simpl. now rewrite H. Qed.

(** When every sheet loads as a table, the loop predicts every match. *)
Lemma predict_all_tables (erf : R -> R) (fs : FileSystem) (config : ParameterSet)
    (matches : list HistoricalMatch) (dfs : list DataFrame)
    (predictions : list sim_result) :
  Forall2 (fun m df => load_match_squads fs (match_file m) = Ok (Table df))
          matches dfs ->
  predict_all erf fs config matches predictions
  = Some (predictions
          ++ map (fun md => simulate_match erf (home (fst md)) (away (fst md))
                                           (snd md) config)
                 (combine matches dfs))%list.
Proof.
  intros H. revert predictions.
  induction H as [|m df matches dfs Hm _ IH]; intros predictions.
  - simpl. now rewrite app_nil_r.
  - cbn [predict_all]. rewrite Hm.
    cbn [simulate_match_frame country_column bind combine map fst snd].
    rewrite IH, <- app_assoc. reflexivity.
Qed.

(** One error result among the predictions makes the metrics raise. *)
Lemma metrics_loop_raises (pairs : list (sim_result * HistoricalMatch))
    (errors : list Q) (correct : Z) :
  (exists e real, In (SimError e, real) pairs) ->
  metrics_loop pairs errors correct = Raised (KeyError "margin").
Proof.
  revert errors correct.
  induction pairs as [|[pred real] pairs IH]; intros errors correct (e & r & Hin);
    simpl in *; [contradiction|].
  destruct pred as [msg | hm aw m p d]; [reflexivity|].
  destruct Hin as [Hin|Hin]; [discriminate|].
  apply IH. now exists e, r.
Qed.

Lemma combine_map_fst {A B C : Type} (f : A * B -> C) (l : list A) (l' : list B)
    (x : A) (y : B) :
  In (x, y) (combine l l') ->
  In (f (x, y), x) (combine (map f (combine l l')) l).
Proof.
  revert l'. induction l as [|a l IH]; intros [|b l'] Hin; simpl in *;
    try contradiction.
  destruct Hin as [Hin|Hin]; [injection Hin as -> ->; now left | right; now apply IH].
Qed.

(** In general: if every historical match loads as a table and one of them
    has no row for its home or its away team, the trial is not discarded,
    [evaluate_params] raises. *)
Lemma error_result_escapes_trial (erf : R -> R) (fs : FileSystem) (tw ha : Q)
    (dfs : list DataFrame) :
  Forall2 (fun m df => load_match_squads fs (match_file m) = Ok (Table df))
          REAL_RESULTS dfs ->
  (exists m df, In (m, df) (combine REAL_RESULTS dfs)
                /\ (no_rows df (home m) \/ no_rows df (away m))) ->
  evaluate_params erf fs tw ha = Raised (KeyError "margin").
Proof.
  intros Hload (m & df & Hin & Hno). unfold evaluate_params.
  generalize dependent REAL_RESULTS. intros rr Hload Hin.
  rewrite (predict_all_tables erf fs _ _ dfs [] Hload), app_nil_l.
  set (f := fun md : HistoricalMatch * DataFrame =>
              simulate_match erf (home (fst md)) (away (fst md)) (snd md)
                             (trial_config tw ha)).
  assert (Hpred : In (f (m, df), m) (combine (map f (combine rr dfs)) rr))
    by now apply combine_map_fst.
  unfold calculate_metrics.
  destruct (map f (combine rr dfs)) as [|p0 ps] eqn:E;
    [simpl in Hpred; contradiction|].
  rewrite (metrics_loop_raises _ [] 0%Z); [reflexivity|].
  exists ("Missing data in CSV for " ++ home m ++ " or " ++ away m)%string, m.
  replace (f (m, df))
    with (SimError ("Missing data in CSV for " ++ home m ++ " or " ++ away m)%string)
    in Hpred; [exact Hpred|].
  symmetry. unfold f. simpl fst. simpl snd. apply simulate_match_error.
  destruct Hno as [H|H]; [left | right]; now apply get_tactical_metrics_none_iff.
Qed.

End CalibratorProperties.

(** With the sample file system only the first lineup sheet exists: every
    trial is discarded and the search ends without any result. *)
Example missing_file_discards_trial (erf : R -> R) (tw ha : Q) :
  evaluate_params erf sample_fs tw ha = Ok None.
Proof. reflexivity. Qed.

(** A lineup without any name loads as a frame without columns; the trial
    is discarded too. *)
Example empty_lineup_discards_trial (erf : R -> R) (tw ha : Q) :
  load_match_squads blank_sheet_fs "France-Ireland.xlsx" = Ok NoColumns
  /\ evaluate_params erf blank_sheet_fs tw ha = Ok None.
Proof. split; reflexivity. Qed.

Example missing_file_discards_every_trial (erf : R -> R) :
  grid_loop erf sample_fs (list_prod tactical_weights home_advantages) [] None None
  = Ok ([], None)
  /\ grid_search erf sample_fs = Raised RuntimeError.
Proof. split; reflexivity. Qed.

(** C7 (the code departs from it). The first historical match loads but
    has no row for Ireland, so [simulate_match] returns its error result;
    [evaluate_params] then does not return [None] for the trial: reading
    the margin of that result raises [KeyError] outside the [try], and the
    exception ends the whole grid search at its first combination. *)
Theorem missing_team_aborts_grid_search (erf : R -> R) (tw ha : Q) :
  (exists df,
     load_match_squads blank_column_fs "France-Ireland.xlsx" = Ok (Table df)
     /\ simulate_match erf "France" "Ireland" df (trial_config tw ha)
        = SimError "Missing data in CSV for France or Ireland")
  /\ evaluate_params erf blank_column_fs tw ha = Raised (KeyError "margin")
  /\ grid_search erf blank_column_fs = Raised (KeyError "margin").
Proof.
  split; [eexists; split; [vm_compute; reflexivity | reflexivity]|].
  split; vm_compute; reflexivity.
Qed.

(* ================================================================== *)
(** * Further properties: a record and its own name *)
(* ================================================================== *)

Section OwnRecord.

Context {ops : StrOps}.

(** X3. Every record of the table is found again by its own name and
    country: the answer is a record of the same country with the same
    normalized name, and it is that very record when no other record of
    the country shares its normalized name. *)
Theorem match_player_data_finds_own_record (db : list PlayerRecord) (r : PlayerRecord) :
  In r db ->
  exists r',
    match_player_data (db_name r) (db_country r) db = Some r'
    /\ In r' db
    /\ same_country (db_country r) r'
    /\ normalize_name (db_name r') = normalize_name (db_name r)
    /\ ((forall x, In x db -> same_country (db_country r) x ->
                   normalize_name (db_name x) = normalize_name (db_name r) -> x = r) ->
        r' = r).
Proof.
  intros Hin.
  destruct (match_player_data_exact (db_name r) (db_country r) db)
    as (r' & Hr' & pre & post & E & [Hc He] & _).
  { exists r. split; [exact Hin | split; reflexivity]. }
  exists r'. split; [exact Hr'|].
  assert (In r' db) as Hin' by (rewrite E; apply in_or_app; right; now left).
  repeat split; auto.
Qed.

End OwnRecord.

Lemma match_player_data_finds_own_record_witness :
  In (mkPlayerRecord (Some "Thomas Ramos") "France" "Backs" 85) dupont_db
  /\ exists r',
       match_player_data (Some "Thomas Ramos") "France" dupont_db = Some r'
       /\ In r' dupont_db
       /\ same_country "France" r'
       /\ normalize_name (db_name r') = normalize_name (Some "Thomas Ramos")
       /\ ((forall x, In x dupont_db -> same_country "France" x ->
                      normalize_name (db_name x) = normalize_name (Some "Thomas Ramos") ->
                      x = mkPlayerRecord (Some "Thomas Ramos") "France" "Backs" 85) ->
           r' = mkPlayerRecord (Some "Thomas Ramos") "France" "Backs" 85).
Proof.
  assert (In (mkPlayerRecord (Some "Thomas Ramos") "France" "Backs" 85) dupont_db) as H
    by (simpl; tauto).
  split; [exact H|].
  exact (match_player_data_finds_own_record dupont_db _ H).
Defined.

(* ================================================================== *)
(** * Further properties: the fallback skill *)
(* ================================================================== *)

Section FallbackBounds.

Context {ops : StrOps}.

Lemma StronglySorted_nth_le (s : list Q) :
  StronglySorted Qle s ->
  forall (i j : nat) (d : Q), (i <= j < List.length s)%nat -> nth i s d <= nth j s d.
Proof.
  induction 1 as [|x s Hs IH Hx]; intros i j d Hij; simpl in *; [lia|].
  destruct j as [|j]; [replace i with 0%nat by lia; apply Qle_refl|].
  destruct i as [|i]; [| apply IH; lia].
  rewrite Forall_forall in Hx. apply Hx. apply nth_In. lia.
Qed.

Lemma sort_values_nth_le (l : list Q) (i j : nat) (d : Q) :
  (i <= j < List.length l)%nat ->
  nth i (sort_values l) d <= nth j (sort_values l) d.
Proof.
  intros Hij. apply StronglySorted_nth_le.
  - apply Sorted_StronglySorted; [|apply sort_values_Sorted].
    intros x y z. apply Qle_trans.
  - now rewrite sort_values_length.
Qed.

Lemma sort_values_nth_In (l : list Q) (i : nat) (d : Q) :
  (i < List.length l)%nat -> In (nth i (sort_values l) d) l.
Proof.
  intros Hi. apply (Permutation_in _ (sort_values_perm l)).
  apply nth_In. now rewrite sort_values_length.
Qed.

Lemma interpolation_between (a b w : Q) :
  a <= b -> 0 <= w -> w <= 1 -> a <= a + (b - a) * w /\ a + (b - a) * w <= b.
Proof. intros Hab Hw0 Hw1. split; nra. Qed.

Lemma quantile_between (q : Q) (values : list Q) :
  0 <= q -> q <= 1 -> values <> [] ->
  exists lo hi, In lo values /\ In hi values
                /\ lo <= quantile q values /\ quantile q values <= hi.
Proof.
  intros Hq0 Hq1 Hne. unfold quantile. rewrite sort_values_length.
  set (n := List.length values).
  assert (1 <= n)%nat as Hn by (subst n; destruct values; simpl; [congruence | lia]).
  set (m := inject_Z (Z.of_nat n - 1)).
  assert (0 <= m) as Hm.
  { unfold m. change 0 with (inject_Z 0). rewrite <- Zle_Qle. lia. }
  set (pos := q * m).
  assert (0 <= pos) as Hp0 by (unfold pos; nra).
  assert (pos <= m) as Hp1 by (unfold pos; nra).
  set (lower := Qfloor pos).
  assert (0 <= lower)%Z as Hl0.
  { change 0%Z with (Qfloor 0). now apply Qfloor_resp_le. }
  assert (lower <= Z.of_nat n - 1)%Z as Hl1.
  { unfold lower. rewrite <- (Qfloor_Z (Z.of_nat n - 1)). now apply Qfloor_resp_le. }
  pose proof (Qfloor_le pos) as Hf0. pose proof (Qlt_floor pos) as Hf1. fold lower in Hf0, Hf1.
  rewrite inject_Z_plus in Hf1.
  set (w := pos - inject_Z lower).
  assert (0 <= w) as Hw0 by (unfold w; lra).
  assert (w <= 1) as Hw1 by (unfold w; change (inject_Z 1) with 1 in Hf1; lra).
  set (k := Z.to_nat lower).
  assert (k < n)%nat as Hk by (unfold k; lia).
  replace (Z.to_nat (lower + 1)) with (S k) by (unfold k; lia).
  set (a := nth k (sort_values values) 0).
  assert (In a values) as Ha by (apply sort_values_nth_In; exact Hk).
  destruct (Nat.lt_ge_cases (S k) n) as [Hlt|Hge].
  - set (b := nth (S k) (sort_values values) a).
    assert (In b values) as Hb by (apply sort_values_nth_In; exact Hlt).
    assert (a <= b) as Hab.
    { unfold a, b. rewrite (nth_indep _ 0 a) by (rewrite sort_values_length; exact Hk).
      apply sort_values_nth_le. fold n. lia. }
    exists a, b. split; [exact Ha|]. split; [exact Hb|].
    now apply interpolation_between.
  - rewrite (nth_overflow (sort_values values) a)
      by (rewrite sort_values_length; exact Hge).
    exists a, a. split; [exact Ha|]. split; [exact Ha|].
    apply interpolation_between; [apply Qle_refl | exact Hw0 | exact Hw1].
Qed.

Lemma get_country_fallback_skill_range (team : string) (db : list PlayerRecord) :
  ((forall r, In r db -> ~ same_country team r)
   /\ get_country_fallback_skill team db = 70.0)
  \/ (exists r1 r2,
        In r1 db /\ same_country team r1 /\ In r2 db /\ same_country team r2
        /\ db_skill r1 <= get_country_fallback_skill team db
        /\ get_country_fallback_skill team db <= db_skill r2).
Proof.
  unfold get_country_fallback_skill.
  destruct (country_rows team db) as [|c l] eqn:C.
  - left. split; [|reflexivity]. intros r Hin Hc.
    assert (In r (country_rows team db)) as H by now apply country_rows_iff.
    rewrite C in H. exact H.
  - right.
    destruct (quantile_between 0.25 (map db_skill (c :: l)))
      as (lo & hi & Hlo & Hhi & H1 & H2); [discriminate | discriminate | discriminate |].
    apply in_map_iff in Hlo. destruct Hlo as (r1 & <- & Hr1).
    apply in_map_iff in Hhi. destruct Hhi as (r2 & <- & Hr2).
    rewrite <- C in Hr1, Hr2.
    apply country_rows_iff in Hr1. apply country_rows_iff in Hr2.
    exists r1, r2. tauto.
Qed.

(** X4. The fallback skill of a team is 70 when the team has no rating
    record, and otherwise lies between two ratings of that team: an
    unresolved player is never rated below the team's weakest record nor
    above its strongest one. *)
Theorem fallback_skill_within_team_ratings (team : string) (db : list PlayerRecord) :
  ((forall r, In r db -> ~ same_country team r)
   /\ get_country_fallback_skill team db = 70.0)
  \/ (exists r1 r2,
        In r1 db /\ same_country team r1 /\ In r2 db /\ same_country team r2
        /\ db_skill r1 <= get_country_fallback_skill team db
        /\ get_country_fallback_skill team db <= db_skill r2).
Proof. apply get_country_fallback_skill_range. Qed.

(** Sorting sees a list only up to a permutation. *)
Lemma Forall2_Qeq_refl (l : list Q) : Forall2 Qeq l l.
Proof. induction l; constructor; [reflexivity | assumption]. Qed.

Lemma Forall2_Qeq_trans (l1 l2 l3 : list Q) :
  Forall2 Qeq l1 l2 -> Forall2 Qeq l2 l3 -> Forall2 Qeq l1 l3.
Proof.
  intros H. revert l3. induction H as [|x y l1 l2 Hxy H IH]; intros l3 H3.
  - inversion H3. constructor.
  - inversion H3; subst. constructor; [now rewrite Hxy | now apply IH].
Qed.

Lemma insert_sorted_Forall2 (x : Q) (s s' : list Q) :
  Forall2 Qeq s s' -> Forall2 Qeq (insert_sorted x s) (insert_sorted x s').
Proof.
  induction 1 as [|z z' s s' Hz H IH]; simpl; [repeat constructor; reflexivity|].
  rewrite <- Hz. destruct (Qle_bool x z).
  - constructor; [reflexivity|]. now constructor.
  - now constructor.
Qed.

Lemma Qle_bool_total (x y : Q) : Qle_bool x y = false -> Qle_bool y x = true.
Proof.
  intros H. apply Qle_bool_iff. apply Qlt_le_weak, Qnot_le_lt.
  intros Hle. apply Qle_bool_iff in Hle. congruence.
Qed.

Lemma Qle_bool_antisym (x y : Q) :
  Qle_bool x y = true -> Qle_bool y x = true -> x == y.
Proof. rewrite !Qle_bool_iff. intros. now apply Qle_antisym. Qed.

Lemma insert_sorted_comm (x y : Q) (s : list Q) :
  Forall2 Qeq (insert_sorted x (insert_sorted y s))
              (insert_sorted y (insert_sorted x s)).
Proof.
  induction s as [|z s IH]; simpl.
  - destruct (Qle_bool x y) eqn:Exy, (Qle_bool y x) eqn:Eyx.
    + pose proof (Qle_bool_antisym _ _ Exy Eyx) as E.
      repeat constructor; [exact E | now symmetry].
    + apply Forall2_Qeq_refl.
    + apply Forall2_Qeq_refl.
    + apply Qle_bool_total in Exy. congruence.
  - destruct (Qle_bool y z) eqn:Eyz, (Qle_bool x z) eqn:Exz; simpl;
      rewrite ?Eyz, ?Exz.
    + destruct (Qle_bool x y) eqn:Exy, (Qle_bool y x) eqn:Eyx;
        rewrite ?Exz, ?Eyz.
      * pose proof (Qle_bool_antisym _ _ Exy Eyx) as E.
        constructor; [exact E|]. constructor; [now symmetry|]. apply Forall2_Qeq_refl.
      * apply Forall2_Qeq_refl.
      * apply Forall2_Qeq_refl.
      * apply Qle_bool_total in Exy. congruence.
    + destruct (Qle_bool x y) eqn:Exy; rewrite ?Exz; [|apply Forall2_Qeq_refl].
      exfalso. apply Qle_bool_iff in Exy, Eyz.
      assert (Qle_bool x z = true) by (apply Qle_bool_iff; lra). congruence.
    + destruct (Qle_bool y x) eqn:Eyx; rewrite ?Eyz; [|apply Forall2_Qeq_refl].
      exfalso. apply Qle_bool_iff in Eyx, Exz.
      assert (Qle_bool y z = true) by (apply Qle_bool_iff; lra). congruence.
    + constructor; [reflexivity | exact IH].
Qed.

Lemma sort_values_Permutation (l l' : list Q) :
  Permutation l l' -> Forall2 Qeq (sort_values l) (sort_values l').
Proof.
  induction 1 as [|x l l' _ IH|x y l|l1 l2 l3 _ IH1 _ IH2]; simpl.
  - constructor.
  - now apply insert_sorted_Forall2.
  - apply insert_sorted_comm.
  - now apply (Forall2_Qeq_trans _ (sort_values l2)).
Qed.

Lemma Forall2_Qeq_nth (s s' : list Q) :
  Forall2 Qeq s s' -> forall (k : nat) (d d' : Q), d == d' -> nth k s d == nth k s' d'.
Proof.
  induction 1 as [|x y s s' Hxy H IH]; intros [|k] d d' Hd; simpl; auto.
Qed.

Lemma quantile_Permutation (q : Q) (l l' : list Q) :
  Permutation l l' -> quantile q l == quantile q l'.
Proof.
  intros HP. pose proof (sort_values_Permutation l l' HP) as HF.
  unfold quantile. rewrite !sort_values_length, (Permutation_length HP).
  set (lower := Qfloor (q * inject_Z (Z.of_nat (List.length l') - 1))).
  set (w := q * inject_Z (Z.of_nat (List.length l') - 1) - inject_Z lower).
  assert (Ha : nth (Z.to_nat lower) (sort_values l) 0
               == nth (Z.to_nat lower) (sort_values l') 0)
    by (apply Forall2_Qeq_nth; [exact HF | reflexivity]).
  assert (Hb : nth (Z.to_nat (lower + 1)) (sort_values l)
                   (nth (Z.to_nat lower) (sort_values l) 0)
               == nth (Z.to_nat (lower + 1)) (sort_values l')
                      (nth (Z.to_nat lower) (sort_values l') 0))
    by (apply Forall2_Qeq_nth; [exact HF | exact Ha]).
  apply Qplus_comp; [exact Ha|].
  apply Qmult_comp; [|reflexivity].
  apply Qplus_comp; [exact Hb | now apply Qopp_comp].
Qed.

Lemma filter_Permutation {A : Type} (f : A -> bool) (l l' : list A) :
  Permutation l l' -> Permutation (filter f l) (filter f l').
Proof.
  induction 1 as [|x l l' _ IH|x y l|l1 l2 l3 _ IH1 _ IH2]; simpl.
  - constructor.
  - destruct (f x); [now constructor | exact IH].
  - destruct (f x), (f y); try reflexivity. apply perm_swap.
  - now transitivity (filter f l2).
Qed.

(** X5. The fallback skill does not depend on the order of the records in
    the rating table. *)
Theorem fallback_skill_ignores_table_order (team : string)
    (db db' : list PlayerRecord) :
  Permutation db db' ->
  get_country_fallback_skill team db == get_country_fallback_skill team db'.
Proof.
  intros HP. unfold get_country_fallback_skill.
  assert (HC : Permutation (country_rows team db) (country_rows team db'))
    by (apply filter_Permutation; exact HP).
  destruct (country_rows team db) as [|c l] eqn:C,
           (country_rows team db') as [|c' l'] eqn:C'.
  - reflexivity.
  - apply Permutation_nil in HC. discriminate.
  - symmetry in HC. apply Permutation_nil in HC. discriminate.
  - apply quantile_Permutation. now apply Permutation_map.
Qed.

End FallbackBounds.

Lemma fallback_skill_ignores_table_order_witness :
  Permutation sample_db (rev sample_db)
  /\ get_country_fallback_skill "France" sample_db
     == get_country_fallback_skill "France" (rev sample_db).
Proof.
  split; [apply Permutation_rev|].
  apply (fallback_skill_ignores_table_order "France" sample_db (rev sample_db)).
  apply Permutation_rev.
Defined.

(* ================================================================== *)
(** * Further properties: the squad aggregator *)
(* ================================================================== *)

Lemma Qsum_between (lo hi : Q) (l : list Q) :
  (forall x, In x l -> lo <= x /\ x <= hi) ->
  inject_Z (Z.of_nat (List.length l)) * lo <= Qsum l
  /\ Qsum l <= inject_Z (Z.of_nat (List.length l)) * hi.
Proof.
  induction l as [|x l IH]; intros H.
  - simpl. change (inject_Z 0) with 0. split; lra.
  - change (Qsum (x :: l)) with (x + Qsum l).
    change (List.length (x :: l)) with (S (List.length l)).
    rewrite Nat2Z.inj_succ, <- Z.add_1_r, inject_Z_plus.
    change (inject_Z 1) with 1.
    destruct (H x (or_introl eq_refl)) as [H1 H2].
    destruct (IH (fun y Hy => H y (or_intror Hy))) as [H3 H4].
    split; lra.
Qed.

Lemma Qmean_between (lo hi : Q) (l : list Q) :
  l <> [] -> (forall x, In x l -> lo <= x /\ x <= hi) ->
  lo <= Qmean l /\ Qmean l <= hi.
Proof.
  intros Hne H. destruct (Qsum_between lo hi l H) as [H1 H2]. unfold Qmean.
  assert (0 < inject_Z (Z.of_nat (List.length l))) as Hn.
  { change 0 with (inject_Z 0). rewrite <- Zlt_Qlt.
    destruct l; [congruence | simpl List.length; lia]. }
  split.
  - apply Qle_shift_div_l; [exact Hn | lra].
  - apply Qle_shift_div_r; [exact Hn | lra].
Qed.








Lemma filter_filter_implies {A : Type} (f g : A -> bool) (l : list A) :
  (forall x, f x = true -> g x = true) -> filter f (filter g l) = filter f l.
Proof.
  intros H. induction l as [|x l IH]; simpl; [reflexivity|].
  destruct (g x) eqn:G; simpl.
  - now rewrite IH.
  - destruct (f x) eqn:F; [rewrite (H x F) in G; discriminate | exact IH].
Qed.

Lemma get_tactical_metrics_restrict (g : SquadRow -> bool) (df : DataFrame)
    (team : string) (params : ParameterSet) :
  (forall r, country r = team -> g r = true) ->
  get_tactical_metrics (df_filter g df) team params
  = get_tactical_metrics df team params.
Proof.
  intros H. unfold get_tactical_metrics.
  assert (E : df_filter (fun r => String.eqb (country r) team) (df_filter g df)
              = df_filter (fun r => String.eqb (country r) team) df).
  { unfold df_filter; simpl. f_equal. apply filter_filter_implies.
    intros x Hx. apply H. now apply String.eqb_eq. }
  now rewrite E.
Qed.

(** X7. A prediction depends on the rows of the two teams only: removing
    from the table every row of any other team changes nothing. *)
Theorem simulate_match_ignores_other_teams (erf : R -> R) (home away : string)
    (df : DataFrame) (params : ParameterSet) :
  simulate_match erf home away
    (df_filter (fun r => String.eqb (country r) home || String.eqb (country r) away) df)
    params
  = simulate_match erf home away df params.
Proof.
  unfold simulate_match.
  rewrite !get_tactical_metrics_restrict; [reflexivity | |];
    intros r <-; rewrite String.eqb_refl; [apply orb_true_r | reflexivity].
Qed.

(* ================================================================== *)
(** * Further properties: the fusion model and the main block *)
(* ================================================================== *)

Lemma Qlt_bool_iff (x y : Q) : Qlt_bool x y = true <-> x < y.
Proof.
  unfold Qlt_bool. rewrite negb_true_iff. split.
  - intros H. apply Qnot_le_lt. intros Hle. apply Qle_bool_iff in Hle. congruence.
  - intros H. destruct (Qle_bool y x) eqn:E; [|reflexivity].
    apply Qle_bool_iff in E. lra.
Qed.

Lemma Qlt_bool_false_iff (x y : Q) : Qlt_bool x y = false <-> y <= x.
Proof.
  unfold Qlt_bool. rewrite negb_false_iff. apply Qle_bool_iff.
Qed.

Lemma prob_home_of_lt (erf : R -> R) (z z' : Q) :
  (forall x y : R, (x < y)%R -> (erf x < erf y)%R) ->
  z < z' -> (prob_home_of erf z < prob_home_of erf z')%R.
Proof.
  intros Hincr Hz. unfold prob_home_of.
  assert (0 < sqrt 2)%R as Hs by (apply sqrt_lt_R0; lra).
  assert (Q2R z / sqrt 2 < Q2R z' / sqrt 2)%R as H.
  { apply Rmult_lt_compat_r; [now apply Rinv_0_lt_compat | now apply Qlt_Rlt]. }
  apply Hincr in H. lra.
Qed.

Lemma prob_home_of_0 (erf : R -> R) :
  (forall x : R, erf (- x)%R = (- erf x)%R) -> prob_home_of erf 0 = (1 / 2)%R.
Proof.
  intros Hodd. unfold prob_home_of. rewrite RMicromega.Q2R_0.
  replace (0 / sqrt 2)%R with 0%R
    by (assert (0 < sqrt 2)%R by (apply sqrt_lt_R0; lra); field; lra).
  rewrite (erf_0 erf Hodd). lra.
Qed.

Lemma Qdiv_lt_compat (x y s : Q) : 0 < s -> x < y -> x / s < y / s.
Proof.
  intros Hs Hxy. unfold Qdiv. apply Qmult_lt_compat_r; [|exact Hxy].
  now apply Qinv_lt_0_compat.
Qed.



(** Margins of 2, 120 and 500 under the default standard deviation: the
    first two probabilities differ, the last two are both 1. *)
Example larger_margin_same_probability :
  prob_home_double unit_clamp64 2 (STD_DEV DEFAULT_CONFIG)
  < prob_home_double unit_clamp64 120 (STD_DEV DEFAULT_CONFIG)
  /\ prob_home_double unit_clamp64 120 (STD_DEV DEFAULT_CONFIG) == 1
  /\ prob_home_double unit_clamp64 500 (STD_DEV DEFAULT_CONFIG) == 1.
Proof. vm_compute. repeat split; reflexivity. Qed.

Lemma get_tactical_metrics_with_home_advantage (df : DataFrame) (team : string)
    (params : ParameterSet) (x : Q) :
  get_tactical_metrics df team (with_home_advantage params x)
  = get_tactical_metrics df team params.
Proof. reflexivity. Qed.




Lemma unique_In (l : list string) (x : string) : In x (unique l) <-> In x l.
Proof.
  induction l as [|y l IH]; simpl; [tauto|].
  rewrite filter_In, IH, negb_true_iff, String.eqb_neq.
  destruct (string_dec y x) as [->|Hne]; [tauto|].
  split; [tauto|]. intros [H|H]; [contradiction|]. right. split; [exact H | congruence].
Qed.

Lemma unique_NoDup (l : list string) : NoDup (unique l).
Proof.
  induction l as [|y l IH]; simpl; constructor.
  - rewrite filter_In, String.eqb_refl. simpl. intros [_ H]. discriminate.
  - now apply NoDup_filter.
Qed.

Lemma country_has_metrics (df : DataFrame) (team : string) (params : ParameterSet) :
  In team (unique (map country (rows df))) ->
  exists m, get_tactical_metrics df team params = Some m.
Proof.
  intros H. apply unique_In, in_map_iff in H. destruct H as (r & Hc & Hr).
  destruct (get_tactical_metrics df team params) as [m|] eqn:E; [now exists m|].
  apply get_tactical_metrics_none_iff in E. exfalso. exact (E r Hr Hc).
Qed.

Lemma predictor_main_prints (erf : R -> R) (df : DataFrame) (h a : string) :
  unique (map country (rows df)) = [h; a] ->
  exists report, predictor_main erf df = Printed report.
Proof.
  intros E. unfold predictor_main.
  destruct (country_has_metrics df h DEFAULT_CONFIG) as (hm & Hh);
    [rewrite E; now left|].
  destruct (country_has_metrics df a DEFAULT_CONFIG) as (am & Ha);
    [rewrite E; right; now left|].
  rewrite E, (simulate_match_prediction erf h a df DEFAULT_CONFIG hm am Hh Ha).
  eexists. reflexivity.
Qed.

Lemma filter_differs_twice (h : string) (l : list string) :
  filter (fun y => negb (String.eqb y h)) (filter (fun y => negb (String.eqb y h)) l)
  = filter (fun y => negb (String.eqb y h)) l.
Proof.
  induction l as [|y l IH]; simpl; [reflexivity|].
  destruct (negb (String.eqb y h)) eqn:E; simpl; [rewrite E|]; now rewrite IH.
Qed.

(** The first value kept after [h] by [unique] is the first value of the
    list that differs from [h]. *)
Lemma unique_second (h a : string) (rest l : list string) :
  filter (fun y => negb (String.eqb y h)) (unique l) = a :: rest ->
  exists pre post,
    l = (pre ++ a :: post)%list /\ (forall x, In x pre -> x = h) /\ a <> h.
Proof.
  induction l as [|y l IH]; simpl; [discriminate|].
  destruct (String.eqb y h) eqn:E; simpl.
  - apply String.eqb_eq in E. subst y. rewrite filter_differs_twice.
    intros H. destruct (IH H) as (pre & post & -> & Hpre & Hne).
    exists (h :: pre), post. split; [reflexivity|]. split; [|exact Hne].
    intros x [<-|Hx]; [reflexivity | now apply Hpre].
  - intros H. injection H as -> _. apply String.eqb_neq in E.
    exists [], l. split; [reflexivity|]. split; [intros x []|exact E].
Qed.

Lemma unique_two (h a : string) (l : list string) :
  unique l = [h; a] ->
  exists pre post,
    l = (pre ++ a :: post)%list /\ pre <> []
    /\ (forall x, In x pre -> x = h) /\ a <> h.
Proof.
  destruct l as [|y l]; simpl; [discriminate|].
  intros H. injection H as -> H.
  destruct (unique_second h a [] l H) as (pre & post & -> & Hpre & Hne).
  exists (h :: pre), post. split; [reflexivity|]. split; [discriminate|].
  split; [|exact Hne]. intros x [<-|Hx]; [reflexivity | now apply Hpre].
Qed.

(** X10. The main block reports a prediction exactly when the table holds
    two distinct countries, taken in order of first appearance: the home
    team is the country of the first row, the away team the country of the
    first row of another country, and the report is made from the result
    of [simulate_match] for this pair under the default parameters.
    Otherwise it stops with the list of countries found.  It never prints
    the missing-data error: the two teams it simulates come from the
    table. *)
Theorem predictor_main_never_misses_data (erf : R -> R) (df : DataFrame) :
  let teams := unique (map country (rows df)) in
  NoDup teams
  /\ (forall t, In t teams <-> exists r, In r (rows df) /\ country r = t)
  /\ (List.length teams = 2%nat ->
      exists h a pre r post,
        rows df = (pre ++ r :: post)%list /\ pre <> []
        /\ (forall x, In x pre -> country x = h)
        /\ country r = a /\ a <> h
        /\ teams = [h; a]
        /\ exists margin prob debug report,
             simulate_match erf h a df DEFAULT_CONFIG
             = SimPrediction h a margin prob debug
             /\ predictor_main erf df = Printed report
             /\ winner report = (if Qlt_bool 0 margin then h else a)
             /\ shown_margin report = Qabs margin
             /\ shown_prob report
                = (if Qlt_bool 0 margin then prob else (1 - prob)%R)
             /\ shown_tactical report = tactical debug
             /\ shown_elo report = elo debug)
  /\ (List.length teams <> 2%nat -> predictor_main erf df = ExpectedTwoTeams teams)
  /\ (forall e, predictor_main erf df <> PrintedError e).
Proof.
  intros teams.
  assert (Hteams : forall t, In t teams -> exists m,
               get_tactical_metrics df t DEFAULT_CONFIG = Some m)
    by (intros t; apply country_has_metrics).
  split; [apply unique_NoDup|]. split.
  { intros t. unfold teams. rewrite unique_In, in_map_iff.
    split; intros (r & H1 & H2); exists r; tauto. }
  assert (Htwo : forall h a, teams = [h; a] ->
            exists pre r post,
              rows df = (pre ++ r :: post)%list /\ pre <> []
              /\ (forall x, In x pre -> country x = h)
              /\ country r = a /\ a <> h).
  { intros h a E. apply unique_two in E.
    destruct E as (pre & post & E & Hne & Hpre & Hah).
    apply map_eq_app in E. destruct E as (pre' & rest & E1 & E2 & E3).
    apply map_eq_cons in E3. destruct E3 as (r & post' & -> & Hr & _).
    exists pre', r, post'. split; [exact E1|].
    split; [intros ->; now apply Hne|]. split; [|now split].
    intros x Hx. apply Hpre. rewrite <- E2. now apply in_map. }
  unfold predictor_main. fold teams. revert Hteams Htwo.
  destruct teams as [|h [|a [|b rest]]]; intros Hteams Htwo; simpl List.length;
    try (split; [intros; lia|]; split; [reflexivity | discriminate]).
  destruct (Hteams h (or_introl eq_refl)) as (hm & Hh).
  destruct (Hteams a (or_intror (or_introl eq_refl))) as (am & Ha).
  rewrite (simulate_match_prediction erf h a df DEFAULT_CONFIG hm am Hh Ha).
  split; [|split; [intros H; lia | discriminate]].
  intros _. destruct (Htwo h a eq_refl) as (pre & r & post & H1 & H2 & H3 & H4 & H5).
  exists h, a, pre, r, post. repeat (split; [assumption|]).
  split; [reflexivity|].
  rewrite (simulate_match_prediction erf h a df DEFAULT_CONFIG hm am Hh Ha).
  do 4 eexists. split; [reflexivity|]. split; [reflexivity|].
  repeat split; reflexivity.
Qed.

(** X11. In a printed report the margin shown is not negative and the
    probability shown, that of the predicted winner, is never below one
    half; the winner is the home team exactly when the final margin is
    positive; and the pack alert names a team exactly when the mismatch
    bonus was applied in its favour. *)
Theorem predictor_main_report_is_consistent (erf : R -> R)
    (erf_odd : forall x : R, erf (- x)%R = (- erf x)%R)
    (erf_increasing : forall x y : R, (x < y)%R -> (erf x < erf y)%R)
    (erf_range : forall x : R, (-1 <= erf x <= 1)%R)
    (df : DataFrame) (report : MatchReport) :
  predictor_main erf df = Printed report ->
  exists h a hm am,
    unique (map country (rows df)) = [h; a] /\ h <> a
    /\ get_tactical_metrics df h DEFAULT_CONFIG = Some hm
    /\ get_tactical_metrics df a DEFAULT_CONFIG = Some am
    /\ 0 <= shown_margin report
    /\ (1 / 2 <= shown_prob report <= 1)%R
    /\ (winner report = h <-> 0 < fused_margin DEFAULT_CONFIG h a hm am)
    /\ (winner report = a <-> fused_margin DEFAULT_CONFIG h a hm am <= 0)
    /\ (alert report = Some h <->
        shown_tactical report == base_tactical DEFAULT_CONFIG hm am + 5)
    /\ (alert report = Some a <->
        shown_tactical report == base_tactical DEFAULT_CONFIG hm am - 5)
    /\ (alert report = None <->
        shown_tactical report == base_tactical DEFAULT_CONFIG hm am).
Proof.
  unfold predictor_main. intros E.
  pose proof (unique_NoDup (map country (rows df))) as Hnd.
  assert (Hteams : forall t, In t (unique (map country (rows df))) -> exists m,
               get_tactical_metrics df t DEFAULT_CONFIG = Some m)
    by (intros t; apply country_has_metrics).
  destruct (unique (map country (rows df))) as [|h [|a [|b rest]]]; try discriminate.
  destruct (Hteams h (or_introl eq_refl)) as (hm & Hh).
  destruct (Hteams a (or_intror (or_introl eq_refl))) as (am & Ha).
  assert (h <> a) as Hne.
  { inversion Hnd as [|x l Hnot _]; subst. intros ->. apply Hnot. now left. }
  rewrite (simulate_match_prediction erf h a df DEFAULT_CONFIG hm am Hh Ha) in E.
  apply (f_equal (fun o => match o with Printed r => r | _ => report end)) in E.
  cbv beta iota in E. subst report.
  cbn [shown_margin shown_prob winner alert shown_tactical pack_diff tactical].
  exists h, a, hm, am.
  set (m := fused_margin DEFAULT_CONFIG h a hm am).
  set (pd := pack_difference hm am). set (base := base_tactical DEFAULT_CONFIG hm am).
  split; [reflexivity|]. split; [exact Hne|]. split; [exact Hh|]. split; [exact Ha|].
  split; [apply Qabs_nonneg|].
  assert (Hsd : 0 < STD_DEV DEFAULT_CONFIG) by reflexivity.
  assert (E0 : 0 == 0 / STD_DEV DEFAULT_CONFIG) by reflexivity.
  pose proof (cdf_range erf erf_range (Q2R (m / STD_DEV DEFAULT_CONFIG))) as Hr.
  rewrite <- prob_home_of_cdf in Hr.
  split.
  { destruct (Qlt_bool 0 m) eqn:Pos.
    - apply Qlt_bool_iff in Pos. split; [|lra].
      rewrite <- (prob_home_of_0 erf erf_odd), (prob_home_of_Qeq erf _ _ E0).
      apply Rlt_le, prob_home_of_lt; [exact erf_increasing | now apply Qdiv_lt_compat].
    - apply Qlt_bool_false_iff in Pos. split; [|lra].
      assert (prob_home_of erf (m / STD_DEV DEFAULT_CONFIG) <= 1 / 2)%R; [|lra].
      rewrite <- (prob_home_of_0 erf erf_odd), (prob_home_of_Qeq erf 0 _ E0).
      destruct (Qle_lt_or_eq _ _ Pos) as [Hlt|Heq].
      + apply Rlt_le, prob_home_of_lt; [exact erf_increasing | now apply Qdiv_lt_compat].
      + right. apply prob_home_of_Qeq. now rewrite Heq. }
  split; [|split].
  { destruct (Qlt_bool 0 m) eqn:Pos.
    - apply Qlt_bool_iff in Pos. tauto.
    - apply Qlt_bool_false_iff in Pos. split; [congruence | lra]. }
  { destruct (Qlt_bool 0 m) eqn:Pos.
    - apply Qlt_bool_iff in Pos. split; [congruence | lra].
    - apply Qlt_bool_false_iff in Pos. tauto. }
  pose proof (Qabs_cases pd) as Habs.
  destruct (apply_mismatch_step DEFAULT_CONFIG pd base) as (S1 & S2 & S3);
    [discriminate|].
  cbn [MISMATCH_THRESHOLD MISMATCH_BONUS DEFAULT_CONFIG] in *.
  set (X := apply_mismatch DEFAULT_CONFIG pd base) in *.
  assert (HX : (Qlt_bool 4.0 (Qabs pd) = true /\ Qlt_bool 0 pd = true /\ X == base + 5)
               \/ (Qlt_bool 4.0 (Qabs pd) = true /\ Qlt_bool 0 pd = false
                   /\ X == base - 5)
               \/ (Qlt_bool 4.0 (Qabs pd) = false /\ X == base)).
  { destruct (Qlt_bool 4.0 (Qabs pd)) eqn:Big.
    - apply Qlt_bool_iff in Big. destruct (Qlt_bool 0 pd) eqn:Sg.
      + apply Qlt_bool_iff in Sg. left. repeat split. rewrite (S1 Big Sg). lra.
      + apply Qlt_bool_false_iff in Sg. right; left. repeat split.
        assert (pd < 0) as Hneg
          by (destruct Habs as [[Hs Ea]|[Hs Ea]]; rewrite Ea in Big; lra).
        rewrite (S2 Big Hneg). lra.
    - apply Qlt_bool_false_iff in Big. right; right. split; [reflexivity|].
      now apply S3. }
  destruct HX as [(-> & -> & HX) | [(-> & -> & HX) | (-> & HX)]];
    repeat split; intros H;
    first [reflexivity | lra | congruence | (exfalso; lra) | (exfalso; congruence)].
Qed.

Lemma predictor_main_report_is_consistent_witness :
  exists report,
    predictor_main odd_sigmoid stronger_home_df = Printed report
    /\ exists h a hm am,
      unique (map country (rows stronger_home_df)) = [h; a] /\ h <> a
      /\ get_tactical_metrics stronger_home_df h DEFAULT_CONFIG = Some hm
      /\ get_tactical_metrics stronger_home_df a DEFAULT_CONFIG = Some am
      /\ 0 <= shown_margin report
      /\ (1 / 2 <= shown_prob report <= 1)%R
      /\ (winner report = h <-> 0 < fused_margin DEFAULT_CONFIG h a hm am)
      /\ (winner report = a <-> fused_margin DEFAULT_CONFIG h a hm am <= 0)
      /\ (alert report = Some h <->
          shown_tactical report == base_tactical DEFAULT_CONFIG hm am + 5)
      /\ (alert report = Some a <->
          shown_tactical report == base_tactical DEFAULT_CONFIG hm am - 5)
      /\ (alert report = None <->
          shown_tactical report == base_tactical DEFAULT_CONFIG hm am).
Proof.
  assert (H : exists report, predictor_main odd_sigmoid stronger_home_df = Printed report).
  { apply (predictor_main_prints odd_sigmoid stronger_home_df "Barbarians" "Lions").
    reflexivity. }
  destruct H as (report & H). exists report. split; [exact H|].
  exact (predictor_main_report_is_consistent odd_sigmoid odd_sigmoid_odd
           odd_sigmoid_increasing odd_sigmoid_range stronger_home_df report H).
Defined.

(* ================================================================== *)
(** * Further properties: team names from a file name *)
(* ================================================================== *)

Section TeamNameProperties.

Context {ops : StrOps}.

Lemma split_nonempty (sep : ascii) (s : string) : PyStr.split sep s <> [].
Proof.
  induction s as [|c s IH]; simpl; [discriminate|].
  destruct (Ascii.eqb c sep); [discriminate|].
  destruct (PyStr.split sep s); [contradiction | discriminate].
Qed.

Lemma split_length (sep : ascii) (s : string) :
  List.length (PyStr.split sep s) = S (count_char sep s).
Proof.
  induction s as [|c s IH]; simpl; [reflexivity|].
  destruct (Ascii.eqb c sep); simpl; [now rewrite IH|].
  destruct (PyStr.split sep s) eqn:E; simpl in *; [discriminate | exact IH].
Qed.

Lemma split_no_sep (sep : ascii) (s : string) :
  count_char sep s = 0%nat -> PyStr.split sep s = [s].
Proof.
  induction s as [|c s IH]; simpl; [reflexivity|].
  destruct (Ascii.eqb c sep); [discriminate|]. simpl. intros H. now rewrite (IH H).
Qed.

Lemma split_app_sep (sep : ascii) (s1 s2 : string) :
  count_char sep s1 = 0%nat ->
  PyStr.split sep (s1 ++ String sep s2) = s1 :: PyStr.split sep s2.
Proof.
  induction s1 as [|c s1 IH]; simpl.
  - intros _. now rewrite Ascii.eqb_refl.
  - destruct (Ascii.eqb c sep); [discriminate|]. simpl. intros H. now rewrite (IH H).
Qed.

Lemma concat_split (sep : ascii) (s : string) :
  String.concat (String sep EmptyString) (PyStr.split sep s) = s.
Proof.
  induction s as [|c s IH]; simpl; [reflexivity|].
  destruct (Ascii.eqb c sep) eqn:E.
  - apply Ascii.eqb_eq in E. subst c.
    destruct (PyStr.split sep s) as [|p ps] eqn:S;
      [now apply split_nonempty in S|].
    change (String.concat (String sep "") ("" :: p :: ps))
      with (String sep (String.concat (String sep "") (p :: ps))).
    now rewrite IH.
  - destruct (PyStr.split sep s) as [|p ps] eqn:S;
      [now apply split_nonempty in S|].
    destruct ps as [|p' ps]; simpl in *; now rewrite IH.
Qed.

Lemma count_char_app (c : ascii) (s1 s2 : string) :
  count_char c (s1 ++ s2) = (count_char c s1 + count_char c s2)%nat.
Proof. induction s1 as [|d s1 IH]; simpl; [reflexivity | rewrite IH; lia]. Qed.

Lemma string_app_assoc (s1 s2 s3 : string) :
  ((s1 ++ s2) ++ s3 = s1 ++ (s2 ++ s3))%string.
Proof. induction s1 as [|c s1 IH]; simpl; [reflexivity | now rewrite IH]. Qed.

Lemma startswith_no_char (c : ascii) (s : string) :
  count_char c s = 0%nat -> PyStr.startswith (String c EmptyString) s = false.
Proof.
  destruct s as [|d s]; simpl; [reflexivity|].
  rewrite (Ascii.eqb_sym c d). destruct (Ascii.eqb d c); [discriminate | reflexivity].
Qed.

(** X12. A file name built as [team1-team2.ext] gives back the two names:
    for names without dash, dot or slash and without white space at their
    ends, and an extension without dot or slash, the loader's path of that
    file name yields exactly [(team1, team2)]. *)
Theorem get_teams_from_filename_round_trip (team1 team2 ext : string) :
  count_char "-" team1 = 0%nat -> count_char "." team1 = 0%nat ->
  count_char "/" team1 = 0%nat ->
  count_char "-" team2 = 0%nat -> count_char "." team2 = 0%nat ->
  count_char "/" team2 = 0%nat ->
  count_char "." ext = 0%nat -> count_char "/" ext = 0%nat ->
  str_strip team1 = team1 -> str_strip team2 = team2 ->
  get_teams_from_filename (data_path (team1 ++ "-" ++ team2 ++ "." ++ ext))
  = Ok (team1, team2).
Proof.
  intros D1 P1 S1 D2 P2 S2 Pe Se St1 St2.
  set (stem := (team1 ++ "-" ++ team2)%string).
  assert (Ef : (team1 ++ "-" ++ team2 ++ "." ++ ext = stem ++ String "." ext)%string).
  { unfold stem. now rewrite !string_app_assoc. }
  rewrite Ef.
  assert (Cs : count_char "/" (stem ++ String "." ext) = 0%nat).
  { unfold stem. rewrite !count_char_app. simpl. rewrite S1, S2, Se. reflexivity. }
  assert (Cp : count_char "." stem = 0%nat).
  { unfold stem. rewrite !count_char_app. simpl. rewrite P1, P2. reflexivity. }
  unfold data_path. rewrite (startswith_no_char "/" _ Cs).
  unfold get_teams_from_filename, basename.
  change ("data/" ++ (stem ++ String "." ext))%string
    with ("data" ++ String "/" (stem ++ String "." ext))%string.
  rewrite (split_app_sep "/" "data" _ eq_refl), (split_no_sep "/" _ Cs).
  cbn [last]. unfold splitext_root.
  rewrite (split_app_sep "." stem ext Cp), (split_no_sep "." ext Pe).
  cbn [removelast existsb].
  assert (String.eqb stem EmptyString = false) as Hne.
  { apply String.eqb_neq. unfold stem. destruct team1; discriminate. }
  rewrite Hne. cbn [negb orb String.concat].
  unfold stem. change (team1 ++ "-" ++ team2)%string with (team1 ++ String "-" team2)%string.
  rewrite (split_app_sep "-" team1 team2 D1), (split_no_sep "-" team2 D2).
  now rewrite St1, St2.
Qed.

(** X13. A file name is accepted exactly when its stem, the base name
    without its extension, holds one dash: the two names returned are then
    the trimmed parts on either side of that dash, and with no dash or more
    than one the call raises [ValueError]. *)
Theorem get_teams_from_filename_one_dash (filename : string) :
  let stem := splitext_root (basename filename) in
  (count_char "-" stem = 1%nat ->
   exists p0 p1,
     stem = (p0 ++ "-" ++ p1)%string
     /\ count_char "-" p0 = 0%nat /\ count_char "-" p1 = 0%nat
     /\ get_teams_from_filename filename = Ok (str_strip p0, str_strip p1))
  /\ (count_char "-" stem <> 1%nat ->
      get_teams_from_filename filename = Raised ValueError).
Proof.
  intros stem. unfold get_teams_from_filename. fold stem.
  pose proof (split_length "-" stem) as HL.
  pose proof (concat_split "-" stem) as HC.
  destruct (PyStr.split "-" stem) as [|p0 [|p1 [|p2 ps]]] eqn:S; simpl in HL.
  - discriminate.
  - split; [intros H; rewrite H in HL; discriminate | reflexivity].
  - split; [|intros H; exfalso; apply H; lia].
    intros _. exists p0, p1. simpl in HC.
    assert (E : stem = (p0 ++ "-" ++ p1)%string) by now symmetry.
    split; [exact E|].
    assert (count_char "-" p0 + count_char "-" p1 = 0)%nat as H0.
    { assert (count_char "-" stem = 1%nat) as H1 by lia.
      rewrite E, !count_char_app in H1. simpl in H1. lia. }
    repeat split; lia.
  - split; [intros H; rewrite H in HL; discriminate | reflexivity].
Qed.

End TeamNameProperties.

Lemma get_teams_from_filename_round_trip_witness :
  get_teams_from_filename (data_path ("Scotland" ++ "-" ++ "New Zealand" ++ "." ++ "xlsx"))
  = Ok ("Scotland", "New Zealand").
Proof.
  apply (get_teams_from_filename_round_trip "Scotland" "New Zealand" "xlsx");
    reflexivity.
Defined.

(* ================================================================== *)
(** * Further properties: the loaded squad table and its validation *)
(* ================================================================== *)

Section LoadedTable.

Context {ops : StrOps}.

Lemma resolve_entry_fields (team : string) (db : list PlayerRecord) (fb : Q)
    (j st : Z) (p : string) :
  let r := resolve_entry team db fb j st p in
  country r = team /\ shirt_number r = Some j /\ starting r = st.
Proof.
  unfold resolve_entry. destruct (match_player_data (Some p) team db); repeat split.
Qed.

(** Where the skill of a built row comes from. *)
Lemma resolve_entry_skill (team : string) (db : list PlayerRecord) (fb : Q)
    (j st : Z) (p : string) :
  let r := resolve_entry team db fb j st p in
  (exists rec, In rec db /\ same_country team rec
               /\ name r = db_name rec /\ skill r = db_skill rec
               /\ position_group r = db_position_group rec)
  \/ (match_player_data (Some p) team db = None
      /\ name r = Some p /\ skill r = fb
      /\ position_group r = _infer_position_group j).
Proof.
  unfold resolve_entry.
  destruct (match_player_data (Some p) team db) as [rec|] eqn:E.
  - left. exists rec. apply match_player_data_in in E. simpl. tauto.
  - right. simpl. tauto.
Qed.

(** Every built row comes from a lineup row through [resolve_entry]. *)
Lemma process_row_In (team1 team2 : string) (db : list PlayerRecord) (fb1 fb2 : Q)
    (row : LineupRow) (r : SquadRow) :
  In r (process_row team1 team2 db fb1 fb2 row) ->
  exists j p,
    Number row = Some j
    /\ ((team1_cell row = Some p
         /\ r = resolve_entry team1 db fb1 j (if (j <=? 15)%Z then 1%Z else 0%Z) p)
        \/ (team2_cell row = Some p
            /\ r = resolve_entry team2 db fb2 j (if (j <=? 15)%Z then 1%Z else 0%Z) p)).
Proof.
  unfold process_row. destruct (Number row) as [j|]; [|intros []].
  intros H. apply in_app_or in H. destruct H as [H|H].
  - destruct (team1_cell row) as [p|]; [|destruct H].
    destruct H as [<-|[]]. exists j, p. split; [reflexivity|]. left. now split.
  - destruct (team2_cell row) as [p|]; [|destruct H].
    destruct H as [<-|[]]. exists j, p. split; [reflexivity|]. right. now split.
Qed.

(** X14. Every row of a loaded table belongs to one of the two teams of the
    file name, carries the number of a lineup row, and is a starter exactly
    when that number is at most 15. *)
Theorem loaded_rows_are_well_formed (fs : FileSystem) (file : string) (fr : Frame) :
  load_match_squads fs file = Ok fr ->
  exists team1 team2 sheet,
    get_teams_from_filename (data_path file) = Ok (team1, team2)
    /\ xlsx fs (data_path file) = Some sheet
    /\ forall r, In r (frame_rows fr) ->
       (country r = team1 \/ country r = team2)
       /\ exists j row,
            In row (lineup sheet) /\ Number row = Some j
            /\ shirt_number r = Some j
            /\ ((starting r = 1%Z /\ (j <= 15)%Z) \/ (starting r = 0%Z /\ (15 < j)%Z)).
Proof.
  intros Hload.
  destruct (load_match_squads_rows fs file fr Hload)
    as (team1 & team2 & db & sheet & Ht & Hdb & Hx & Hrows).
  exists team1, team2, sheet. split; [exact Ht|]. split; [exact Hx|].
  intros r Hr. rewrite Hrows in Hr. apply in_flat_map in Hr.
  destruct Hr as (row & Hrow & Hr). apply process_row_In in Hr.
  destruct Hr as (j & p & Hj & Hcase).
  assert (Hst : forall st, st = (if (j <=? 15)%Z then 1%Z else 0%Z) ->
                           (st = 1%Z /\ (j <= 15)%Z) \/ (st = 0%Z /\ (15 < j)%Z)).
  { intros st ->. destruct (Z.leb_spec j 15); [left | right]; split; auto. }
  assert (Hone : forall team fb,
             r = resolve_entry team db fb j (if (j <=? 15)%Z then 1%Z else 0%Z) p ->
             country r = team /\ shirt_number r = Some j
             /\ ((starting r = 1%Z /\ (j <= 15)%Z) \/ (starting r = 0%Z /\ (15 < j)%Z))).
  { intros team fb ->.
    destruct (resolve_entry_fields team db fb j (if (j <=? 15)%Z then 1%Z else 0%Z) p)
      as (Hc & Hs & Hg).
    split; [exact Hc|]. split; [exact Hs|]. now apply Hst. }
  destruct Hcase as [[Hp E]|[Hp E]]; destruct (Hone _ _ E) as (Hc & Hs & Hg);
    (split; [auto|]); exists j, row; repeat split; auto.
Qed.

(** X15. Every player of a loaded table is rated on the scale of his
    team's records: his skill lies between two ratings of that team in the
    rating table, or it is the default 70 and the team has no record at
    all. *)
Theorem loaded_skills_within_team_ratings (fs : FileSystem) (file : string)
    (fr : Frame) :
  load_match_squads fs file = Ok fr ->
  exists db,
    db_csv fs = Some db
    /\ forall r, In r (frame_rows fr) ->
       ((forall rec, In rec db -> ~ same_country (country r) rec) /\ skill r = 70.0)
       \/ (exists r1 r2,
             In r1 db /\ same_country (country r) r1
             /\ In r2 db /\ same_country (country r) r2
             /\ db_skill r1 <= skill r /\ skill r <= db_skill r2).
Proof.
  intros Hload.
  destruct (load_match_squads_rows fs file fr Hload)
    as (team1 & team2 & db & sheet & Ht & Hdb & Hx & Hrows).
  exists db. split; [exact Hdb|].
  intros r Hr. rewrite Hrows in Hr. apply in_flat_map in Hr.
  destruct Hr as (row & Hrow & Hr). apply process_row_In in Hr.
  destruct Hr as (j & p & Hj & Hcase).
  assert (Hone : forall team,
             r = resolve_entry team db (get_country_fallback_skill team db) j
                               (if (j <=? 15)%Z then 1%Z else 0%Z) p ->
             ((forall rec, In rec db -> ~ same_country (country r) rec)
              /\ skill r = 70.0)
             \/ (exists r1 r2,
                   In r1 db /\ same_country (country r) r1
                   /\ In r2 db /\ same_country (country r) r2
                   /\ db_skill r1 <= skill r /\ skill r <= db_skill r2)).
  { intros team ->.
    destruct (resolve_entry_fields team db (get_country_fallback_skill team db) j
                (if (j <=? 15)%Z then 1%Z else 0%Z) p) as (Hc & _ & _).
    rewrite Hc.
    destruct (resolve_entry_skill team db (get_country_fallback_skill team db) j
                (if (j <=? 15)%Z then 1%Z else 0%Z) p)
      as [(rec & Hin & Hsame & _ & Hsk & _) | (_ & _ & Hsk & _)].
    - right. exists rec, rec. rewrite Hsk. repeat split; auto; apply Qle_refl.
    - rewrite Hsk. apply get_country_fallback_skill_range. }
  destruct Hcase as [[_ E]|[_ E]]; now apply (Hone _ E).
Qed.

Lemma same_key_iff (r r' : SquadRow) :
  same_key r r' = true
  <-> (country r, shirt_number r) = (country r', shirt_number r').
Proof.
  unfold same_key, option_Z_eqb. rewrite andb_true_iff, String.eqb_eq.
  destruct (shirt_number r) as [j|], (shirt_number r') as [j'|];
    rewrite ?Z.eqb_eq; split.
  - intros [-> ->]. reflexivity.
  - intros H. injection H as -> ->. split; reflexivity.
  - intros [_ H]. discriminate H.
  - intros H. discriminate H.
  - intros [_ H]. discriminate H.
  - intros H. discriminate H.
  - intros [-> _]. reflexivity.
  - intros H. injection H as ->. split; reflexivity.
Qed.

Lemma filter_all_false {A : Type} (f : A -> bool) (l : list A) :
  (forall x, In x l -> f x = false) -> filter f l = [].
Proof.
  induction l as [|x l IH]; intros H; simpl; [reflexivity|].
  rewrite (H x (or_introl eq_refl)). apply IH. intros y Hy. apply H. now right.
Qed.

Lemma filter_same_key_le1 (l : list SquadRow) (r : SquadRow) :
  NoDup (map (fun x => (country x, shirt_number x)) l) ->
  (List.length (filter (same_key r) l) <= 1)%nat.
Proof.
  induction l as [|x l IH]; simpl; intros Hnd; [lia|].
  inversion Hnd as [|k ks Hnot Hnd']; subst.
  destruct (same_key r x) eqn:E; [|now apply IH].
  simpl. rewrite (filter_all_false (same_key r) l); [simpl; lia|].
  intros y Hy. destruct (same_key r y) eqn:E'; [|reflexivity]. exfalso.
  apply same_key_iff in E. apply same_key_iff in E'. apply Hnot.
  rewrite <- E, E'. apply (in_map (fun x => (country x, shirt_number x)) l y Hy).
Qed.

Lemma flat_map_rows_numbers (team1 team2 : string) (db : list PlayerRecord)
    (fb1 fb2 : Q) (l : list LineupRow) (r : SquadRow) :
  In r (flat_map (process_row team1 team2 db fb1 fb2) l) ->
  exists j, shirt_number r = Some j /\ In j (lineup_numbers l).
Proof.
  intros H. apply in_flat_map in H. destruct H as (row & Hrow & Hr).
  apply process_row_In in Hr. destruct Hr as (j & p & Hj & Hcase).
  exists j. split.
  - destruct Hcase as [[_ ->]|[_ ->]]; apply resolve_entry_fields.
  - unfold lineup_numbers. apply in_flat_map. exists row. split; [exact Hrow|].
    rewrite Hj. now left.
Qed.

Lemma process_row_keys_NoDup (team1 team2 : string) (db : list PlayerRecord)
    (fb1 fb2 : Q) (row : LineupRow) :
  team1 <> team2 ->
  NoDup (map (fun x => (country x, shirt_number x))
             (process_row team1 team2 db fb1 fb2 row)).
Proof.
  intros Hne. unfold process_row. destruct (Number row) as [j|]; [|constructor].
  destruct (team1_cell row) as [p1|], (team2_cell row) as [p2|]; simpl;
    repeat constructor; simpl; try tauto.
  intros [H|[]].
  destruct (resolve_entry_fields team1 db fb1 j (if (j <=? 15)%Z then 1%Z else 0%Z) p1)
    as (H1 & _ & _).
  destruct (resolve_entry_fields team2 db fb2 j (if (j <=? 15)%Z then 1%Z else 0%Z) p2)
    as (H2 & _ & _).
  injection H as H _. congruence.
Qed.

Lemma loaded_keys_NoDup (team1 team2 : string) (db : list PlayerRecord)
    (fb1 fb2 : Q) (l : list LineupRow) :
  team1 <> team2 -> NoDup (lineup_numbers l) ->
  NoDup (map (fun x => (country x, shirt_number x))
             (flat_map (process_row team1 team2 db fb1 fb2) l)).
Proof.
  intros Hne. induction l as [|row l IH]; simpl; intros Hnd; [constructor|].
  rewrite map_app.
  assert (Hrest : NoDup (lineup_numbers l)).
  { unfold lineup_numbers in Hnd. simpl in Hnd.
    destruct (Number row); simpl in Hnd; [now inversion Hnd | exact Hnd]. }
  apply NoDup_app; [now apply process_row_keys_NoDup | now apply IH |].
  intros k Hk Hk'.
  apply in_map_iff in Hk. destruct Hk as (r & <- & Hr).
  apply in_map_iff in Hk'. destruct Hk' as (r' & Ek & Hr').
  apply process_row_In in Hr. destruct Hr as (j & p & Hj & Hcase).
  assert (shirt_number r = Some j) as Hs
    by (destruct Hcase as [[_ ->]|[_ ->]]; apply resolve_entry_fields).
  destruct (flat_map_rows_numbers _ _ _ _ _ _ _ Hr') as (j' & Hs' & Hin).
  assert (j' = j) as -> by (injection Ek as _ E; congruence).
  unfold lineup_numbers in Hnd. simpl in Hnd. rewrite Hj in Hnd. simpl in Hnd.
  inversion Hnd as [|x xs Hnot _]; subst. now apply Hnot.
Qed.

Lemma pd_DataFrame_Table (records : list SquadRow) (df : DataFrame) :
  pd_DataFrame records = Table df -> rows df = records.
Proof.
  intros H. apply (f_equal frame_rows) in H.
  rewrite frame_rows_pd_DataFrame in H. now simpl in H.
Qed.

(** X16. When the lineup loop runs for two different teams over a sheet
    whose readable numbers are pairwise distinct, the validation of
    [process_match_file] finds no duplicated (country, shirt_number) row in
    the table it built. *)
Theorem distinct_numbers_give_no_duplicates (team1 team2 : string)
    (db : list PlayerRecord) (fb1 fb2 : Q) (l : list LineupRow)
    (df_ready : DataFrame) :
  pd_DataFrame (flat_map (process_row team1 team2 db fb1 fb2) l) = Table df_ready ->
  team1 <> team2 ->
  NoDup (lineup_numbers l) ->
  duplicates df_ready = [].
Proof.
  intros Hdf Hne Hnd. apply pd_DataFrame_Table in Hdf.
  unfold duplicates. apply filter_all_false. intros r _.
  apply Nat.ltb_ge. apply filter_same_key_le1. rewrite Hdf.
  now apply loaded_keys_NoDup.
Qed.

Lemma resolve_entry_tests (team t : string) (db : list PlayerRecord) (fb : Q)
    (j st : Z) (p : string) :
  let r := resolve_entry team db fb j st p in
  String.eqb (country r) t = String.eqb team t
  /\ (starting r =? 1)%Z = (st =? 1)%Z.
Proof.
  intros r. destruct (resolve_entry_fields team db fb j st p) as (Hc & _ & Hs).
  fold r in Hc, Hs. now rewrite Hc, Hs.
Qed.

Lemma starters_of_one_cell (team t : string) (db : list PlayerRecord) (fb : Q)
    (j st : Z) (p : string) :
  List.length (filter (fun r => String.eqb (country r) t)
                 (filter (fun r => (starting r =? 1)%Z)
                         [resolve_entry team db fb j st p]))
  = if ((st =? 1)%Z && String.eqb team t)%bool then 1%nat else 0%nat.
Proof.
  destruct (resolve_entry_tests team t db fb j st p) as [H1 H2].
  cbv zeta in H1, H2. simpl. rewrite H2.
  destruct (st =? 1)%Z; simpl; [|reflexivity].
  rewrite H1. now destruct (String.eqb team t).
Qed.

Lemma starters_of_one_row (team1 team2 : string) (db : list PlayerRecord)
    (fb1 fb2 : Q) (row : LineupRow) :
  team1 <> team2 ->
  let starters :=
    filter (fun r => (starting r =? 1)%Z) (process_row team1 team2 db fb1 fb2 row) in
  List.length (filter (fun r => String.eqb (country r) team1) starters)
  = List.length (named_starters team1_cell [row])
  /\ List.length (filter (fun r => String.eqb (country r) team2) starters)
     = List.length (named_starters team2_cell [row]).
Proof.
  intros Hne. unfold process_row, named_starters. cbv zeta. simpl filter at 3 6.
  destruct (Number row) as [j|]; [|split; reflexivity].
  assert (E12 : String.eqb team1 team2 = false) by now apply String.eqb_neq.
  assert (E21 : String.eqb team2 team1 = false)
    by (apply String.eqb_neq; congruence).
  assert (Est : ((if (j <=? 15)%Z then 1 else 0) =? 1)%Z = (j <=? 15)%Z)
    by now destruct (j <=? 15)%Z.
  rewrite !filter_app, !length_app.
  destruct (team1_cell row) as [p1|], (team2_cell row) as [p2|];
    rewrite ?starters_of_one_cell, ?Est, ?String.eqb_refl, ?E12, ?E21;
    destruct (j <=? 15)%Z; split; reflexivity.
Qed.

Lemma starters_of_lineup (team1 team2 : string) (db : list PlayerRecord)
    (fb1 fb2 : Q) (l : list LineupRow) :
  team1 <> team2 ->
  let starters :=
    filter (fun r => (starting r =? 1)%Z)
           (flat_map (process_row team1 team2 db fb1 fb2) l) in
  List.length (filter (fun r => String.eqb (country r) team1) starters)
  = List.length (named_starters team1_cell l)
  /\ List.length (filter (fun r => String.eqb (country r) team2) starters)
     = List.length (named_starters team2_cell l).
Proof.
  intros Hne. induction l as [|row l IH]; [split; reflexivity|].
  cbv zeta in *. simpl flat_map.
  rewrite !filter_app, !length_app.
  destruct (starters_of_one_row team1 team2 db fb1 fb2 row Hne) as [H1 H2].
  cbv zeta in H1, H2. destruct IH as [IH1 IH2].
  rewrite H1, H2, IH1, IH2.
  change (row :: l) with ([row] ++ l)%list. unfold named_starters.
  rewrite !filter_app, !length_app. split; reflexivity.
Qed.

(** X17. For two different teams, the number of starters that the
    validation counts for a team is the number of sheet rows numbered up to
    15 that name a player in that team's column; so the validation reports
    a team as complete exactly when its column names fifteen such rows. *)
Theorem starters_counted_from_the_sheet (team1 team2 : string)
    (db : list PlayerRecord) (fb1 fb2 : Q) (l : list LineupRow)
    (df_ready : DataFrame) :
  pd_DataFrame (flat_map (process_row team1 team2 db fb1 fb2) l) = Table df_ready ->
  team1 <> team2 ->
  n_start df_ready team1 = List.length (named_starters team1_cell l)
  /\ n_start df_ready team2 = List.length (named_starters team2_cell l)
  /\ (In (StartersOk team1) (check_starters df_ready)
      <-> List.length (named_starters team1_cell l) = 15%nat)
  /\ (In (StartersOk team2) (check_starters df_ready)
      <-> List.length (named_starters team2_cell l) = 15%nat).
Proof.
  intros Hdf Hne. apply pd_DataFrame_Table in Hdf.
  destruct (starters_of_lineup team1 team2 db fb1 fb2 l Hne) as [H1 H2].
  cbv zeta in H1, H2. rewrite <- Hdf in H1, H2.
  fold (n_start df_ready team1) in H1. fold (n_start df_ready team2) in H2.
  assert (Hok : forall t, In (StartersOk t) (check_starters df_ready)
                          <-> n_start df_ready t = 15%nat).
  { intros t. unfold check_starters. rewrite in_map_iff. split.
    - intros (t' & E & _).
      destruct (n_start df_ready t' =? 15)%nat eqn:En; simpl in E;
        [|discriminate]. injection E as <-. now apply Nat.eqb_eq.
    - intros En. exists t. rewrite En. simpl. split; [reflexivity|].
      apply unique_In. unfold n_start in En.
      destruct (filter (fun r => String.eqb (country r) t)
                       (filter (fun r => (starting r =? 1)%Z) (rows df_ready)))
        as [|r rs] eqn:Ef; [discriminate|].
      assert (Hin : In r (r :: rs)) by now left.
      rewrite <- Ef in Hin. apply filter_In in Hin. destruct Hin as [Hin Hc].
      apply filter_In in Hin. destruct Hin as [Hin _].
      apply String.eqb_eq in Hc. rewrite <- Hc. now apply in_map. }
  rewrite !Hok, H1, H2. repeat split; intros H; exact H.
Qed.

End LoadedTable.

Lemma loaded_rows_are_well_formed_witness :
  exists fr,
    load_match_squads sample_fs "France-Ireland.xlsx" = Ok fr
    /\ exists team1 team2 sheet,
         get_teams_from_filename (data_path "France-Ireland.xlsx") = Ok (team1, team2)
         /\ xlsx sample_fs (data_path "France-Ireland.xlsx") = Some sheet
         /\ forall r, In r (frame_rows fr) ->
            (country r = team1 \/ country r = team2)
            /\ exists j row,
                 In row (lineup sheet) /\ Number row = Some j
                 /\ shirt_number r = Some j
                 /\ ((starting r = 1%Z /\ (j <= 15)%Z)
                     \/ (starting r = 0%Z /\ (15 < j)%Z)).
Proof.
  eexists. split; [reflexivity|].
  apply (loaded_rows_are_well_formed sample_fs "France-Ireland.xlsx"). reflexivity.
Defined.

Lemma loaded_skills_within_team_ratings_witness :
  exists fr,
    load_match_squads sample_fs "France-Ireland.xlsx" = Ok fr
    /\ exists db,
         db_csv sample_fs = Some db
         /\ forall r, In r (frame_rows fr) ->
            ((forall rec, In rec db -> ~ same_country (country r) rec)
             /\ skill r = 70.0)
            \/ (exists r1 r2,
                  In r1 db /\ same_country (country r) r1
                  /\ In r2 db /\ same_country (country r) r2
                  /\ db_skill r1 <= skill r /\ skill r <= db_skill r2).
Proof.
  eexists. split; [reflexivity|].
  apply (loaded_skills_within_team_ratings sample_fs "France-Ireland.xlsx").
  reflexivity.
Defined.

Lemma distinct_numbers_give_no_duplicates_witness :
  exists df_ready,
    pd_DataFrame (flat_map (process_row "France" "Ireland" sample_db 70 70)
                           (lineup sample_sheet)) = Table df_ready
    /\ "France" <> "Ireland"
    /\ NoDup (lineup_numbers (lineup sample_sheet))
    /\ duplicates df_ready = [].
Proof.
  assert (Hnd : NoDup (lineup_numbers (lineup sample_sheet))).
  { simpl. repeat constructor; simpl; intros H;
      repeat (destruct H as [H|H]; [discriminate|]); exact H. }
  eexists. split; [reflexivity|]. split; [discriminate|]. split; [exact Hnd|].
  apply (distinct_numbers_give_no_duplicates "France" "Ireland" sample_db 70 70
           (lineup sample_sheet));
    [reflexivity | discriminate | exact Hnd].
Defined.

Lemma starters_counted_from_the_sheet_witness :
  exists df_ready,
    pd_DataFrame (flat_map (process_row "France" "Ireland" sample_db 70 70)
                           (lineup sample_sheet)) = Table df_ready
    /\ "France" <> "Ireland"
    /\ n_start df_ready "France" = 2%nat
    /\ ~ In (StartersOk "France") (check_starters df_ready).
Proof.
  eexists. split; [reflexivity|]. split; [discriminate|].
  destruct (starters_counted_from_the_sheet "France" "Ireland" sample_db 70 70
              (lineup sample_sheet) _ eq_refl ltac:(discriminate))
    as (H1 & _ & H3 & _).
  split; [exact H1|]. intros H. apply H3 in H. discriminate H.
Defined.

(* ================================================================== *)
(** * Further properties: the error metrics *)
(* ================================================================== *)

Lemma metrics_loop_ok_inv (pairs : list (sim_result * HistoricalMatch))
    (errors es : list Q) (correct c : Z) :
  metrics_loop pairs errors correct = Ok (es, c) ->
  exists errs,
    es = (errors ++ errs)%list
    /\ List.length errs = List.length pairs
    /\ Forall (fun e => 0 <= e) errs
    /\ (correct <= c <= correct + Z.of_nat (List.length pairs))%Z
    /\ forall msg real, ~ In (SimError msg, real) pairs.
Proof.
  revert errors es correct c.
  induction pairs as [|[pred real] pairs IH]; intros errors es correct c H;
    cbn [metrics_loop] in H.
  - injection H as <- <-. exists []. rewrite app_nil_r.
    split; [reflexivity|]. split; [reflexivity|]. split; [constructor|].
    split; [simpl; lia|]. intros msg real [].
  - destruct pred as [msg | hm aw m p d]; [discriminate|].
    apply IH in H. destruct H as (errs & -> & Hlen & Hall & Hc & Hno).
    eexists (_ :: errs). rewrite <- app_assoc. split; [reflexivity|].
    split; [simpl; now rewrite Hlen|].
    split; [constructor; [apply Qabs_nonneg | exact Hall]|].
    split.
    + change (List.length ((SimPrediction hm aw m p d, real) :: pairs))
        with (S (List.length pairs)).
      match type of Hc with context [if ?b then _ else _] => destruct b end; lia.
    + intros msg r [E|Hin]; [discriminate | exact (Hno msg r Hin)].
Qed.

Lemma metrics_loop_total (pairs : list (sim_result * HistoricalMatch))
    (errors : list Q) (correct : Z) :
  (forall msg real, ~ In (SimError msg, real) pairs) ->
  exists es c, metrics_loop pairs errors correct = Ok (es, c).
Proof.
  revert errors correct.
  induction pairs as [|[pred real] pairs IH]; intros errors correct Hno; simpl.
  - now exists errors, correct.
  - destruct pred as [msg | hm aw m p d].
    + exfalso. apply (Hno msg real). now left.
    + apply IH. intros msg r Hin. apply (Hno msg r). now right.
Qed.

Lemma metrics_loop_raised_inv (pairs : list (sim_result * HistoricalMatch))
    (errors : list Q) (correct : Z) (e : exn) :
  metrics_loop pairs errors correct = Raised e ->
  e = KeyError "margin" /\ exists msg real, In (SimError msg, real) pairs.
Proof.
  revert errors correct.
  induction pairs as [|[pred real] pairs IH]; intros errors correct H;
    cbn [metrics_loop] in H; [discriminate|].
  destruct pred as [msg | hm aw m p d].
  - injection H as <-. split; [reflexivity|]. exists msg, real. now left.
  - apply IH in H. destruct H as (-> & msg & r & Hin).
    split; [reflexivity|]. exists msg, r. now right.
Qed.

Lemma combine_nonempty {A B : Type} (l : list A) (l' : list B) :
  l <> [] -> l' <> [] -> (0 < List.length (combine l l'))%nat.
Proof. destruct l, l'; simpl; intros; try congruence; lia. Qed.

Lemma combine_length_le {A B : Type} (l : list A) (l' : list B) :
  (List.length (combine l l') <= List.length l')%nat.
Proof. rewrite length_combine. lia. Qed.

Lemma calculate_metrics_ok_inv (predictions : list sim_result)
    (real_results : list HistoricalMatch) (m : Metrics) :
  calculate_metrics predictions real_results = Ok m ->
  predictions <> []
  /\ exists errors,
       metrics_loop (combine predictions real_results) [] 0%Z
       = Ok (errors, correct_winners m)
       /\ rmse m = sqrt (Q2R (Qmean (map (fun e => e * e) errors)))
       /\ mae m = Qmean errors
       /\ max_error m = Qmaximum errors
       /\ accuracy m = inject_Z (correct_winners m)
                       / inject_Z (Z.of_nat (List.length real_results)) * 100.
Proof.
  unfold calculate_metrics. destruct predictions as [|p ps]; [discriminate|].
  intros H. split; [discriminate|].
  destruct (metrics_loop (combine (p :: ps) real_results) [] 0%Z)
    as [[errors c]|e]; [|discriminate].
  simpl in H. injection H as <-. exists errors. simpl. repeat split.
Qed.

(** X18. With real results to compare with, [calculate_metrics] raises
    [ValueError] exactly on an empty list of predictions, [KeyError] exactly
    when [zip] pairs an error result with a real result, and returns its
    metrics otherwise; an error result beyond the paired ones is never read.
    (Without any real result [np.max] has no error to take the maximum of,
    which the model of the function does not cover.) *)
Theorem calculate_metrics_outcome (predictions : list sim_result)
    (real_results : list HistoricalMatch) :
  real_results <> [] ->
  (calculate_metrics predictions real_results = Raised ValueError
   <-> predictions = [])
  /\ (calculate_metrics predictions real_results = Raised (KeyError "margin")
      <-> predictions <> [] /\ zips_error predictions real_results)
  /\ ((exists m, calculate_metrics predictions real_results = Ok m)
      <-> predictions <> [] /\ ~ zips_error predictions real_results).
Proof.
  intros _. destruct predictions as [|p ps].
  - simpl. split; [tauto|]. split.
    + split; [discriminate | intros [H _]; congruence].
    + split; [intros [m H]; discriminate | intros [H _]; congruence].
  - assert (Hne : p :: ps <> []) by discriminate.
    destruct (calculate_metrics (p :: ps) real_results) as [m|e] eqn:E.
    + apply calculate_metrics_ok_inv in E. destruct E as (_ & errors & Hloop & _).
      apply metrics_loop_ok_inv in Hloop. destruct Hloop as (_ & _ & _ & _ & _ & Hno).
      assert (Hz : ~ zips_error (p :: ps) real_results)
        by (intros (msg & real & Hin); exact (Hno msg real Hin)).
      split; [split; [discriminate | intros H; discriminate]|].
      split; [split; [discriminate | tauto]|].
      split; [tauto | intros _; now exists m].
    + unfold calculate_metrics in E.
      destruct (metrics_loop (combine (p :: ps) real_results) [] 0%Z)
        as [[errors c]|e'] eqn:L; [discriminate|]. simpl in E. injection E as <-.
      destruct (metrics_loop_raised_inv _ _ _ _ L) as [-> Hz].
      split; [split; [discriminate | intros H; discriminate]|].
      split; [tauto|].
      split; [intros [m H]; discriminate | tauto].
Qed.

Lemma calculate_metrics_outcome_witness :
  REAL_RESULTS <> []
  /\ calculate_metrics [SimError "Missing data in CSV for France or Ireland"]
                       REAL_RESULTS
     = Raised (KeyError "margin").
Proof.
  split; [discriminate|].
  apply (proj1 (proj2 (calculate_metrics_outcome
                         [SimError "Missing data in CSV for France or Ireland"]
                         REAL_RESULTS ltac:(discriminate)))).
  split; [discriminate|]. eexists. eexists. left. reflexivity.
Defined.

Lemma Qmax_ge (x y : Q) : x <= Qmax x y /\ y <= Qmax x y.
Proof.
  unfold Qmax. destruct (Qle_bool x y) eqn:E.
  - apply Qle_bool_iff in E. split; lra.
  - assert (~ x <= y) by (intros H; apply Qle_bool_iff in H; congruence).
    split; lra.
Qed.

Lemma Qmax_cases (x y : Q) : Qmax x y = x \/ Qmax x y = y.
Proof. unfold Qmax. destruct (Qle_bool x y); tauto. Qed.

Lemma fold_left_Qmax_ge (l : list Q) (a : Q) :
  a <= fold_left Qmax l a /\ forall x, In x l -> x <= fold_left Qmax l a.
Proof.
  revert a. induction l as [|y l IH]; intros a; simpl.
  - split; [lra | intros x []].
  - destruct (IH (Qmax a y)) as [H1 H2]. destruct (Qmax_ge a y) as [Ha Hy].
    split; [lra|]. intros x [<-|Hx]; [lra | now apply H2].
Qed.

Lemma fold_left_Qmax_In (l : list Q) (a : Q) :
  fold_left Qmax l a = a \/ In (fold_left Qmax l a) l.
Proof.
  revert a. induction l as [|y l IH]; intros a; simpl; [now left|].
  destruct (IH (Qmax a y)) as [H|H]; [|now right; right].
  rewrite H. destruct (Qmax_cases a y) as [E|E]; rewrite E; [now left | now right; left].
Qed.

Lemma Qmaximum_ge (l : list Q) (x : Q) : In x l -> x <= Qmaximum l.
Proof.
  destruct l as [|a l]; [intros []|]. simpl.
  destruct (fold_left_Qmax_ge l a) as [H1 H2].
  intros [<-|Hx]; [exact H1 | now apply H2].
Qed.

Lemma Qmaximum_In (l : list Q) : l <> [] -> In (Qmaximum l) l.
Proof.
  destruct l as [|a l]; [congruence|]. intros _. simpl.
  destruct (fold_left_Qmax_In l a) as [H|H]; [left; now rewrite H | now right].
Qed.

Lemma Qsum_sq_shift (l : list Q) (x : Q) :
  Qsum (map (fun e => (e - x) * (e - x)) l)
  == Qsum (map (fun e => e * e) l) - 2 * x * Qsum l
     + inject_Z (Z.of_nat (List.length l)) * x * x.
Proof.
  induction l as [|e l IH].
  - simpl. change (inject_Z 0) with 0. ring.
  - change (Qsum (map (fun e => (e - x) * (e - x)) (e :: l)))
      with ((e - x) * (e - x) + Qsum (map (fun e => (e - x) * (e - x)) l)).
    change (Qsum (map (fun e => e * e) (e :: l)))
      with (e * e + Qsum (map (fun e => e * e) l)).
    change (Qsum (e :: l)) with (e + Qsum l).
    change (List.length (e :: l)) with (S (List.length l)).
    rewrite IH, Nat2Z.inj_succ, <- Z.add_1_r, inject_Z_plus.
    change (inject_Z 1) with 1. ring.
Qed.

Lemma Qsum_nonneg (l : list Q) : (forall x, In x l -> 0 <= x) -> 0 <= Qsum l.
Proof.
  induction l as [|e l IH]; intros H; [simpl; lra|].
  change (Qsum (e :: l)) with (e + Qsum l).
  pose proof (H e (or_introl eq_refl)).
  pose proof (IH (fun y Hy => H y (or_intror Hy))). lra.
Qed.

Lemma length_pos_Q {A : Type} (l : list A) :
  l <> [] -> 0 < inject_Z (Z.of_nat (List.length l)).
Proof.
  intros Hne. change 0 with (inject_Z 0). rewrite <- Zlt_Qlt.
  destruct l; [congruence | simpl List.length; lia].
Qed.

(** The square of the mean is at most the mean of the squares. *)
Lemma Qmean_sq_le (l : list Q) :
  l <> [] -> Qmean l * Qmean l <= Qmean (map (fun e => e * e) l).
Proof.
  intros Hne. pose proof (length_pos_Q l Hne) as Hn.
  unfold Qmean at 3. rewrite length_map.
  apply Qle_shift_div_l; [exact Hn|].
  set (n := inject_Z (Z.of_nat (List.length l))) in *.
  assert (HS : Qsum l == Qmean l * n).
  { unfold Qmean. fold n. field. lra. }
  pose proof (Qsum_sq_shift l (Qmean l)) as Hshift. fold n in Hshift.
  assert (0 <= Qsum (map (fun e => (e - Qmean l) * (e - Qmean l)) l)) as Hpos.
  { apply Qsum_nonneg. intros x Hx. apply in_map_iff in Hx.
    destruct Hx as (e & <- & _). cbv beta.
    generalize (e - Qmean l). intros y. nra. }
  rewrite Hshift in Hpos. rewrite HS in Hpos. nra.
Qed.

Lemma Q2R_sqrt_square (x : Q) : 0 <= x -> sqrt (Q2R (x * x)) = Q2R x.
Proof.
  intros H. rewrite Q2R_mult. apply sqrt_square.
  replace 0%R with (Q2R 0) by lra. now apply Qle_Rle.
Qed.

Lemma calculate_metrics_bounds (predictions : list sim_result)
    (real_results : list HistoricalMatch) (m : Metrics) :
  calculate_metrics predictions real_results = Ok m ->
  real_results <> [] ->
  0 <= mae m
  /\ (Q2R (mae m) <= rmse m)%R
  /\ (rmse m <= Q2R (max_error m))%R
  /\ (0 <= correct_winners m <= Z.of_nat (List.length predictions))%Z
  /\ (correct_winners m <= Z.of_nat (List.length real_results))%Z
  /\ 0 <= accuracy m /\ accuracy m <= 100.
Proof.
  intros H Hreal. apply calculate_metrics_ok_inv in H.
  destruct H as (Hpred & errors & Hloop & -> & -> & -> & ->).
  apply metrics_loop_ok_inv in Hloop.
  destruct Hloop as (errs & -> & Hlen & Hall & Hc & _). simpl app.
  pose proof (combine_nonempty predictions real_results Hpred Hreal) as Hpos.
  rewrite length_combine in Hlen, Hpos, Hc.
  assert (Hne : errs <> []) by (destruct errs; [simpl in Hlen; lia | discriminate]).
  rewrite Forall_forall in Hall.
  assert (Hmax : forall e, In e errs -> 0 <= e /\ e <= Qmaximum errs)
    by (intros e He; split; [now apply Hall | now apply Qmaximum_ge]).
  assert (Hmax0 : 0 <= Qmaximum errs) by (apply Hall, Qmaximum_In, Hne).
  destruct (Qmean_between 0 (Qmaximum errs) errs Hne Hmax) as [Hm0 Hm1].
  pose proof (length_pos_Q real_results Hreal) as Hn.
  split; [exact Hm0|]. split; [|split; [|split; [|split; [|split]]]].
  - rewrite <- (Q2R_sqrt_square (Qmean errs) Hm0).
    apply sqrt_le_1_alt, Qle_Rle, Qmean_sq_le, Hne.
  - rewrite <- (Q2R_sqrt_square (Qmaximum errs) Hmax0).
    apply sqrt_le_1_alt, Qle_Rle.
    apply (Qmean_between 0 (Qmaximum errs * Qmaximum errs)).
    + destruct errs; [congruence | discriminate].
    + intros x Hx. apply in_map_iff in Hx. destruct Hx as (e & <- & He).
      destruct (Hmax e He). split; nra.
  - lia.
  - lia.
  - apply Qmult_le_0_compat; [|lra]. apply Qle_shift_div_l; [exact Hn|].
    rewrite Qmult_0_l. change 0 with (inject_Z 0). rewrite <- Zle_Qle. lia.
  - assert (inject_Z (correct_winners m)
            / inject_Z (Z.of_nat (List.length real_results)) <= 1); [|lra].
    apply Qle_shift_div_r; [exact Hn|]. rewrite Qmult_1_l.
    rewrite <- Zle_Qle. lia.
Qed.



Lemma metrics_loop_exact (predictions : list sim_result)
    (real_results : list HistoricalMatch) :
  Forall2 margin_hits predictions real_results ->
  forall errors correct,
  exists errs,
    metrics_loop (combine predictions real_results) errors correct
    = Ok ((errors ++ errs)%list, (correct + Z.of_nat (List.length real_results))%Z)
    /\ List.length errs = List.length real_results
    /\ Forall (fun e => e == 0) errs.
Proof.
  induction 1 as [|pred real preds reals Hhit _ IH]; intros errors correct.
  - exists []. simpl. rewrite app_nil_r, Z.add_0_r. repeat split. constructor.
  - destruct pred as [msg | hm aw m p d]; [destruct Hhit|].
    cbn [margin_hits] in Hhit. cbn [combine metrics_loop].
    set (rm := inject_Z (home_score real - away_score real)) in *.
    match goal with
    | |- context [if ?b then _ else _] => assert (Hb : b = true)
    end.
    { destruct (Q_dec rm 0) as [[Hlt|Hgt]|Heq].
      - assert (H1 : Qlt_bool rm 0 = true) by now apply Qlt_bool_iff.
        assert (H2 : Qlt_bool m 0 = true) by (apply Qlt_bool_iff; lra).
        rewrite H1, H2. simpl. now rewrite orb_true_r.
      - assert (H1 : Qlt_bool 0 rm = true) by now apply Qlt_bool_iff.
        assert (H2 : Qlt_bool 0 m = true) by (apply Qlt_bool_iff; lra).
        now rewrite H1, H2.
      - assert (H1 : Qeq_bool rm 0 = true) by now apply Qeq_bool_iff.
        assert (H2 : Qlt_bool (Qabs m) 3 = true).
        { apply Qlt_bool_iff. destruct (Qabs_cases m) as [[_ E]|[_ E]]; lra. }
        rewrite H1, H2. simpl. now rewrite orb_true_r. }
    rewrite Hb.
    destruct (IH (errors ++ [Qabs (m - rm)])%list (correct + 1)%Z)
      as (errs & Hloop & Hlen & Hall).
    exists (Qabs (m - rm) :: errs). rewrite Hloop, <- app_assoc.
    split; [|split].
    + simpl List.length. do 2 f_equal. lia.
    + simpl. now rewrite Hlen.
    + constructor; [|exact Hall].
      destruct (Qabs_cases (m - rm)) as [[_ E]|[_ E]]; lra.
Qed.

(** X20. Predictions whose margins are the real ones score perfectly:
    [calculate_metrics] returns zero errors, credits every match, a drawn
    one included, and reports an accuracy of 100. *)
Theorem exact_predictions_score_perfectly (predictions : list sim_result)
    (real_results : list HistoricalMatch) :
  Forall2 margin_hits predictions real_results ->
  real_results <> [] ->
  exists m,
    calculate_metrics predictions real_results = Ok m
    /\ rmse m = 0%R /\ mae m == 0 /\ max_error m == 0
    /\ correct_winners m = Z.of_nat (List.length real_results)
    /\ accuracy m == 100.
Proof.
  intros Hhit Hreal.
  destruct (metrics_loop_exact _ _ Hhit [] 0%Z) as (errs & Hloop & Hlen & Hall).
  simpl in Hloop.
  assert (Hne : errs <> []).
  { destruct errs; [|discriminate]. destruct real_results; [congruence|].
    discriminate Hlen. }
  unfold calculate_metrics.
  destruct predictions as [|p ps]; [inversion Hhit; congruence|].
  rewrite Hloop. cbn [bind]. eexists. split; [reflexivity|]. cbn.
  split; [|split; [|split; [|split]]].
  - assert (E : Qmean (map (fun e => e * e) errs) == 0).
    { apply Qmean_const.
      - destruct errs; [congruence | discriminate].
      - rewrite Forall_forall in *. intros x Hx. apply in_map_iff in Hx.
        destruct Hx as (e & <- & He). rewrite (Hall e He). ring. }
    rewrite (Qeq_eqR _ _ E), RMicromega.Q2R_0. apply sqrt_0.
  - now apply Qmean_const.
  - rewrite Forall_forall in Hall. apply Hall, Qmaximum_In, Hne.
  - reflexivity.
  - pose proof (length_pos_Q real_results Hreal). field. lra.
Qed.

Lemma exact_predictions_score_perfectly_witness :
  exists m,
    calculate_metrics
      (map (fun real =>
              SimPrediction (home real) (away real)
                (inject_Z (home_score real - away_score real)) (1 / 2)%R
                {| tactical := 0; elo := 0; pack_diff := 0 |})
           REAL_RESULTS)
      REAL_RESULTS = Ok m
    /\ rmse m = 0%R /\ correct_winners m = 6%Z /\ accuracy m == 100.
Proof.
  destruct (exact_predictions_score_perfectly
              (map (fun real =>
                      SimPrediction (home real) (away real)
                        (inject_Z (home_score real - away_score real)) (1 / 2)%R
                        {| tactical := 0; elo := 0; pack_diff := 0 |})
                   REAL_RESULTS)
              REAL_RESULTS)
    as (m & E & H1 & _ & _ & H4 & H5).
  - repeat constructor; simpl; reflexivity.
  - discriminate.
  - exists m. split; [exact E|]. split; [exact H1|]. split; [exact H4 | exact H5].
Defined.

(* ================================================================== *)
(** * Further properties: a trial of the calibrator *)
(* ================================================================== *)

Section TrialProperties.

Context {ops : StrOps}.

Lemma loadable_or_not (fs : FileSystem) (matches : list HistoricalMatch) :
  (exists m, In m matches /\ match_unloadable fs m)
  \/ (exists dfs,
        Forall2 (fun m df => load_match_squads fs (match_file m) = Ok (Table df))
                matches dfs).
Proof.
  induction matches as [|m matches IH].
  - right. exists []. constructor.
  - destruct (load_match_squads fs (match_file m)) as [[|df]|e] eqn:E.
    + left. exists m. split; [now left|]. intros df H. congruence.
    + destruct IH as [(m' & Hin & Hun)|(dfs & Hall)].
      * left. exists m'. split; [now right | exact Hun].
      * right. exists (df :: dfs). now constructor.
    + left. exists m. split; [now left|]. intros df H. congruence.
Qed.

Lemma predict_all_unloadable (erf : R -> R) (fs : FileSystem)
    (config : ParameterSet) (matches : list HistoricalMatch)
    (predictions : list sim_result) :
  (exists m, In m matches /\ match_unloadable fs m) ->
  predict_all erf fs config matches predictions = None.
Proof.
  revert predictions.
  induction matches as [|m matches IH]; intros predictions (m' & Hin & Hun);
    [destruct Hin|].
  cbn [predict_all].
  destruct (load_match_squads fs (match_file m)) as [[|df]|e] eqn:E;
    try reflexivity.
  destruct Hin as [<-|Hin]; [exfalso; exact (Hun df E)|].
  apply IH. now exists m'.
Qed.

Lemma no_rows_cases (df : DataFrame) (team : string) :
  no_rows df team \/ ~ no_rows df team.
Proof.
  destruct (get_tactical_metrics df team DEFAULT_CONFIG) as [m|] eqn:E.
  - right. intros H. apply get_tactical_metrics_none_iff with (params := DEFAULT_CONFIG) in H.
    congruence.
  - left. now apply get_tactical_metrics_none_iff in E.
Qed.

Lemma missing_or_present (l : list (HistoricalMatch * DataFrame)) :
  (exists m df, In (m, df) l /\ (no_rows df (home m) \/ no_rows df (away m)))
  \/ (forall m df, In (m, df) l ->
                   ~ no_rows df (home m) /\ ~ no_rows df (away m)).
Proof.
  induction l as [|[m df] l IH].
  - right. intros m df [].
  - destruct (no_rows_cases df (home m)) as [Hh|Hh];
      [left; exists m, df; split; [now left | now left]|].
    destruct (no_rows_cases df (away m)) as [Ha|Ha];
      [left; exists m, df; split; [now left | now right]|].
    destruct IH as [(m' & df' & Hin & Hno)|Hall].
    + left. exists m', df'. split; [now right | exact Hno].
    + right. intros m' df' [E|Hin]; [injection E as <- <-; now split | now apply Hall].
Qed.

Lemma Forall2_combine_In {A B : Type} (P : A -> B -> Prop) (l : list A)
    (l' : list B) :
  Forall2 P l l' ->
  (forall a b, In (a, b) (combine l l') -> P a b)
  /\ (forall a, In a l -> exists b, In (a, b) (combine l l')).
Proof.
  induction 1 as [|a b l l' Hab _ [IH1 IH2]]; simpl.
  - split; [intros a b [] | intros a []].
  - split.
    + intros a' b' [E|Hin]; [injection E as <- <-; exact Hab | now apply IH1].
    + intros a' [<-|Hin]; [exists b; now left|].
      destruct (IH2 a' Hin) as (b' & Hb). exists b'. now right.
Qed.

Lemma in_combine_map_l {A B C : Type} (f : A -> C) (l : list A) (l' : list B)
    (x : C) (y : B) :
  In (x, y) (combine (map f l) l') -> exists a, In a l /\ x = f a.
Proof.
  intros H. apply in_combine_l, in_map_iff in H.
  destruct H as (a & E & Hin). now exists a.
Qed.

Lemma present_gives_prediction (erf : R -> R) (df : DataFrame)
    (home away : string) (params : ParameterSet) (msg : string) :
  ~ no_rows df home -> ~ no_rows df away ->
  simulate_match erf home away df params <> SimError msg.
Proof.
  intros Hh Ha. 
  destruct (get_tactical_metrics df home params) as [h|] eqn:Eh;
    [|now apply get_tactical_metrics_none_iff in Eh].
  destruct (get_tactical_metrics df away params) as [a|] eqn:Ea;
    [|now apply get_tactical_metrics_none_iff in Ea].
  rewrite (simulate_match_prediction erf home away df params h a Eh Ea).
  discriminate.
Qed.

Lemma all_present_gives_metrics (erf : R -> R) (fs : FileSystem)
    (config : ParameterSet) (matches : list HistoricalMatch)
    (dfs : list DataFrame) :
  Forall2 (fun m df => load_match_squads fs (match_file m) = Ok (Table df))
          matches dfs ->
  matches <> [] ->
  (forall m df, In (m, df) (combine matches dfs) ->
                ~ no_rows df (home m) /\ ~ no_rows df (away m)) ->
  exists metrics,
    calculate_metrics
      (map (fun md => simulate_match erf (home (fst md)) (away (fst md))
                                     (snd md) config)
           (combine matches dfs))
      matches = Ok metrics.
Proof.
  intros Hload Hne Hall.
  set (f := fun md : HistoricalMatch * DataFrame =>
              simulate_match erf (home (fst md)) (away (fst md)) (snd md) config).
  destruct (metrics_loop_total (combine (map f (combine matches dfs)) matches) [] 0%Z)
    as (es & c & E).
  { intros msg real Hin. apply in_combine_map_l in Hin.
    destruct Hin as ([m df] & Hin & Hf). destruct (Hall m df Hin) as [Hh Ha].
    symmetry in Hf. revert Hf. unfold f. simpl fst. simpl snd.
    now apply present_gives_prediction. }
  unfold calculate_metrics.
  destruct (map f (combine matches dfs)) as [|p ps] eqn:Em.
  - exfalso. destruct Hload as [|m df ms ds _ _]; [congruence | discriminate Em].
  - rewrite E. cbn [bind]. eexists. reflexivity.
Qed.

(** The three courses of a trial, each with the condition that leads to it. *)
Lemma evaluate_params_cases (erf : R -> R) (fs : FileSystem) (tw ha : Q) :
  ((exists m, In m REAL_RESULTS /\ match_unloadable fs m)
   /\ evaluate_params erf fs tw ha = Ok None)
  \/ ((exists dfs,
         Forall2 (fun m df => load_match_squads fs (match_file m) = Ok (Table df))
                 REAL_RESULTS dfs
         /\ exists m df, In (m, df) (combine REAL_RESULTS dfs)
                         /\ (no_rows df (home m) \/ no_rows df (away m)))
      /\ evaluate_params erf fs tw ha = Raised (KeyError "margin"))
  \/ ((forall m, In m REAL_RESULTS -> match_ready fs m)
      /\ exists metrics, evaluate_params erf fs tw ha = Ok (Some metrics)).
Proof.
  destruct (loadable_or_not fs REAL_RESULTS) as [Hun|(dfs & Hload)].
  - left. split; [exact Hun|]. unfold evaluate_params.
    now rewrite predict_all_unloadable.
  - right. destruct (missing_or_present (combine REAL_RESULTS dfs)) as [Hmiss|Hall].
    + left. split; [now exists dfs|].
      now apply (error_result_escapes_trial erf fs tw ha dfs).
    + right. destruct (Forall2_combine_In _ _ _ Hload) as [Hp Hex]. split.
      * intros m Hin. destruct (Hex m Hin) as (df & Hdf). exists df.
        split; [exact (Hp m df Hdf) | exact (Hall m df Hdf)].
      * unfold evaluate_params.
        rewrite (predict_all_tables erf fs _ _ dfs [] Hload), app_nil_l.
        destruct (all_present_gives_metrics erf fs (trial_config tw ha)
                    REAL_RESULTS dfs Hload ltac:(discriminate) Hall) as (metrics & E).
        rewrite E. cbn [bind]. now exists metrics.
Qed.

Lemma loaded_not_unloadable (fs : FileSystem) (matches : list HistoricalMatch)
    (dfs : list DataFrame) (m : HistoricalMatch) :
  Forall2 (fun m df => load_match_squads fs (match_file m) = Ok (Table df))
          matches dfs ->
  In m matches -> ~ match_unloadable fs m.
Proof.
  intros Hload Hin Hun. destruct (Forall2_combine_In _ _ _ Hload) as [Hp Hex].
  destruct (Hex m Hin) as (df & Hdf). exact (Hun df (Hp m df Hdf)).
Qed.

Lemma missing_not_ready (fs : FileSystem) (matches : list HistoricalMatch)
    (dfs : list DataFrame) (m : HistoricalMatch) (df : DataFrame) :
  Forall2 (fun m df => load_match_squads fs (match_file m) = Ok (Table df))
          matches dfs ->
  In (m, df) (combine matches dfs) ->
  no_rows df (home m) \/ no_rows df (away m) ->
  In m matches /\ ~ match_ready fs m.
Proof.
  intros Hload Hin Hno. destruct (Forall2_combine_In _ _ _ Hload) as [Hp _].
  split; [exact (in_combine_l _ _ _ _ Hin)|].
  intros (df' & E & Hh & Ha). rewrite (Hp m df Hin) in E. injection E as <-.
  tauto.
Qed.

(** X21. A trial of [evaluate_params] takes one of three courses.  It is
    discarded ([None]) exactly when the sheet of some historical match does
    not load as a table; it returns metrics exactly when every match loads
    with rows for both of its teams, so a scored trial always covers all the
    matches; in the remaining case, every sheet loaded and a team without a
    row somewhere, it raises [KeyError], and it raises nothing else. *)
Theorem evaluate_params_outcome (erf : R -> R) (fs : FileSystem) (tw ha : Q) :
  (evaluate_params erf fs tw ha = Ok None
   <-> exists m, In m REAL_RESULTS /\ match_unloadable fs m)
  /\ ((exists metrics, evaluate_params erf fs tw ha = Ok (Some metrics))
      <-> forall m, In m REAL_RESULTS -> match_ready fs m)
  /\ (evaluate_params erf fs tw ha = Raised (KeyError "margin")
      <-> (forall m, In m REAL_RESULTS -> ~ match_unloadable fs m)
          /\ exists m, In m REAL_RESULTS /\ ~ match_ready fs m)
  /\ (forall e, evaluate_params erf fs tw ha = Raised e -> e = KeyError "margin").
Proof.
  assert (E13 : forall m, match_unloadable fs m -> match_ready fs m -> False).
  { intros m Hun (df & E & _). exact (Hun df E). }
  destruct (evaluate_params_cases erf fs tw ha)
    as [[(m1 & Hin1 & Hun1) E] | [[(dfs & Hload & m2 & df2 & Hin2 & Hno2) E]
                                 | [Hready (metrics & E)]]];
    rewrite E.
  - split; [split; [intros _; now exists m1 | reflexivity]|].
    split; [split; [intros [x Hx]; discriminate
                   | intros H; exfalso; exact (E13 m1 Hun1 (H m1 Hin1))]|].
    split; [split; [discriminate | intros [H _]; exfalso; exact (H m1 Hin1 Hun1)]|].
    intros e He. discriminate.
  - destruct (missing_not_ready fs REAL_RESULTS dfs m2 df2 Hload Hin2 Hno2) as [Hm2 Hnot].
    split; [split; [discriminate
                   | intros (m & Hin & Hun); exfalso;
                     exact (loaded_not_unloadable fs REAL_RESULTS dfs m Hload Hin Hun)]|].
    split; [split; [intros [x Hx]; discriminate
                   | intros H; exfalso; exact (Hnot (H m2 Hm2))]|].
    split; [split; [intros _ | reflexivity]|].
    + split; [intros m Hin; now apply (loaded_not_unloadable fs REAL_RESULTS dfs) | now exists m2].
    + intros e He. now injection He as <-.
  - split; [split; [discriminate
                   | intros (m & Hin & Hun); exfalso; exact (E13 m Hun (Hready m Hin))]|].
    split; [split; [intros _; exact Hready | intros _; now exists metrics]|].
    split; [split; [discriminate
                   | intros (_ & m & Hin & Hnot); exfalso; exact (Hnot (Hready m Hin))]|].
    intros e He. discriminate.
Qed.

End TrialProperties.

(* ================================================================== *)
(** * Further properties: the grid search *)
(* ================================================================== *)

Section GridSearchProperties.

Context {ops : StrOps}.

Lemma insert_by_rmse_perm (x : GridResult) (l : list GridResult) :
  Permutation (insert_by_rmse x l) (x :: l).
Proof.
  induction l as [|y l IH]; simpl; [reflexivity|].
  destruct (Rle_dec (res_rmse x) (res_rmse y)); [reflexivity|].
  rewrite IH. apply perm_swap.
Qed.

Lemma sort_by_rmse_perm (l : list GridResult) : Permutation (sort_by_rmse l) l.
Proof.
  induction l as [|x l IH]; simpl; [reflexivity|].
  rewrite insert_by_rmse_perm. now constructor.
Qed.

Lemma insert_by_rmse_HdRel (a x : GridResult) (l : list GridResult) :
  by_rmse a x -> HdRel by_rmse a l -> HdRel by_rmse a (insert_by_rmse x l).
Proof.
  intros Hax H. destruct l as [|y l]; simpl; [now constructor|].
  destruct (Rle_dec (res_rmse x) (res_rmse y)); constructor;
    [exact Hax | now inversion H].
Qed.

Lemma insert_by_rmse_Sorted (x : GridResult) (l : list GridResult) :
  Sorted by_rmse l -> Sorted by_rmse (insert_by_rmse x l).
Proof.
  induction 1 as [|y l Hs IH Hd]; simpl; [repeat constructor|].
  destruct (Rle_dec (res_rmse x) (res_rmse y)) as [Hle|Hnle].
  - constructor; [now constructor | constructor; exact Hle].
  - constructor; [exact IH|]. apply insert_by_rmse_HdRel; [|exact Hd].
    unfold by_rmse. lra.
Qed.

Lemma sort_by_rmse_Sorted (l : list GridResult) :
  StronglySorted by_rmse (sort_by_rmse l).
Proof.
  apply Sorted_StronglySorted.
  - intros a b c Hab Hbc. unfold by_rmse in *. lra.
  - induction l as [|x l IH]; simpl; [constructor | now apply insert_by_rmse_Sorted].
Qed.

(** What the loop keeps: the best row so far, and one row, with the metrics
    of its trial, for each scored combination. *)
Lemma grid_loop_inv (erf : R -> R) (fs : FileSystem) (combos : list (Q * Q)) :
  forall (results : list GridResult) (best_rmse : option R)
         (best_params : option GridResult)
         (out : list GridResult) (best : option GridResult),
  grid_loop erf fs combos results best_rmse best_params = Ok (out, best) ->
  best_rmse = option_map res_rmse best_params ->
  best_of results best_params ->
  best_of out best
  /\ exists new,
       out = (results ++ new)%list
       /\ (List.length new <= List.length combos)%nat
       /\ forall r, In r new ->
            In (tactical_weight r, home_advantage r) combos
            /\ elo_weight r = round2 (1.0 - tactical_weight r)
            /\ row_of_trial erf fs r.
Proof.
  induction combos as [|[t h] combos IH];
    intros results best_rmse best_params out best H Hbr Hbest;
    cbn [grid_loop] in H.
  - injection H as <- <-. split; [exact Hbest|]. exists [].
    rewrite app_nil_r. split; [reflexivity|]. split; [simpl; lia|]. intros r [].
  - destruct (evaluate_params erf fs t h) as [[metrics|]|e] eqn:E;
      cbn [bind] in H; [| |discriminate].
    + cbv zeta in H.
      match type of H with
      | context [grid_loop _ _ _ (_ ++ [?r])%list _ _] => set (result := r) in *
      end.
      assert (Hrow : In (tactical_weight result, home_advantage result)
                        ((t, h) :: combos)
                     /\ elo_weight result = round2 (1.0 - tactical_weight result)
                     /\ row_of_trial erf fs result).
      { split; [now left|]. split; [reflexivity|]. exists metrics.
        simpl. rewrite E. repeat split. }
      assert (Hstep : exists br' bp',
                 grid_loop erf fs combos (results ++ [result])%list br' bp'
                 = Ok (out, best)
                 /\ br' = option_map res_rmse bp'
                 /\ best_of (results ++ [result])%list bp').
      { subst best_rmse. destruct best_params as [b|]; cbn [option_map] in H.
        - destruct Hbest as [Hin Hmin].
          destruct (Rlt_dec (rmse metrics) (res_rmse b)) as [Hlt|Hnlt].
          + exists (Some (rmse metrics)), (Some result).
            split; [exact H|]. split; [reflexivity|]. split.
            * apply in_or_app. right. now left.
            * intros r Hr. apply in_app_or in Hr. unfold by_rmse.
              destruct Hr as [Hr|[<-|[]]]; [|simpl; lra].
              specialize (Hmin r Hr). unfold by_rmse in Hmin.
              change (res_rmse result) with (rmse metrics). lra.
          + exists (Some (res_rmse b)), (Some b).
            split; [exact H|]. split; [reflexivity|]. split.
            * apply in_or_app. now left.
            * intros r Hr. apply in_app_or in Hr. unfold by_rmse.
              destruct Hr as [Hr|[<-|[]]]; [exact (Hmin r Hr)|].
              change (res_rmse result) with (rmse metrics). lra.
        - simpl in Hbest. subst results.
          exists (Some (rmse metrics)), (Some result).
          split; [exact H|]. split; [reflexivity|]. split; [now left|].
          intros r [<-|[]]. unfold by_rmse. lra. }
      destruct Hstep as (br' & bp' & Hloop & Hbr' & Hbest').
      destruct (IH _ _ _ _ _ Hloop Hbr' Hbest') as (Hout & new & -> & Hlen & Hrows).
      split; [exact Hout|]. exists (result :: new). rewrite <- app_assoc.
      split; [reflexivity|]. split; [simpl; lia|].
      intros r [<-|Hr]; [exact Hrow|].
      destruct (Hrows r Hr) as (H1 & H2 & H3). split; [now right | now split].
    + destruct (IH _ _ _ _ _ H Hbr Hbest) as (Hout & new & -> & Hlen & Hrows).
      split; [exact Hout|]. exists new.
      split; [reflexivity|]. split; [simpl; lia|].
      intros r Hr. destruct (Hrows r Hr) as (H1 & H2 & H3).
      split; [now right | now split].
Qed.

Lemma grid_loop_all_none (erf : R -> R) (fs : FileSystem) (combos : list (Q * Q))
    (results : list GridResult) (best_rmse : option R)
    (best_params : option GridResult) :
  (forall t h, evaluate_params erf fs t h = Ok None) ->
  grid_loop erf fs combos results best_rmse best_params = Ok (results, best_params).
Proof.
  intros Hnone. induction combos as [|[t h] combos IH]; [reflexivity|].
  cbn [grid_loop]. rewrite Hnone. cbn [bind]. exact IH.
Qed.

Lemma grid_loop_all_some (erf : R -> R) (fs : FileSystem) (combos : list (Q * Q)) :
  (forall t h, exists m, evaluate_params erf fs t h = Ok (Some m)) ->
  forall results best_rmse best_params,
  exists out best,
    grid_loop erf fs combos results best_rmse best_params = Ok (out, best)
    /\ List.length out = (List.length results + List.length combos)%nat.
Proof.
  intros Hsome. induction combos as [|[t h] combos IH];
    intros results best_rmse best_params.
  - exists results, best_params. split; [reflexivity | simpl; lia].
  - cbn [grid_loop]. destruct (Hsome t h) as [m E]. rewrite E. cbn [bind]. cbv zeta.
    match goal with
    | |- context [if ?b then ?x else ?y] =>
        match x with context [grid_loop] => destruct b end
    end;
      match goal with
      | |- context [grid_loop erf fs combos ?rs ?br ?bp] =>
          destruct (IH rs br bp) as (out & best & -> & Hlen)
      end;
      exists out, best; (split; [reflexivity|]);
      rewrite Hlen, length_app; simpl; lia.
Qed.

Lemma evaluate_params_ready (erf : R -> R) (fs : FileSystem) (tw ha : Q) :
  (forall m, In m REAL_RESULTS -> match_ready fs m) ->
  exists metrics, evaluate_params erf fs tw ha = Ok (Some metrics).
Proof.
  intros Hready.
  destruct (evaluate_params_cases erf fs tw ha)
    as [[(m1 & Hin1 & Hun1) _] | [[(dfs & Hload & m2 & df2 & Hin2 & Hno2) _]
                                 | [_ H]]]; [exfalso | exfalso | exact H].
  - destruct (Hready m1 Hin1) as (df & E & _). exact (Hun1 df E).
  - destruct (missing_not_ready fs REAL_RESULTS dfs m2 df2 Hload Hin2 Hno2)
      as [Hm2 Hnot].
    exact (Hnot (Hready m2 Hm2)).
Qed.

Lemma evaluate_params_rmse_pos (erf : R -> R) (fs : FileSystem) (tw ha : Q)
    (m : Metrics) :
  evaluate_params erf fs tw ha = Ok (Some m) -> 0 < mae m -> rmse m <> 0%R.
Proof.
  unfold evaluate_params.
  destruct (predict_all erf fs (trial_config tw ha) REAL_RESULTS [])
    as [predictions|]; [|discriminate].
  destruct (calculate_metrics predictions REAL_RESULTS) as [m'|e] eqn:E;
    [|discriminate].
  cbn [bind]. intros H Hpos. injection H as <-.
  destruct (calculate_metrics_bounds _ _ _ E ltac:(discriminate)) as (_ & Hle & _).
  apply Qlt_Rlt in Hpos. rewrite RMicromega.Q2R_0 in Hpos. lra.
Qed.

Lemma first_combination :
  exists rest, list_prod tactical_weights home_advantages = (0.50, 0.0) :: rest.
Proof. eexists. reflexivity. Qed.

(** The courses of the whole search, each with the condition that leads to
    it. *)
Lemma grid_search_cases (erf : R -> R) (fs : FileSystem) :
  ((exists m, In m REAL_RESULTS /\ match_unloadable fs m)
   /\ grid_search erf fs = Raised RuntimeError)
  \/ (((forall m, In m REAL_RESULTS -> ~ match_unloadable fs m)
       /\ exists m, In m REAL_RESULTS /\ ~ match_ready fs m)
      /\ grid_search erf fs = Raised (KeyError "margin"))
  \/ ((forall m, In m REAL_RESULTS -> match_ready fs m)
      /\ exists current,
           evaluate_params erf fs (WEIGHT_MODEL_TACTICAL DEFAULT_CONFIG)
                           (HOME_ADVANTAGE DEFAULT_CONFIG) = Ok (Some current)
           /\ ((rmse current = 0%R /\ grid_search erf fs = Raised ZeroDivisionError)
               \/ (rmse current <> 0%R
                   /\ exists best ranking, grid_search erf fs = Ok (best, ranking)))).
Proof.
  destruct (evaluate_params_cases erf fs 0.50 0.0)
    as [[Hun _] | [[(dfs & Hload & m2 & df2 & Hin2 & Hno2) E] | [Hready _]]].
  - left. split; [exact Hun|]. unfold grid_search.
    rewrite grid_loop_all_none; [reflexivity|].
    intros t h. unfold evaluate_params. now rewrite predict_all_unloadable.
  - right. left.
    destruct (missing_not_ready fs REAL_RESULTS dfs m2 df2 Hload Hin2 Hno2)
      as [Hm2 Hnot].
    split.
    + split; [intros m Hin; now apply (loaded_not_unloadable fs REAL_RESULTS dfs)
             | now exists m2].
    + unfold grid_search. destruct first_combination as [rest ->].
      now rewrite (grid_loop_propagates erf fs _ _ rest [] None None _ E).
  - right. right. split; [exact Hready|].
    destruct (evaluate_params_ready erf fs (WEIGHT_MODEL_TACTICAL DEFAULT_CONFIG)
                (HOME_ADVANTAGE DEFAULT_CONFIG) Hready) as (current & Ecur).
    exists current. split; [exact Ecur|].
    destruct (grid_loop_all_some erf fs (list_prod tactical_weights home_advantages)
                (fun t h => evaluate_params_ready erf fs t h Hready) [] None None)
      as (out & best & Hloop & Hlen).
    unfold grid_search. rewrite Hloop. cbn [bind].
    destruct out as [|r0 out]; [destruct first_combination as [rest E];
                                rewrite E in Hlen; discriminate Hlen|].
    rewrite Ecur. cbn [bind].
    destruct (Req_dec_T (rmse current) 0%R) as [H0|H0]; [left | right];
      (split; [exact H0|]); [reflexivity | eexists; eexists; reflexivity].
Qed.

Lemma In_tactical_weights_elo (t : Q) :
  In t tactical_weights -> t + round2 (1.0 - t) == 1.
Proof.
  intros H. repeat (destruct H as [<-|H]; [vm_compute; reflexivity|]). destruct H.
Qed.

(** X22. When [grid_search] returns, the ranking is sorted by [rmse] in
    ascending order and holds between 1 and 42 rows; each row comes from a
    combination of the grid, reports the metrics of the trial run with its
    own parameters, and its two model weights add up to 1; the best
    configuration returned is a row of the ranking with the least [rmse]. *)
Theorem grid_search_ranks_the_trials (erf : R -> R) (fs : FileSystem)
    (best : option GridResult) (ranking : list GridResult) :
  grid_search erf fs = Ok (best, ranking) ->
  (exists b, best = Some b /\ In b ranking
             /\ forall r, In r ranking -> by_rmse b r)
  /\ StronglySorted by_rmse ranking
  /\ (1 <= List.length ranking <= 42)%nat
  /\ forall r, In r ranking ->
       In (tactical_weight r) tactical_weights
       /\ In (home_advantage r) home_advantages
       /\ tactical_weight r + elo_weight r == 1
       /\ row_of_trial erf fs r.
Proof.
  unfold grid_search. intros H.
  destruct (grid_loop erf fs (list_prod tactical_weights home_advantages)
              [] None None) as [[results bp]|e] eqn:L; [|discriminate].
  cbn [bind] in H. destruct results as [|r0 rs] eqn:Er; [discriminate|].
  rewrite <- Er in *.
  destruct (evaluate_params erf fs (WEIGHT_MODEL_TACTICAL DEFAULT_CONFIG)
              (HOME_ADVANTAGE DEFAULT_CONFIG)) as [[current|]|e];
    cbn [bind] in H; try discriminate.
  destruct (Req_dec_T (rmse current) 0%R); [discriminate|].
  injection H as <- <-.
  destruct (grid_loop_inv erf fs _ _ _ _ _ _ L eq_refl eq_refl)
    as (Hbest & new & Hout & Hlen & Hrows).
  simpl in Hout. subst new.
  pose proof (sort_by_rmse_perm results) as Hperm.
  split; [|split; [|split]].
  - destruct bp as [b|]; [|simpl in Hbest; congruence].
    destruct Hbest as [Hin Hmin]. exists b. split; [reflexivity|]. split.
    + apply (Permutation_in _ (Permutation_sym Hperm) Hin).
    + intros r Hr. apply Hmin. apply (Permutation_in _ Hperm Hr).
  - apply sort_by_rmse_Sorted.
  - rewrite (Permutation_length Hperm). rewrite Er at 1. split; [simpl; lia|].
    exact Hlen.
  - intros r Hr. apply (Permutation_in _ Hperm) in Hr.
    destruct (Hrows r Hr) as (Hc & He & Hrow).
    apply in_prod_iff in Hc. destruct Hc as [Ht Hh].
    split; [exact Ht|]. split; [exact Hh|]. split; [|exact Hrow].
    rewrite He. now apply In_tactical_weights_elo.
Qed.

(** X23. [grid_search] raises [RuntimeError] exactly when the sheet of some
    historical match does not load as a table, and [KeyError] exactly when
    every sheet loads and some match lacks the rows of a team; otherwise
    every match is ready and it returns, or divides by a zero [rmse].  The
    comparison with the current parameters never meets a discarded trial. *)
Theorem grid_search_outcome (erf : R -> R) (fs : FileSystem) :
  (grid_search erf fs = Raised RuntimeError
   <-> exists m, In m REAL_RESULTS /\ match_unloadable fs m)
  /\ (grid_search erf fs = Raised (KeyError "margin")
      <-> (forall m, In m REAL_RESULTS -> ~ match_unloadable fs m)
          /\ exists m, In m REAL_RESULTS /\ ~ match_ready fs m)
  /\ ((grid_search erf fs = Raised ZeroDivisionError
       \/ exists out, grid_search erf fs = Ok out)
      <-> forall m, In m REAL_RESULTS -> match_ready fs m)
  /\ grid_search erf fs <> Raised TypeError.
Proof.
  assert (E13 : forall m, match_unloadable fs m -> match_ready fs m -> False).
  { intros m Hun (df & E & _). exact (Hun df E). }
  destruct (grid_search_cases erf fs)
    as [[(m1 & Hin1 & Hun1) E] | [[(Hload & m2 & Hin2 & Hnot2) E]
                                 | [Hready (current & _ & [[_ E]|[_ (b & rk & E)]])]]];
    rewrite E.
  - split; [split; [intros _; now exists m1 | reflexivity]|].
    split; [split; [discriminate | intros [H _]; exfalso; exact (H m1 Hin1 Hun1)]|].
    split; [|discriminate].
    split; [intros [H|[out H]]; discriminate
           | intros H; exfalso; exact (E13 m1 Hun1 (H m1 Hin1))].
  - split; [split; [discriminate
                   | intros (m & Hin & Hun); exfalso; exact (Hload m Hin Hun)]|].
    split; [split; [intros _; split; [exact Hload | now exists m2] | reflexivity]|].
    split; [|discriminate].
    split; [intros [H|[out H]]; discriminate
           | intros H; exfalso; exact (Hnot2 (H m2 Hin2))].
  - split; [split; [discriminate
                   | intros (m & Hin & Hun); exfalso; exact (E13 m Hun (Hready m Hin))]|].
    split; [split; [discriminate
                   | intros (_ & m & Hin & Hnot); exfalso; exact (Hnot (Hready m Hin))]|].
    split; [|discriminate].
    split; [intros _; exact Hready | intros _; now left].
  - split; [split; [discriminate
                   | intros (m & Hin & Hun); exfalso; exact (E13 m Hun (Hready m Hin))]|].
    split; [split; [discriminate
                   | intros (_ & m & Hin & Hnot); exfalso; exact (Hnot (Hready m Hin))]|].
    split; [|discriminate].
    split; [intros _; exact Hready | intros _; right; now exists (b, rk)].
Qed.

End GridSearchProperties.

Lemma two_name_fs_ready (m : HistoricalMatch) :
  In m REAL_RESULTS -> match_ready two_name_fs m.
Proof.
  intros H.
  repeat (destruct H as [<-|H];
          [eexists; split; [vm_compute; reflexivity|];
           split; intros Hno;
           [eapply (Hno _ (or_introl eq_refl))
           | eapply (Hno _ (or_intror (or_introl eq_refl)))]; reflexivity|]).
  destruct H.
Qed.

Lemma two_name_fs_search :
  exists best ranking, grid_search odd_sigmoid two_name_fs = Ok (best, ranking).
Proof.
  destruct (grid_search_cases odd_sigmoid two_name_fs)
    as [[(m & Hin & Hun) _] | [[(_ & m & Hin & Hnot) _]
                              | [_ (current & Ecur & [[H0 _]|[_ H]])]]].
  - exfalso. destruct (two_name_fs_ready m Hin) as (df & E & _). exact (Hun df E).
  - exfalso. exact (Hnot (two_name_fs_ready m Hin)).
  - exfalso.
    assert (Hc : exists c,
               evaluate_params odd_sigmoid two_name_fs
                 (WEIGHT_MODEL_TACTICAL DEFAULT_CONFIG) (HOME_ADVANTAGE DEFAULT_CONFIG)
               = Ok (Some c) /\ 0 < mae c)
      by (eexists; split; vm_compute; reflexivity).
    destruct Hc as (c & Ec & Hpos). rewrite Ecur in Ec. injection Ec as <-.
    exact (evaluate_params_rmse_pos _ _ _ _ _ Ecur Hpos H0).
  - exact H.
Qed.

Lemma grid_search_ranks_the_trials_witness :
  exists best ranking,
    grid_search odd_sigmoid two_name_fs = Ok (best, ranking)
    /\ StronglySorted by_rmse ranking
    /\ (1 <= List.length ranking <= 42)%nat.
Proof.
  destruct two_name_fs_search as (best & ranking & E).
  exists best, ranking. split; [exact E|].
  destruct (grid_search_ranks_the_trials odd_sigmoid two_name_fs best ranking E)
    as (_ & Hs & Hl & _).
  split; [exact Hs | exact Hl].
Defined.

(* ================================================================== *)
(** * Further properties: the frame built by the loader *)
(* ================================================================== *)

Section LoaderFrame.

Context {ops : StrOps}.

Lemma load_match_squads_pd (fs : FileSystem) (file : string) (fr : Frame) :
  load_match_squads fs file = Ok fr -> fr = pd_DataFrame (frame_rows fr).
Proof.
  unfold load_match_squads.
  destruct (xlsx fs (data_path file)) as [sheet|]; [|discriminate].
  destruct (db_csv fs) as [db|]; [|discriminate].
  destruct (get_teams_from_filename (data_path file)) as [[team1 team2]|e];
    [|discriminate].
  cbn [bind].
  destruct (negb (has_Number_column sheet)); [discriminate|].
  destruct (n_columns sheet <? 3)%nat; [discriminate|].
  intros E. injection E as <-. now rewrite frame_rows_pd_DataFrame.
Qed.

Lemma process_row_nil_iff (team1 team2 : string) (db : list PlayerRecord)
    (fb1 fb2 : Q) (row : LineupRow) :
  process_row team1 team2 db fb1 fb2 row = [] <-> ~ has_entry row.
Proof.
  unfold process_row, has_entry.
  destruct (Number row) as [j|], (team1_cell row) as [p1|],
    (team2_cell row) as [p2|]; simpl; split; intros H;
    try discriminate; try reflexivity;
    try (intros [H1 [H2|H2]]; congruence);
    exfalso; apply H; split; try discriminate;
    (left; discriminate) || (right; discriminate).
Qed.

Lemma process_row_length (team1 team2 : string) (db : list PlayerRecord)
    (fb1 fb2 : Q) (row : LineupRow) :
  (List.length (process_row team1 team2 db fb1 fb2 row) <= 2)%nat.
Proof.
  unfold process_row.
  destruct (Number row), (team1_cell row), (team2_cell row); simpl; lia.
Qed.

Lemma flat_map_nil_iff {A B : Type} (f : A -> list B) (l : list A) :
  flat_map f l = [] <-> forall x, In x l -> f x = [].
Proof.
  induction l as [|a l IH]; simpl; [tauto|]. split.
  - intros H. apply app_eq_nil in H. destruct H as [Ha Hl].
    intros x [<-|Hx]; [exact Ha | now apply IH].
  - intros H. rewrite (H a (or_introl eq_refl)). simpl. apply IH.
    intros x Hx. apply H. now right.
Qed.

Lemma flat_map_length_le {A B : Type} (f : A -> list B) (l : list A) (n : nat) :
  (forall x, (List.length (f x) <= n)%nat) ->
  (List.length (flat_map f l) <= n * List.length l)%nat.
Proof.
  intros H. induction l as [|a l IH]; simpl; [lia|].
  rewrite length_app. specialize (H a). lia.
Qed.

(** X24. The loader returns a frame without columns exactly when no lineup
    row has both a readable number and a name in one of the two team
    columns; a table it returns is never empty, and it holds at most two
    rows per lineup row. *)
Theorem frame_without_columns_iff_no_entry (fs : FileSystem) (file : string)
    (fr : Frame) :
  load_match_squads fs file = Ok fr ->
  exists sheet,
    xlsx fs (data_path file) = Some sheet
    /\ (fr = NoColumns <-> forall row, In row (lineup sheet) -> ~ has_entry row)
    /\ (forall df, fr = Table df -> rows df <> [] /\ has_shirt_number df = true)
    /\ (List.length (frame_rows fr) <= 2 * List.length (lineup sheet))%nat.
Proof.
  intros Hload.
  destruct (load_match_squads_rows fs file fr Hload)
    as (team1 & team2 & db & sheet & _ & _ & Hx & Hrows).
  pose proof (load_match_squads_pd fs file fr Hload) as Hpd.
  exists sheet. split; [exact Hx|]. split; [|split].
  - transitivity (frame_rows fr = []).
    + split; [now intros -> |]. intros E. rewrite Hpd, E. reflexivity.
    + rewrite Hrows, flat_map_nil_iff. split; intros H row Hrow.
      * eapply process_row_nil_iff. now apply H.
      * apply process_row_nil_iff. now apply H.
  - intros df E. rewrite E in Hpd. simpl in Hpd.
    destruct (rows df) as [|r rs] eqn:Er; simpl in Hpd; [discriminate|].
    injection Hpd as Hpd. rewrite Hpd. split; [discriminate | reflexivity].
  - rewrite Hrows. apply flat_map_length_le. intros row. apply process_row_length.
Qed.

End LoaderFrame.

Lemma frame_without_columns_iff_no_entry_witness :
  load_match_squads blank_sheet_fs "France-Ireland.xlsx" = Ok NoColumns
  /\ exists sheet,
       xlsx blank_sheet_fs (data_path "France-Ireland.xlsx") = Some sheet
       /\ forall row, In row (lineup sheet) -> ~ has_entry row.
Proof.
  split; [reflexivity|].
  destruct (frame_without_columns_iff_no_entry blank_sheet_fs "France-Ireland.xlsx"
              NoColumns eq_refl) as (sheet & Hx & Hiff & _).
  exists sheet. split; [exact Hx|]. now apply Hiff.
Defined.

